(** * ACQDIV multi-tier alignment: the code of the parsers, embedded and verified

    The development follows three source files of the repository:

    - [acqdiv/parsers/toolbox.py]: [struct_eqv], the tail of
      [ToolboxFile.get_morphemes] and of [ToolboxFile.make_rec], the first
      substitution of [ToolboxFile.clean_utterance];
    - [acqdiv/parsers/chat/cleaners/TurkishCleaner.py]: [single_morph_word],
      [separate_morph_word], [cross_clean], [unify_untranscribed];
    - [acqdiv/parsers/xml/CHATParser.py]: the body of
      [CHATParser.next_utterance].

    The second part adds the word functions of these files and the reader
    they call, [acqdiv/parsers/xml/CHATReader.py].

    A Python [str] is a [string]; one character of the model is one code
    point of the source (the functions below compare code points with the
    separators [' '], ['_'], ['+'], ['|'], ['.'], the letters [x], [y], [w],
    ['*'] and the white space class only).  A Python list is a [list];
    indexing that can raise [IndexError] is written in the error monad
    [res]; a [while] loop is a fuelled iteration whose fuel is shown to be
    sufficient. *)

From Stdlib Require Import Ascii String.
From stdpp Require Import base tactics option list strings.

Set Warnings "-register-all".

(** ** Python values and primitives *)

Module Py.

(** Outcome of running a piece of Python code: a value, an exception, or a
    loop that did not finish within the fuel it was given. *)
Inductive res (A : Type) : Type :=
| Ok (a : A)
| Raised
| OutOfFuel.
Global Arguments Ok {A} a.
Global Arguments Raised {A}.
Global Arguments OutOfFuel {A}.

Definition bind {A B} (m : res A) (k : A → res B) : res B :=
  match m with
  | Ok a => k a
  | Raised => Raised
  | OutOfFuel => OutOfFuel
  end.

Global Instance res_ret : MRet res := @Ok.
Global Instance res_bind : MBind res := fun A B k m => bind m k.

(** [xs[i]]: raises [IndexError] out of range (indices are never negative
    in the code modelled here). *)
Definition index {A} (xs : list A) (i : nat) : res A :=
  match xs !! i with
  | Some x => Ok x
  | None => Raised
  end.

(** [del xs[i]]: raises [IndexError] out of range. *)
Definition del {A} (xs : list A) (i : nat) : res (list A) :=
  match xs !! i with
  | Some _ => Ok (delete i xs)
  | None => Raised
  end.

(** [xs.insert(i, x)]: never raises; beyond the end it appends. *)
Definition insert_at {A} (xs : list A) (i : nat) (x : A) : list A :=
  take i xs ++ x :: drop i xs.

(** [xs[i] = x] on an index in range. *)
Definition assign {A} (xs : list A) (i : nat) (x : A) : res (list A) :=
  match xs !! i with
  | Some _ => Ok (<[i := x]> xs)
  | None => Raised
  end.

(** [c in s] for a one-character string [c]. *)
Fixpoint has_char (c : ascii) (s : string) : bool :=
  match s with
  | EmptyString => false
  | String d s' => if Ascii.eqb c d then true else has_char c s'
  end.

(** [s.startswith(p)]. *)
Fixpoint startswith (p s : string) : bool :=
  match p, s with
  | EmptyString, _ => true
  | String _ _, EmptyString => false
  | String a p', String b s' => if Ascii.eqb a b then startswith p' s' else false
  end.

(** [p in s]: [p] occurs in [s] as a substring. *)
Fixpoint contains (p s : string) : bool :=
  if startswith p s then true
  else match s with
       | EmptyString => false
       | String _ s' => contains p s'
       end.

(** [s[:n]]. *)
Fixpoint slice_to (n : nat) (s : string) : string :=
  match n, s with
  | S n', String c s' => String c (slice_to n' s')
  | _, _ => EmptyString
  end.

(** [s[n:]]. *)
Fixpoint slice_from (n : nat) (s : string) : string :=
  match n, s with
  | S n', String _ s' => slice_from n' s'
  | _, _ => s
  end.

(** Splitting at every character of a class: [s.split(' ')] and
    [re.split(r'[+_]', s)] (a one-character pattern never matches the empty
    string, so both keep empty pieces and return at least one piece). *)
Fixpoint split_on (sep : ascii → bool) (s : string) : list string :=
  match s with
  | EmptyString => [EmptyString]
  | String c s' =>
      if sep c then EmptyString :: split_on sep s'
      else match split_on sep s' with
           | w :: ws => String c w :: ws
           | [] => [String c EmptyString]
           end
  end.

(** [sep.join(xs)]. *)
Fixpoint join (sep : string) (xs : list string) : string :=
  match xs with
  | [] => EmptyString
  | [x] => x
  | x :: xs' => x +:+ sep +:+ join sep xs'
  end.

(** [n * [x]]. *)
Definition list_mul {A} (n : nat) (x : A) : list A := replicate n x.

(** [zip(xs, ys)] stops at the shorter list. *)
Fixpoint zip {A B} (xs : list A) (ys : list B) : list (A * B) :=
  match xs, ys with
  | x :: xs', y :: ys' => (x, y) :: zip xs' ys'
  | _, _ => []
  end.

(** The class [\s] of [re] on [str] patterns, which is also the class
    [str.split()] and [str.strip()] use: the code points for which
    [str.isspace()] holds, here those below 256. *)
Definition isspace (c : ascii) : bool :=
  match c with
  | "009" | "010" | "011" | "012" | "013"
  | "028" | "029" | "030" | "031" | " " | "133" | "160" => true
  | _ => false
  end%char.

(** [s.split()]: the maximal runs of characters that are not white space. *)
Fixpoint split_ws (s : string) : list string :=
  match s with
  | EmptyString => []
  | String c s' =>
      if isspace c then split_ws s'
      else match s' with
           | EmptyString => [String c EmptyString]
           | String d _ =>
               if isspace d then String c EmptyString :: split_ws s'
               else match split_ws s' with
                    | w :: ws => String c w :: ws
                    | [] => [String c EmptyString]
                    end
           end
  end.

(** [re.sub] for a pattern that does not match the empty string.  The
    pattern is given by [here]: whether it matches at the current position
    ([at_start] tells that this is the start of the string, where alone
    [^] holds), and then the text that replaces the match and the length
    of the match.  Matches are taken from left to right and do not
    overlap: [skip] counts the characters of the current match that are
    still to be passed. *)
Fixpoint re_sub (here : bool → string → option (string * nat))
    (skip : nat) (at_start : bool) (s : string) : string :=
  match s with
  | EmptyString => EmptyString
  | String c s' =>
      match skip with
      | S k => re_sub here k false s'
      | 0 =>
          match here at_start s with
          | Some (out, n) => out +:+ re_sub here (n - 1) false s'
          | None => String c (re_sub here 0 false s')
          end
      end
  end.

(** [while cond(s): s = body(s)] with fuel: one unit per iteration. *)
Fixpoint while {S : Type} (fuel : nat) (cond : S → bool) (body : S → res S)
    (s : S) : res S :=
  match fuel with
  | 0 => if cond s then OutOfFuel else Ok s
  | Datatypes.S fuel' =>
      if cond s then bind (body s) (while fuel' cond body) else Ok s
  end.

(** Some character of the string is in the class. *)
Fixpoint any_char (p : ascii → bool) (s : string) : bool :=
  match s with
  | EmptyString => false
  | String c s' => p c || any_char p s'
  end.

(** No character of the string is in the class. *)
Definition no_char (sep : ascii → bool) (s : string) : Prop :=
  Forall (λ c, sep c = false) (list_ascii_of_string s).

(** [x if x else None] on a string. *)
Definition or_none (s : string) : option string :=
  match s with
  | EmptyString => None
  | _ => Some s
  end.

End Py.

(** ** [toolbox.py]: structural equality of nested lists *)

Module Toolbox.

(** The values that occur in the tokenized tiers: strings, [None]
    (a language that could not be assigned) and lists of such values. *)
Inductive pyobj : Type :=
| PStr (s : string)
| PNone
| PList (xs : list pyobj).

Definition is_list (x : pyobj) : bool :=
  match x with PList _ => true | _ => false end.

(** [struct_eqv]: the length test, then the loop over [zip(xs, ys)] with its
    early [return False].  The inner [fix] is the [for] loop; the nested
    call [struct_eqv(x, y)] is the recursive call on the two sublists. *)
Fixpoint struct_eqv_obj (x y : pyobj) {struct x} : bool :=
  match x, y with
  | PList xs, PList ys =>
      if length xs =? length ys then
        (fix loop (xs ys : list pyobj) {struct xs} : bool :=
           match xs, ys with
           | x :: xs', y :: ys' =>
               if is_list x || is_list y then
                 if negb (is_list x && is_list y) then false
                 else if negb (struct_eqv_obj x y) then false
                      else loop xs' ys'
               else loop xs' ys'
           | _, _ => true
           end) xs ys
      else false
  | _, _ => false
  end.

Definition struct_eqv (xs ys : list pyobj) : bool :=
  struct_eqv_obj (PList xs) (PList ys).

(** The test the loop of [struct_eqv] performs on one pair. *)
Definition pair_ok (x y : pyobj) : bool :=
  if is_list x || is_list y then
    is_list x && is_list y && struct_eqv_obj x y
  else true.

(** *** The tail of [ToolboxFile.get_morphemes]

    At this point of the function the four tiers [morphemes], [glosses],
    [poses] and [langs] are lists of words, each word a list of morpheme
    values; a value is a string or [None] (a language left unassigned). *)

Abbreviation atom := (option string).
Abbreviation tier := (list (list atom)).

Definition atom_obj (a : atom) : pyobj :=
  match a with Some s => PStr s | None => PNone end.
Definition word_obj (w : list atom) : pyobj := PList (atom_obj <$> w).
Definition tier_obj (t : tier) : list pyobj := word_obj <$> t.

Record morpheme_dict := MorphemeDict {
  morpheme : atom;
  gloss_raw : atom;
  pos_raw : atom;
  morpheme_language : atom;
  type : string;
  warning : option string
}.

(** [tiers.append(t)] if [struct_eqv(t, glosses)], else
    [tiers.append([[] for i in range(len_mw)])] and the call of
    [logger.info].  The call writes to the log only, but its argument
    [utterance['source_id']] is evaluated first and raises [KeyError] when
    the utterance has no such key ([make_rec] does not set the key of a
    tier whose content is the empty string, nor of a tier the record does
    not have).  [source_id] is what the utterance holds under the key:
    [None] when the key is absent, [Some None] when it holds [None]. *)
Definition checked_tier (source_id : option atom) (glosses t : tier)
    : Py.res tier :=
  let len_mw := length glosses in
  if struct_eqv (tier_obj t) (tier_obj glosses) then Py.Ok t
  else match source_id with
       | Some _ => Py.Ok (replicate len_mw [])
       | None => Py.Raised
       end.

(** [zip] applied to the four entries of [tiers]. *)
Fixpoint zip4 {A} (a b c d : list A) : list (A * A * A * A) :=
  match a, b, c, d with
  | x :: a', y :: b', z :: c', u :: d' => (x, y, z, u) :: zip4 a' b' c' d'
  | _, _, _, _ => []
  end.

(** [zip_longest(a, b, c, d, fillvalue=None)]: every list is continued with
    [None] up to the length of the longest. *)
Definition fill_none (n : nat) (xs : list atom) : list atom :=
  xs ++ replicate (n - length xs) None.

Definition zip_longest (a b c d : list atom)
    : list (atom * atom * atom * atom) :=
  let n := Nat.max (Nat.max (length a) (length b))
             (Nat.max (length c) (length d)) in
  zip4 (fill_none n a) (fill_none n b) (fill_none n c) (fill_none n d).

Section get_morphemes.
(** [self.config['morphemes']['type']], the list [warnings] and
    [utterance.get('source_id')]. *)
Variable config_type : string.
Variable warnings : list string.
Variable source_id : option atom.

Definition make_dict (m : atom * atom * atom * atom) : morpheme_dict :=
  let '(m0, m1, m2, m3) := m in
  {| morpheme := m0; gloss_raw := m1; pos_raw := m2;
     morpheme_language := m3; type := config_type;
     warning := match warnings with
                | [] => None
                | _ => Some (Py.join " " warnings)
                end |}.

(** The loop over [(morphemes, glosses, poses, langs)] stops at the first
    tier whose test raises; then nothing is returned. *)
Definition get_morphemes_tail (morphemes glosses poses langs : tier)
    : Py.res (list (list morpheme_dict)) :=
  Py.bind (checked_tier source_id glosses morphemes) (λ t0,
  Py.bind (checked_tier source_id glosses glosses) (λ t1,
  Py.bind (checked_tier source_id glosses poses) (λ t2,
  Py.bind (checked_tier source_id glosses langs) (λ t3,
    let mwords := zip4 t0 t1 t2 t3 in
    Py.Ok
      ((fun mw : list atom * list atom * list atom * list atom =>
          let '(mw0, mw1, mw2, mw3) := mw in
          make_dict <$> zip_longest mw0 mw1 mw2 mw3) <$> mwords))))).
End get_morphemes.

(** *** The tail of [ToolboxFile.make_rec] *)

(** A word dictionary; a key that is absent is [None].  The key
    [word_language] may be present with the value [None]. *)
Record word_dict := WordDict {
  word : option string;
  word_actual : option string;
  word_target : option string;
  word_language : option atom
}.

Definition empty_word : word_dict :=
  {| word := None; word_actual := None; word_target := None;
     word_language := None |}.

(** [for i in range(len(words)): try: words[i]['word_language'] =
    morphemes[i][0]['morpheme_language'] except IndexError: break]. *)
Fixpoint set_word_languages (words : list word_dict)
    (morphemes : list (list morpheme_dict)) : list word_dict :=
  match words, morphemes with
  | w :: words', (m :: _) :: morphemes' =>
      {| word := word w; word_actual := word_actual w;
         word_target := word_target w;
         word_language := Some (morpheme_language m) |}
        :: set_word_languages words' morphemes'
  | _, _ => words
  end.

(** [if len(morphemes) - len(words) > 0: ... words.append({})]. *)
Definition pad_words (words : list word_dict)
    (morphemes : list (list morpheme_dict)) : list word_dict :=
  if 0 <? length morphemes - length words then
    let misalignment := length morphemes - length words in
    words ++ replicate misalignment empty_word
  else words.

(** Lines 176 to 195 of [make_rec]: [words] and [morphemes] are what
    [get_words] and [get_morphemes] returned (both [[]] when the record has
    no utterance).  Lines 180 to 182 (Russian) write to the utterance
    dictionary only. *)
Definition make_rec_tail (words : list word_dict)
    (morphemes : list (list morpheme_dict))
    : list word_dict * list (list morpheme_dict) :=
  let words := set_word_languages words morphemes in
  (pad_words words morphemes, morphemes).

(** *** The first substitution of [ToolboxFile.clean_utterance]

    [re.sub('xxx?|www|\*{3}', '???', utterance)]: at a position where
    [xx], [www] or three asterisks start, the match (with a third [x] when
    there is one) is replaced and the scan goes on behind it. *)
Definition garbage_here (s : string) : option nat :=
  if Py.startswith "xx" s then
    if Py.startswith "xxx" s then Some 3 else Some 2
  else if Py.startswith "www" s then Some 3
  else if Py.startswith "***" s then Some 3
  else None.

Definition garbage_pattern (at_start : bool) (s : string)
    : option (string * nat) :=
  match garbage_here s with
  | Some n => Some ("???", n)
  | None => None
  end.

Definition unify_garbage (utterance : string) : string :=
  Py.re_sub garbage_pattern 0 true utterance.

End Toolbox.

(** ** [TurkishCleaner.py]: cross tier cleaning *)

Module TurkishCleaner.
Import Py.

Definition is_blank (c : ascii) : bool := Ascii.eqb c " ".
Definition is_join_sep (c : ascii) : bool :=
  Ascii.eqb c "+" || Ascii.eqb c "_".

(** ['_' in w or '+' in w]. *)
Definition joined (w : string) : bool := has_char "_" w || has_char "+" w.

(** *** [single_morph_word] *)

(** The variables the loop changes; [mwords] and [mwords_count] stay as
    they are. *)
Record smw_state := SmwState {
  smw_i : nat;
  smw_wwords : list string;
  smw_wwords_count : nat
}.

Definition smw_cond (mwords_count : nat) (st : smw_state) : bool :=
  (smw_i st <? smw_wwords_count st) && (smw_i st <? mwords_count).

Definition smw_body (mwords : list string) (st : smw_state) : res smw_state :=
  let i := smw_i st in
  let wwords := smw_wwords st in
  let wwords_count := smw_wwords_count st in
  mword ← index mwords i;
  wword ← index wwords i;
  '(wwords, wwords_count) ←
    (if has_char "_" mword || has_char "+" mword then
       if negb (has_char "_" wword) && negb (has_char "+" wword) then
         if contains (slice_to 2 wword) mword then
           if i + 1 <? wwords_count then
             next_word ← index wwords (i + 1);
             if contains (slice_to 2 next_word) mword then
               wwords ← del wwords (i + 1);
               old ← index wwords i;
               wwords ← assign wwords i (old +:+ "_" +:+ next_word);
               Ok (wwords, wwords_count - 1)
             else Ok (wwords, wwords_count)
           else Ok (wwords, wwords_count)
         else Ok (wwords, wwords_count)
       else Ok (wwords, wwords_count)
     else Ok (wwords, wwords_count));
  Ok {| smw_i := i + 1; smw_wwords := wwords;
        smw_wwords_count := wwords_count |}.

Definition single_morph_word_fuel (fuel : nat) (utterance morph_tier : string)
    : res (string * string) :=
  let wwords := split_on is_blank utterance in
  let mwords := split_on is_blank morph_tier in
  let wwords_count := length wwords in
  let mwords_count := length mwords in
  st ← while fuel (smw_cond mwords_count) (smw_body mwords)
         {| smw_i := 0; smw_wwords := wwords;
            smw_wwords_count := wwords_count |};
  Ok (join " " (smw_wwords st), morph_tier).

(** The loop runs at most once per morphological word. *)
Definition single_morph_word (utterance morph_tier : string)
    : res (string * string) :=
  single_morph_word_fuel (length (split_on is_blank morph_tier))
    utterance morph_tier.

(** *** [separate_morph_word] *)

(** [re.search] with the pattern of line 80 (a lazy [\S+?], a bar, and the
    group: a greedy [\S+], a bar, a greedy run of [.]), returning
    [match.group(1)].

    [rest_ok y]: [\S+\|] matches a prefix of [y], i.e. some [r >= 1]
    characters outside [\s] are followed by a bar (which [r] the greedy
    [\S+] settles on does not change the group). *)
Fixpoint rest_ok (y : string) : bool :=
  match y with
  | EmptyString => false
  | String c y' =>
      negb (isspace c)
      && (match y' with
          | String "|" _ => true
          | _ => false
          end || rest_ok y')
  end.

(** [.*]: up to the end of the line. *)
Fixpoint dot_star (y : string) : string :=
  match y with
  | EmptyString => EmptyString
  | String c y' =>
      if Ascii.eqb c "010" then EmptyString else String c (dot_star y')
  end.

(** The pattern anchored at the start of [x]: the lazy [\S+?] takes one
    character and then one more at a time until a bar follows behind which
    the rest of the pattern matches; the group starts behind that bar and,
    [\S+\|] holding no line feed, ends where [.*] ends. *)
Fixpoint double_pos_here (x : string) : option string :=
  match x with
  | EmptyString => None
  | String c x' =>
      if isspace c then None
      else match x' with
           | String "|" y =>
               if rest_ok y then Some (dot_star y) else double_pos_here x'
           | _ => double_pos_here x'
           end
  end.

(** [re.search]: the first start position at which the pattern matches. *)
Fixpoint search_double_pos (w : string) : option string :=
  match double_pos_here w with
  | Some g => Some g
  | None =>
      match w with
      | EmptyString => None
      | String _ w' => search_double_pos w'
      end
  end.

(** [for j, w in enumerate(pieces): xs.insert(i+j, w); count += 1],
    started at [j]. *)
Fixpoint insert_pieces (i j : nat) (pieces : list string)
    (xs : list string) (count : nat) : list string * nat :=
  match pieces with
  | [] => (xs, count)
  | w :: pieces' =>
      insert_pieces i (j + 1) pieces' (insert_at xs (i + j) w) (count + 1)
  end.

Record sep_state := SepState {
  sep_i : nat;
  sep_wwords : list string;
  sep_mwords : list string;
  sep_wwords_count : nat;
  sep_mwords_count : nat
}.

Definition sep_cond (st : sep_state) : bool :=
  (sep_i st <? sep_wwords_count st) && (sep_i st <? sep_mwords_count st).

Definition sep_body (st : sep_state) : res sep_state :=
  let i := sep_i st in
  let wwords := sep_wwords st in
  let mwords := sep_mwords st in
  let wwords_count := sep_wwords_count st in
  let mwords_count := sep_mwords_count st in
  mwords_i ← index mwords i;
  match search_double_pos mwords_i with
  | Some mword =>
      mwords ← del mwords i;
      let mwords_count := mwords_count - 1 in
      let '(mwords, mwords_count) :=
        insert_pieces i 0 (split_on is_join_sep mword) mwords mwords_count in
      wwords_i ← index wwords i;
      if has_char "_" wwords_i || has_char "+" wwords_i then
        wword ← index wwords i;
        wwords ← del wwords i;
        let wwords_count := wwords_count - 1 in
        let '(wwords, wwords_count) :=
          insert_pieces i 0 (split_on is_join_sep wword) wwords wwords_count in
        Ok {| sep_i := i + 1; sep_wwords := wwords; sep_mwords := mwords;
              sep_wwords_count := wwords_count;
              sep_mwords_count := mwords_count |}
      else
        Ok {| sep_i := i + 1; sep_wwords := wwords; sep_mwords := mwords;
              sep_wwords_count := wwords_count;
              sep_mwords_count := mwords_count |}
  | None =>
      Ok {| sep_i := i + 1; sep_wwords := wwords; sep_mwords := mwords;
            sep_wwords_count := wwords_count;
            sep_mwords_count := mwords_count |}
  end.

Definition separate_morph_word_fuel (fuel : nat)
    (utterance morph_tier : string) : res (string * string) :=
  let wwords := split_on is_blank utterance in
  let mwords := split_on is_blank morph_tier in
  let wwords_count := length wwords in
  let mwords_count := length mwords in
  st ← while fuel sep_cond sep_body
         {| sep_i := 0; sep_wwords := wwords; sep_mwords := mwords;
            sep_wwords_count := wwords_count;
            sep_mwords_count := mwords_count |};
  Ok (join " " (sep_wwords st), join " " (sep_mwords st)).

(** Every iteration passes one morphological word, and a word can only be
    added where the tier has a [+] or [_]: the length of the tier, plus
    one, bounds the number of iterations. *)
Definition separate_morph_word (utterance morph_tier : string)
    : res (string * string) :=
  separate_morph_word_fuel (S (String.length morph_tier))
    utterance morph_tier.

(** *** [cross_clean] *)

Definition cross_clean
    (actual_utt target_utt seg_tier gloss_tier pos_tier : string)
    : res (string * string * string * string * string) :=
  let mor_tier := seg_tier in
  '(actual_utt, mor_tier) ← single_morph_word actual_utt mor_tier;
  '(actual_utt, mor_tier) ← separate_morph_word actual_utt mor_tier;
  '(target_utt, mor_tier) ← single_morph_word target_utt mor_tier;
  '(target_utt, mor_tier) ← separate_morph_word target_utt mor_tier;
  Ok (actual_utt, target_utt, mor_tier, mor_tier, mor_tier).

(** The repair of one utterance against the morphology tier: lines 110 and
    111 of [cross_clean]. *)
Definition repair_pass (utt_mor : string * string) : res (string * string) :=
  '(utt, mor_tier) ← single_morph_word utt_mor.1 utt_mor.2;
  separate_morph_word utt mor_tier.

(** *** [unify_untranscribed]

    [re.compile(r'(^|\s)(xxx|y{3,}|www)(\s|$|\.)').sub(r'\1???\3', utterance)] *)

(** Group 3, [(\s|$|\.)], at [s]: the text of the group.  When a line feed
    is all that is left, [\s] has taken it before [$] is tried. *)
Definition group3 (s : string) : option string :=
  match s with
  | EmptyString => Some EmptyString
  | String c _ =>
      if isspace c then Some (String c EmptyString)
      else if Ascii.eqb c "." then Some "."
      else None
  end.

Fixpoint count_y (s : string) : nat :=
  match s with
  | String "y" s' => S (count_y s')
  | _ => 0
  end.

(** [y{3,}] followed by group 3: the greedy count first, then one [y]
    less at a time down to three. *)
Fixpoint y_then_group3 (k : nat) (s : string) : option (nat * string) :=
  match k with
  | 0 => None
  | S k' =>
      if 3 <=? k then
        match group3 (slice_from k s) with
        | Some g3 => Some (k, g3)
        | None => y_then_group3 k' s
        end
      else None
  end.

(** Groups 2 and 3 at [s]: the length of group 2 and the text of group 3. *)
Definition group23 (s : string) : option (nat * string) :=
  match (if startswith "xxx" s then
           match group3 (slice_from 3 s) with
           | Some g3 => Some (3, g3)
           | None => None
           end
         else None) with
  | Some r => Some r
  | None =>
      match y_then_group3 (count_y s) s with
      | Some r => Some r
      | None =>
          if startswith "www" s then
            match group3 (slice_from 3 s) with
            | Some g3 => Some (3, g3)
            | None => None
            end
          else None
      end
  end.

(** The whole pattern at the current position: the replacement text
    [\1???\3] and the length of the match.  [at_start] says that the
    position is the start of the string, the only place where [^] holds. *)
Definition untranscribed_here (at_start : bool) (s : string)
    : option (string * nat) :=
  match (if at_start then group23 s else None) with
  | Some (n, g3) => Some ("???" +:+ g3, n + String.length g3)
  | None =>
      match s with
      | String c s' =>
          if isspace c then
            match group23 s' with
            | Some (n, g3) =>
                Some (String c ("???" +:+ g3), 1 + n + String.length g3)
            | None => None
            end
          else None
      | EmptyString => None
      end
  end.

Definition unify_untranscribed (utterance : string) : string :=
  re_sub untranscribed_here 0 true utterance.

End TurkishCleaner.

(** ** [CHATParser.py]: the body of [next_utterance] *)

Module CHATParser.
Import Py.

(** What the reader returns for the record it has loaded. *)
Record record := Rec {
  uid : string;
  addressee : string;
  translation : string;
  comments : string;
  record_speaker_label : string;
  utterance : string;
  start_time : string;
  end_time : string;
  sentence_type : string;
  actual_utterance : string;
  target_utterance : string;
  seg_tier : string;
  gloss_tier : string;
  pos_tier : string
}.

(** The methods of the reader that do not depend on the record
    ([CorpusReaderInterface], one implementation per corpus). *)
Class Reader := {
  get_standard_form : string;
  get_utterance_words : string → list string;
  get_word_language : string → string;
  get_seg_words : string → list string;
  get_gloss_words : string → list string;
  get_pos_words : string → list string;
  get_main_morpheme : string;
  get_segments : string → list string;
  get_glosses : string → list string;
  get_poses : string → list string;
  get_morpheme_language : string → string → string → string
}.

(** The cleaner, one implementation per corpus. *)
Class Cleaner := {
  clean_utterance : string → string;
  clean_translation : string → string;
  clean_seg_tier : string → string;
  clean_gloss_tier : string → string;
  clean_pos_tier : string → string;
  cross_clean : string → string → string → string → string
                → string * string * string * string * string;
  clean_word : string → string;
  clean_seg_word : string → string;
  clean_gloss_word : string → string;
  clean_pos_word : string → string;
  clean_segment : string → string;
  clean_gloss : string → string;
  clean_pos : string → string
}.

Record word_dict := WordDict {
  word_language : option string;
  word : string;
  word_actual : string;
  word_target : string;
  word_warning : option string
}.

Record utterance_dict := UtteranceDict {
  u_source_id : string;
  u_speaker_label : string;
  u_addressee : option string;
  u_utterance_raw : string;
  u_utterance : option string;
  u_translation : option string;
  u_morpheme : option string;
  u_gloss_raw : option string;
  u_pos_raw : option string;
  u_sentence_type : string;
  u_start_raw : option string;
  u_end_raw : option string;
  u_comment : option string;
  u_warning : option string
}.

Record morpheme_dict := MorphemeDict {
  morpheme_language : option string;
  morpheme : option string;
  gloss_raw : option string;
  pos_raw : option string
}.

Fixpoint zip3 {A} (a b c : list A) : list (A * A * A) :=
  match a, b, c with
  | x :: a', y :: b', z :: c' => (x, y, z) :: zip3 a' b' c'
  | _, _, _ => []
  end.

Section next_utterance.
Context {reader : Reader} {cleaner : Cleaner}.

(** Lines 114 to 136: one dictionary per pair of [zip(actual_words,
    target_words)]. *)
Definition make_word (pair : string * string) : word_dict :=
  let '(word_actual, word_target) := pair in
  let word :=
    if String.eqb get_standard_form "actual" then word_actual
    else word_target in
  let word_language := get_word_language word in
  let word := clean_word word in
  let word_actual := clean_word word_actual in
  let word_target := clean_word word_target in
  {| word_language := or_none word_language;
     word := word;
     word_actual := word_actual;
     word_target := word_target;
     word_warning := None |}.

Definition collect_words (actual_words target_words : list string)
    : list word_dict :=
  make_word <$> zip actual_words target_words.

(** Lines 170 to 183 for the words and lines 212 to 223 for the morphemes
    are the same computation: the number of units to be considered,
    from the lists of the segment, gloss and POS units. *)
Definition units_to_consider (segs glosses poses : list string) : nat :=
  let len :=
    if String.eqb get_main_morpheme "segment" then
      let len := length segs in
      if len =? 0 then length glosses else len
    else
      let len := length glosses in
      if len =? 0 then length segs else len in
  if len =? 0 then length poses else len.

(** [if len != len(units): units = len*['']]. *)
Definition empty_if_misaligned (len : nat) (units : list string)
    : list string :=
  if negb (len =? length units) then list_mul len EmptyString else units.

(** Lines 235 to 252. *)
Definition make_morpheme (m : string * string * string) : morpheme_dict :=
  let '(seg, gloss, pos) := m in
  let morpheme_language := get_morpheme_language seg gloss pos in
  let seg := clean_segment seg in
  let gloss := clean_gloss gloss in
  let pos := clean_pos pos in
  {| morpheme_language := or_none morpheme_language;
     morpheme := or_none seg;
     gloss_raw := or_none gloss;
     pos_raw := or_none pos |}.

(** Lines 199 to 209: the morpheme lists of one word. *)
Definition word_units (w : string * string * string)
    : list string * list string * list string :=
  let '(wseg, wgloss, wpos) := w in
  let wseg := clean_seg_word wseg in
  let wgloss := clean_gloss_word wgloss in
  let wpos := clean_pos_word wpos in
  let segments := get_segments wseg in
  let glosses := get_glosses wgloss in
  let poses := get_poses wpos in
  (segments, glosses, poses).

(** Lines 211 to 254: the morphemes of one word. *)
Definition word_morphemes (w : string * string * string)
    : list morpheme_dict :=
  let '(segments, glosses, poses) := word_units w in
  let mlen := units_to_consider segments glosses poses in
  let segments := empty_if_misaligned mlen segments in
  let glosses := empty_if_misaligned mlen glosses in
  let poses := empty_if_misaligned mlen poses in
  make_morpheme <$> zip3 segments glosses poses.

(** Lines 158 to 197: the words of the three cross-cleaned tiers, side
    by side. *)
Definition aligned_words (seg_tier gloss_tier pos_tier : string)
    : list (string * string * string) :=
  let seg_tier := clean_seg_tier seg_tier in
  let gloss_tier := clean_gloss_tier gloss_tier in
  let pos_tier := clean_pos_tier pos_tier in
  let wsegs := get_seg_words seg_tier in
  let wglosses := get_gloss_words gloss_tier in
  let wposes := get_pos_words pos_tier in
  let wlen := units_to_consider wsegs wglosses wposes in
  let wsegs := empty_if_misaligned wlen wsegs in
  let wglosses := empty_if_misaligned wlen wglosses in
  let wposes := empty_if_misaligned wlen wposes in
  zip3 wsegs wglosses wposes.

(** Lines 194 to 254: the morphemes of the utterance. *)
Definition collect_morphemes (seg_tier gloss_tier pos_tier : string)
    : list (list morpheme_dict) :=
  word_morphemes <$> aligned_words seg_tier gloss_tier pos_tier.

(** The tiers after cross cleaning (lines 88 to 109). *)
Definition cross_cleaned (r : record)
    : string * string * string * string * string :=
  let actual_utt := clean_utterance (actual_utterance r) in
  let target_utt := clean_utterance (target_utterance r) in
  let seg_tier := clean_seg_tier (seg_tier r) in
  let gloss_tier := clean_gloss_tier (gloss_tier r) in
  let pos_tier := clean_pos_tier (pos_tier r) in
  cross_clean actual_utt target_utt seg_tier gloss_tier pos_tier.

(** One turn of the loop of [next_utterance]: what is yielded for the
    record [r]. *)
Definition process_record (r : record)
    : utterance_dict * list word_dict * list (list morpheme_dict) :=
  let source_id := uid r in
  let addressee := addressee r in
  let translation := translation r in
  let comment := comments r in
  let speaker_label := record_speaker_label r in
  let utterance_raw := utterance r in
  let start_raw := start_time r in
  let end_raw := end_time r in
  let sentence_type := sentence_type r in
  let translation := clean_translation translation in
  let seg_tier_raw := seg_tier r in
  let gloss_tier_raw := gloss_tier r in
  let pos_tier_raw := pos_tier r in
  let '(actual_utt, target_utt, seg_tier, gloss_tier, pos_tier) :=
    cross_cleaned r in
  let actual_words := get_utterance_words actual_utt in
  let target_words := get_utterance_words target_utt in
  let words := collect_words actual_words target_words in
  let utterance := join " " (word <$> words) in
  let utterance_dict :=
    {| u_source_id := source_id;
       u_speaker_label := speaker_label;
       u_addressee := or_none addressee;
       u_utterance_raw := utterance_raw;
       u_utterance := or_none utterance;
       u_translation := or_none translation;
       u_morpheme := or_none seg_tier_raw;
       u_gloss_raw := or_none gloss_tier_raw;
       u_pos_raw := or_none pos_tier_raw;
       u_sentence_type := sentence_type;
       u_start_raw := or_none start_raw;
       u_end_raw := or_none end_raw;
       u_comment := or_none comment;
       u_warning := None |} in
  let morphemes := collect_morphemes seg_tier gloss_tier pos_tier in
  (utterance_dict, words, morphemes).

(** The generator: one triple per record the reader loads. *)
Definition next_utterance (records : list record)
    : list (utterance_dict * list word_dict * list (list morpheme_dict)) :=
  process_record <$> records.

(** The word lists the reference count is computed from, for a record. *)
Definition morpheme_words (r : record)
    : list string * list string * list string :=
  let '(_, _, seg_tier, gloss_tier, pos_tier) := cross_cleaned r in
  (get_seg_words (clean_seg_tier seg_tier),
   get_gloss_words (clean_gloss_tier gloss_tier),
   get_pos_words (clean_pos_tier pos_tier)).

Definition reference_word_count (r : record) : nat :=
  let '(wsegs, wglosses, wposes) := morpheme_words r in
  units_to_consider wsegs wglosses wposes.

(** The words of the actual and of the target form, for a record. *)
Definition utterance_words (r : record) : list string * list string :=
  let '(actual_utt, target_utt, _, _, _) := cross_cleaned r in
  (get_utterance_words actual_utt, get_utterance_words target_utt).

(** The words of the three tiers side by side, for a record. *)
Definition record_aligned_words (r : record)
    : list (string * string * string) :=
  let '(_, _, seg_tier, gloss_tier, pos_tier) := cross_cleaned r in
  aligned_words seg_tier gloss_tier pos_tier.
End next_utterance.

End CHATParser.

(** ** Properties the code is compared with *)

Module Spec.
Import Py.

(** *** Nested structure *)

(** Two values have the same nested structure when both are not lists, or
    both are lists of the same length whose entries have, position by
    position, the same nested structure. *)
Inductive same_structure : Toolbox.pyobj → Toolbox.pyobj → Prop :=
| same_atoms x y :
    Toolbox.is_list x = false → Toolbox.is_list y = false →
    same_structure x y
| same_lists xs ys :
    Forall2 same_structure xs ys →
    same_structure (Toolbox.PList xs) (Toolbox.PList ys).

(** Changing what stands at the positions that are not lists. *)
Fixpoint relabel (f : Toolbox.atom → Toolbox.atom) (x : Toolbox.pyobj)
    : Toolbox.pyobj :=
  match x with
  | Toolbox.PList xs => Toolbox.PList (map (relabel f) xs)
  | Toolbox.PStr s => Toolbox.atom_obj (f (Some s))
  | Toolbox.PNone => Toolbox.atom_obj (f None)
  end.

(** *** Reference tier *)

Inductive tier_name := Segment | Gloss | POS.

Global Instance tier_name_eq_dec : EqDecision tier_name.
Proof. solve_decision. Defined.

(** The tier [get_main_morpheme()] designates. *)
Definition designated (main_morpheme : string) : tier_name :=
  if String.eqb main_morpheme "segment" then Segment else Gloss.

(** The fixed order of authority. *)
Definition priority : list tier_name := [Segment; Gloss; POS].

(** The designated tier first, then the other tiers by authority. *)
Definition candidates (main_morpheme : string) : list tier_name :=
  designated main_morpheme
    :: filter (λ t, t ≠ designated main_morpheme) priority.

(** The first tier of [order] that is not empty, if there is one. *)
Definition first_nonempty {A} (units : tier_name → list A)
    (order : list tier_name) : option tier_name :=
  list_find (λ t, units t ≠ []) order ≫= λ p, Some p.2.

(** The reference count: the length of the first candidate that is not
    empty, and 0 when all tiers are empty. *)
Definition reference_count {A} (main_morpheme : string)
    (units : tier_name → list A) : nat :=
  match first_nonempty units (candidates main_morpheme) with
  | Some t => length (units t)
  | None => 0
  end.

Definition units_of {A} (segs glosses poses : list A) (t : tier_name)
    : list A :=
  match t with Segment => segs | Gloss => glosses | POS => poses end.

(** *** Tokens *)

(** The number of words of a string: of its runs between white space, as
    [str.split()] counts them, and of its pieces between blanks, as
    [str.split(' ')] counts them. *)
Definition word_count (s : string) : nat := length (split_ws s).
Definition blank_word_count (s : string) : nat :=
  length (split_on TurkishCleaner.is_blank s).

(** Reading a string from left to right: the number of words that start
    in it and whether it ends inside a word, [in_word] telling whether the
    character before the string belongs to a word. *)
Fixpoint scan_words (in_word : bool) (s : string) : nat * bool :=
  match s with
  | EmptyString => (0, in_word)
  | String c s' =>
      if isspace c then scan_words false s'
      else let '(n, b) := scan_words true s' in
           ((if in_word then 0 else 1) + n, b)
  end.

Fixpoint count_blank (s : string) : nat :=
  match s with
  | EmptyString => 0
  | String c s' =>
      (if TurkishCleaner.is_blank c then 1 else 0) + count_blank s'
  end.

(** Two texts that can stand for each other without a change of the
    number of words, whatever stands around them. *)
Definition same_words (x y : string) : Prop :=
  (∀ b, scan_words b x = scan_words b y) ∧ count_blank x = count_blank y.

(** *** Preconditions of the repairs *)

(** The test of [single_morph_word] at position [i]: the morphological
    word is a complex, the orthographic word is not joined, both it and
    the word behind it look like parts of the complex. *)
Definition merge_at (wwords mwords : list string) (i : nat) : bool :=
  match mwords !! i, wwords !! i, wwords !! (i + 1) with
  | Some mword, Some wword, Some next_word =>
      TurkishCleaner.joined mword
      && negb (TurkishCleaner.joined wword)
      && contains (slice_to 2 wword) mword
      && contains (slice_to 2 next_word) mword
  | _, _, _ => false
  end.

(** No position of the two tiers meets the test. *)
Definition no_merge (utterance morph_tier : string) : bool :=
  let wwords := split_on TurkishCleaner.is_blank utterance in
  let mwords := split_on TurkishCleaner.is_blank morph_tier in
  forallb (λ i, negb (merge_at wwords mwords i)) (seq 0 (length mwords)).

(** No morphological word carries a double POS tag. *)
Definition no_double_pos (morph_tier : string) : bool :=
  forallb (λ w, match TurkishCleaner.search_double_pos w with
                | Some _ => false
                | None => true
                end)
          (split_on TurkishCleaner.is_blank morph_tier).

(** What [single_morph_word] makes of the words from the current position
    on, as a function of the two remaining lists. *)
Fixpoint merged (wwords mwords : list string) {struct mwords}
    : list string :=
  match mwords with
  | [] => wwords
  | mword :: mwords' =>
      match wwords with
      | wword :: (next_word :: wwords'') as wwords' =>
          if TurkishCleaner.joined mword
             && negb (TurkishCleaner.joined wword)
             && contains (slice_to 2 wword) mword
             && contains (slice_to 2 next_word) mword
          then (wword +:+ "_" +:+ next_word) :: merged wwords'' mwords'
          else wword :: merged wwords' mwords'
      | _ => wwords
      end
  end.

(** The fuel [separate_morph_word] needs from a position on: one unit per
    word and one per [+] or [_]. *)
Fixpoint count_seps (s : string) : nat :=
  match s with
  | EmptyString => 0
  | String c s' =>
      (if TurkishCleaner.is_join_sep c then 1 else 0) + count_seps s'
  end.

Definition weight (mwords : list string) : nat :=
  sum_list_with (λ w, S (count_seps w)) mwords.

(** What one turn of the loop of [separate_morph_word] puts in the place
    of the morphological word and of the orthographic word. *)
Definition mword_pieces (mword : string) : list string :=
  match TurkishCleaner.search_double_pos mword with
  | Some g => split_on TurkishCleaner.is_join_sep g
  | None => [mword]
  end.

Definition wword_pieces (mword wword : string) : list string :=
  match TurkishCleaner.search_double_pos mword with
  | Some _ =>
      if TurkishCleaner.joined wword
      then split_on TurkishCleaner.is_join_sep wword
      else [wword]
  | None => [wword]
  end.

(** What [separate_morph_word] makes of the words from the current
    position on: the first piece stays, the other pieces are passed
    next. *)
Fixpoint separated (fuel : nat) (wwords mwords : list string)
    : list string * list string :=
  match fuel with
  | 0 => (wwords, mwords)
  | S fuel' =>
      match wwords, mwords with
      | wword :: wwords', mword :: mwords' =>
          match wword_pieces mword wword, mword_pieces mword with
          | q :: qs, p :: ps =>
              let '(rw, rm) :=
                separated fuel' (qs ++ wwords') (ps ++ mwords') in
              (q :: rw, p :: rm)
          | _, _ => (wwords, mwords)
          end
      | _, _ => (wwords, mwords)
      end
  end.

(** *** A reader and a cleaner to run the parser with *)

(** Modelled from the spec: the reader class of the CHAT parser
    ([ACQDIVCHATReader]) is not among the sources.  Word boundaries are
    white space and morpheme boundaries hyphens (section 4.1); the gloss
    tier is the main tier and the actual form the standard form, as the
    unit tests of the reader have it. *)
Definition sample_reader : CHATParser.Reader :=
  {| CHATParser.get_standard_form := "actual";
     CHATParser.get_utterance_words := split_ws;
     CHATParser.get_word_language := λ _, EmptyString;
     CHATParser.get_seg_words := split_ws;
     CHATParser.get_gloss_words := split_ws;
     CHATParser.get_pos_words := split_ws;
     CHATParser.get_main_morpheme := "gloss";
     CHATParser.get_segments := split_on (Ascii.eqb "-");
     CHATParser.get_glosses := split_on (Ascii.eqb "-");
     CHATParser.get_poses := split_on (Ascii.eqb "-");
     CHATParser.get_morpheme_language := λ _ _ _, EmptyString |}.

(** Modelled from the spec: the base cleaner ([CHATCleaner]) is not among
    the sources; this one leaves every string as it is (cleaning is out
    of the scope of the alignment, section 6). *)
Definition plain_cleaner : CHATParser.Cleaner :=
  {| CHATParser.clean_utterance := id;
     CHATParser.clean_translation := id;
     CHATParser.clean_seg_tier := id;
     CHATParser.clean_gloss_tier := id;
     CHATParser.clean_pos_tier := id;
     CHATParser.cross_clean := λ a t s g p, (a, t, s, g, p);
     CHATParser.clean_word := id;
     CHATParser.clean_seg_word := id;
     CHATParser.clean_gloss_word := id;
     CHATParser.clean_pos_word := id;
     CHATParser.clean_segment := id;
     CHATParser.clean_gloss := id;
     CHATParser.clean_pos := id |}.

(** A record with the given utterance and morphology tiers. *)
Definition sample_record (utt seg gloss pos : string) : CHATParser.record :=
  {| CHATParser.uid := "u1";
     CHATParser.addressee := EmptyString;
     CHATParser.translation := EmptyString;
     CHATParser.comments := EmptyString;
     CHATParser.record_speaker_label := "CHI";
     CHATParser.utterance := utt;
     CHATParser.start_time := EmptyString;
     CHATParser.end_time := EmptyString;
     CHATParser.sentence_type := "default";
     CHATParser.actual_utterance := utt;
     CHATParser.target_utterance := utt;
     CHATParser.seg_tier := seg;
     CHATParser.gloss_tier := gloss;
     CHATParser.pos_tier := pos |}.

(** *** The reference tier of a record *)

(** The candidates that stand before a tier. *)
Fixpoint before (t : tier_name) (order : list tier_name) : list tier_name :=
  match order with
  | [] => []
  | t' :: order' => if decide (t' = t) then [] else t' :: before t order'
  end.

Section reference.
Context {reader : CHATParser.Reader} {cleaner : CHATParser.Cleaner}.

(** The words the reader returns for a tier of the record, after the
    cleaning and the cross cleaning. *)
Definition tier_words (r : CHATParser.record) : tier_name → list string :=
  units_of (CHATParser.morpheme_words r).1.1
    (CHATParser.morpheme_words r).1.2 (CHATParser.morpheme_words r).2.

(** The morphemes the reader returns for a word of a tier. *)
Definition tier_morphemes (t : tier_name) (w : string) : list string :=
  match t with
  | Segment => CHATParser.get_segments (CHATParser.clean_seg_word w)
  | Gloss => CHATParser.get_glosses (CHATParser.clean_gloss_word w)
  | POS => CHATParser.get_poses (CHATParser.clean_pos_word w)
  end.

(** The reference tier of a record: the first candidate for which the
    reader returns a word. *)
Definition reference_tier (r : CHATParser.record) : option tier_name :=
  first_nonempty (tier_words r) (candidates CHATParser.get_main_morpheme).

(** The word of a tier that stands at a position of the record: the word
    of the tier when the tier has as many words as the reference count
    says, the empty string when it has not. *)
Definition paired_word (r : CHATParser.record) (t : tier_name) (i : nat)
    : option string :=
  if length (tier_words r t) =? CHATParser.reference_word_count r
  then tier_words r t !! i
  else if i <? CHATParser.reference_word_count r then Some EmptyString
       else None.
End reference.

End Spec.

(** ** More of Python's strings and of [re] *)

Module Str.
Import Py.

Definition tab : ascii := "009".
Definition lf : ascii := "010".
Definition dquote : ascii := "034".

(** [c == a]. *)
Definition eq_char (a : ascii) : ascii → bool := λ c, Ascii.eqb c a.

(** The classes [\d] (on the code points below 256) and [[A-Za-z0-9]]. *)
Definition in_range (lo hi : nat) (c : ascii) : bool :=
  (lo <=? nat_of_ascii c) && (nat_of_ascii c <=? hi).
Definition isdigit (c : ascii) : bool := in_range 48 57 c.
Definition isalnum (c : ascii) : bool :=
  in_range 65 90 c || in_range 97 122 c || in_range 48 57 c.

(** The length of the longest prefix whose characters are in the class:
    what a greedy [\s+], [\S+] or [\d+] takes. *)
Fixpoint run (p : ascii → bool) (s : string) : nat :=
  match s with
  | String c s' => if p c then S (run p s') else 0
  | EmptyString => 0
  end.

Definition nonspace (c : ascii) : bool := negb (isspace c).

(** Every character of the string is in the class. *)
Fixpoint all_chars (p : ascii → bool) (s : string) : bool :=
  match s with
  | EmptyString => true
  | String c s' => p c && all_chars p s'
  end.

(** The index of the first character of the class. *)
Fixpoint find_char (p : ascii → bool) (s : string) : option nat :=
  match s with
  | EmptyString => None
  | String c s' => if p c then Some 0 else S <$> find_char p s'
  end.

(** [re.sub('[...]', '', s)]: the characters of the class are dropped. *)
Fixpoint remove_chars (p : ascii → bool) (s : string) : string :=
  match s with
  | EmptyString => EmptyString
  | String c s' => if p c then remove_chars p s' else String c (remove_chars p s')
  end.

(** [s.replace(old, new)] for [old] of one character or more: the
    occurrences of [old] from left to right, without overlap. *)
Definition literal (old new : string) (at_start : bool) (s : string)
    : option (string * nat) :=
  if startswith old s then Some (new, String.length old) else None.

Definition replace (old new s : string) : string :=
  re_sub (literal old new) 0 true s.

(** [s.strip()]. *)
Fixpoint lstrip (s : string) : string :=
  match s with
  | String c s' => if isspace c then lstrip s' else s
  | EmptyString => EmptyString
  end.

Fixpoint rstrip (s : string) : string :=
  match s with
  | EmptyString => EmptyString
  | String c s' =>
      match rstrip s' with
      | EmptyString => if isspace c then EmptyString else String c EmptyString
      | r => String c r
      end
  end.

Definition strip (s : string) : string := rstrip (lstrip s).

(** [re.search] for a pattern given by what it yields when it matches at
    the start of a string: the first start position that matches. *)
Fixpoint search {A} (here : string → option A) (s : string) : option A :=
  match here s with
  | Some g => Some g
  | None =>
      match s with
      | EmptyString => None
      | String _ s' => search here s'
      end
  end.

(** [re.finditer] for a pattern that does not match the empty string:
    [here] gives the group and the length of the match. *)
Fixpoint finditer {A} (here : string → option (A * nat)) (skip : nat)
    (s : string) : list A :=
  match s with
  | EmptyString => []
  | String c s' =>
      match skip with
      | S k => finditer here k s'
      | 0 =>
          match here s with
          | Some (g, n) => g :: finditer here (n - 1) s'
          | None => finditer here 0 s'
          end
      end
  end.

(** [re.split] for a pattern without groups that does not match the
    empty string; [prev] is the character before the current position
    (for a look-behind), [here] gives the length of the match. *)
Fixpoint re_split (here : option ascii → string → option nat)
    (prev : option ascii) (skip : nat) (s : string) : list string :=
  match s with
  | EmptyString => [EmptyString]
  | String c s' =>
      match skip with
      | S k => re_split here (Some c) k s'
      | 0 =>
          match here prev s with
          | Some n => EmptyString :: re_split here (Some c) (n - 1) s'
          | None =>
              match re_split here (Some c) 0 s' with
              | w :: ws => String c w :: ws
              | [] => [String c EmptyString]
              end
          end
      end
  end.

(** The longest prefix that ends with a character of the class: a greedy
    [.*] before a class. *)
Fixpoint upto_last (p : ascii → bool) (s : string) : option string :=
  match s with
  | EmptyString => None
  | String c s' =>
      match upto_last p s' with
      | Some r => Some (String c r)
      | None => if p c then Some (String c EmptyString) else None
      end
  end.

(** A lazy [.*?] before the rest of the pattern: [stop] is tried at the
    current position first and one character further each time it
    fails. *)
Fixpoint lazy_until {A} (stop : string → option A) (s : string)
    : option (string * A) :=
  match stop s with
  | Some x => Some (EmptyString, x)
  | None =>
      match s with
      | EmptyString => None
      | String c s' =>
          match lazy_until stop s' with
          | Some (g, x) => Some (String c g, x)
          | None => None
          end
      end
  end.

End Str.

(** ** [TurkishCleaner.py]: word and segment cleaning *)

Module TurkishUnits.
Import Py Str.

(** [replace_plus]: [unit.replace('+', '_')]. *)
Definition replace_plus (unit : string) : string := replace "+" "_" unit.

(** [clean_segment]. *)
Definition clean_segment (segment : string) : string := replace_plus segment.

End TurkishUnits.

(** ** [toolbox.py]: words and morpheme words of a record *)

Module ToolboxFile.
Import Py Str Toolbox.

(** [longer_of]. *)
Definition longer_of {A} (a b : list A) : list A :=
  if length b <? length a then a else b.

(** The patterns [xxx?|www] and [xxx?] of [get_words]. *)
Definition xw_here (at_start : bool) (s : string) : option (string * nat) :=
  if startswith "xx" s then
    if startswith "xxx" s then Some ("???", 3) else Some ("???", 2)
  else if startswith "www" s then Some ("???", 3)
  else None.

Definition x_here (at_start : bool) (s : string) : option (string * nat) :=
  if startswith "xx" s then
    if startswith "xxx" s then Some ("???", 3) else Some ("???", 2)
  else None.

(** The pattern of line 221: an opening parenthesis, one character or
    more that is not a closing parenthesis, a closing parenthesis. *)
Definition paren_group_here (at_start : bool) (s : string)
    : option (string * nat) :=
  match s with
  | String "(" r =>
      match find_char (eq_char ")") r with
      | Some (S k) => Some (EmptyString, S k + 2)
      | _ => None
      end
  | _ => None
  end.

Definition is_paren (c : ascii) : bool := eq_char "(" c || eq_char ")" c.

(** [get_words]: [corpus] is [self.config['corpus']['corpus']]. *)
Definition get_word (corpus : string) (word : string) : word_dict :=
  if String.eqb corpus "Indonesian" then
    if has_char "(" word then
      let word_target := remove_chars is_paren word in
      let w := re_sub paren_group_here 0 true word in
      {| Toolbox.word := Some w; word_actual := Some w;
         word_target := Some word_target; word_language := None |}
    else
      let word_target := re_sub xw_here 0 true word in
      let w := re_sub x_here 0 true word in
      {| Toolbox.word := Some w; word_actual := Some w;
         word_target := Some word_target; word_language := None |}
  else
    let w := unify_garbage word in
    {| Toolbox.word := Some w;
       word_actual :=
         if String.eqb corpus "Chintang" || String.eqb corpus "Russian"
         then Some word else None;
       word_target := None; word_language := None |}.

Definition get_words (corpus : string) (utterance : string)
    : list word_dict :=
  get_word corpus <$> split_ws utterance.

(** Lines 123 and 124 of [make_rec]: every run of white space of the
    content of a tier becomes one blank, then the content is stripped. *)
Definition spaces_here (at_start : bool) (s : string)
    : option (string * nat) :=
  let k := run isspace s in
  if k =? 0 then None else Some (" ", k).

Definition normalize (content : string) : string :=
  strip (re_sub spaces_here 0 true content).

(** [_word_boundary]: white space that has neither a hyphen nor white
    space before it nor behind it.  The greedy [\s+] takes the whole run;
    a shorter one would have white space behind it. *)
Definition hyphen_or_space (c : ascii) : bool := eq_char "-" c || isspace c.

Definition word_boundary_here (prev : option ascii) (s : string)
    : option nat :=
  let k := run isspace s in
  if match prev with
     | Some p => hyphen_or_space p
     | None => false
     end
  then None
  else if k =? 0 then None
  else match slice_from k s with
       | String d _ => if hyphen_or_space d then None else Some k
       | EmptyString => Some k
       end.

Definition split_word_boundary (tier : string) : list string :=
  re_split word_boundary_here None 0 tier.

(** The morpheme words of a tier of the Indonesian corpus (lines 457 to
    459 and 466 to 468): [word.split()] for every word. *)
Definition indonesian_words (tier : string) : list (list string) :=
  split_ws <$> split_word_boundary tier.

(** The morpheme words of a tier of the Chintang corpus (lines 506 to 509
    and 514 to 517): the floating clitic marker is removed first. *)
Definition chintang_words (tier : string) : list (list string) :=
  (λ word, split_ws (replace " - " " " word)) <$> split_word_boundary tier.

(** Line 470: the languages of the morphemes of the Indonesian corpus. *)
Definition indonesian_langs (morphemes glosses : tier) : tier :=
  (λ mw : list atom, (λ _, Some "Indonesian") <$> mw)
    <$> longer_of morphemes glosses.

End ToolboxFile.

(** ** [CHATReader.py] *)

Module CHATReader.
Import Py Str.

(** *** Session metadata *)

(** A marker and the rest of the line as the group: the group and the
    length of the match. *)
Definition field_here (marker : string) (s : string)
    : option (string * nat) :=
  if startswith marker s then
    let content :=
      TurkishCleaner.dot_star (slice_from (String.length marker) s) in
    Some (content, String.length marker + String.length content)
  else None.

Definition field_marker (sign : ascii) (name : string) : string :=
  String sign (name +:+ String ":" (String tab EmptyString)).

(** [get_metadata_field], for a name that is taken literally by [re]
    (letters, digits and blanks). *)
Definition get_metadata_field (metadata name : string) : string :=
  let matches := finditer (field_here (field_marker "@" name)) 0 metadata in
  match matches with
  | [] => EmptyString
  | _ => join (String lf EmptyString) matches
  end.

Definition get_date (metadata : string) : string :=
  get_metadata_field metadata "Date".

Definition get_media (metadata : string) : string :=
  get_metadata_field metadata "Media".

Definition get_filename (media : string) : res string :=
  index (split_on (eq_char ",") media) 0.

(** The pattern of [iter_participants]: a comma with a blank before it
    and a blank behind it, each optional. *)
Definition comma_here (prev : option ascii) (s : string) : option nat :=
  match s with
  | String " " (String "," (String " " _)) => Some 3
  | String " " (String "," _) => Some 2
  | String "," (String " " _) => Some 2
  | String "," _ => Some 1
  | _ => None
  end.

Definition iter_participants (metadata : string) : list string :=
  let participants := get_metadata_field metadata "Participants" in
  re_split comma_here None 0 participants.

Definition get_speaker_label (participant : string) : res string :=
  index (split_on (eq_char " ") participant) 0.

Definition get_name (participant : string) : res string :=
  let data := split_on (eq_char " ") participant in
  if length data =? 2 then Ok EmptyString else index data 1.

Definition get_role (participant : string) : res string :=
  let data := split_on (eq_char " ") participant in
  index data (length data - 1).

(** The loop of [get_id_field]: the first line that holds the label
    between bars; [ValueError] when there is none. *)
Fixpoint first_id (key : string) (ids : list string) : res string :=
  match ids with
  | [] => Raised
  | ID :: ids' => if contains key ID then Ok ID else first_id key ids'
  end.

Definition get_id_field (metadata speaker_label : string) : res string :=
  let ids := get_metadata_field metadata "ID" in
  first_id ("|" +:+ speaker_label +:+ "|") (split_on (eq_char lf) ids).

Definition get_age (id_field : string) : res string :=
  index (split_on (eq_char "|") id_field) 3.

Definition get_gender (id_field : string) : res string :=
  index (split_on (eq_char "|") id_field) 4.

Definition get_language (id_field : string) : res string :=
  index (split_on (eq_char "|") id_field) 0.

Definition get_birth_date (metadata speaker_label : string) : string :=
  get_metadata_field metadata ("Birth of " +:+ speaker_label).

(** *** Records *)

Definition remove_line_breaks (rec : string) : string :=
  replace (String lf (String tab EmptyString)) " " rec.

(** The pattern of [get_main_line] at the start of a string. *)
Definition main_line_here (s : string) : option string :=
  match s with
  | String "*" (String a (String b (String c (String ":" (String d r))))) =>
      if isalnum a && isalnum b && isalnum c && eq_char tab d then
        Some (String "*" (String a (String b (String c (String ":"
                (String d (TurkishCleaner.dot_star r)))))))
      else None
  | _ => None
  end.

(** [search(rec).group()]: [AttributeError] when nothing matches. *)
Definition get_main_line (rec : string) : res string :=
  match search main_line_here (remove_line_breaks rec) with
  | Some m => Ok m
  | None => Raised
  end.

(** [get_dependent_tier], for a name that is taken literally by [re]. *)
Definition get_dependent_tier (rec name : string) : string :=
  match search (field_here (field_marker "%" name)) rec with
  | None => EmptyString
  | Some (content, _) => content
  end.

Definition get_addressee (rec : string) : string :=
  get_dependent_tier rec "add".
Definition get_translation (rec : string) : string :=
  get_dependent_tier rec "eng".
Definition get_comments (rec : string) : string :=
  get_dependent_tier rec "com".

(** *** The main line *)

(** The look-behind holds at one position only: behind an asterisk that
    is the first character. *)
Definition get_record_speaker_label (main_line : string) : res string :=
  match main_line with
  | String "*" (String a (String b (String c _))) =>
      if isalnum a && isalnum b && isalnum c then
        Ok (String a (String b (String c EmptyString)))
      else Raised
  | _ => Raised
  end.

Definition is_terminator (c : ascii) : bool :=
  eq_char "." c || eq_char "!" c || eq_char "?" c.

(** The pattern of [get_utterance_raw], seen from the colon before the
    position of the look-behind. *)
Definition utterance_here (s : string) : option string :=
  match s with
  | String ":" (String d r) =>
      if eq_char tab d then upto_last is_terminator (TurkishCleaner.dot_star r)
      else None
  | _ => None
  end.

Definition get_utterance_raw (main_line : string) : res string :=
  match search utterance_here main_line with
  | Some u => Ok u
  | None => Raised
  end.

(** [\d+_\d+] at the start of a string: both runs of digits are taken
    whole. *)
Definition time_here (s : string) : option string :=
  let k := run isdigit s in
  if k =? 0 then None
  else match slice_from k s with
       | String "_" r =>
           let j := run isdigit r in
           if j =? 0 then None else Some (slice_to (k + 1 + j) s)
       | _ => None
       end.

Definition get_time (main_line : string) : string :=
  match search time_here main_line with
  | None => EmptyString
  | Some t => t
  end.

(** *** Time *)

Definition start_here (s : string) : option string :=
  let k := run isdigit s in
  if k =? 0 then None
  else match slice_from k s with
       | String "_" _ => Some (slice_to k s)
       | _ => None
       end.

Definition end_here (s : string) : option string :=
  match s with
  | String "_" r =>
      let j := run isdigit r in
      if j =? 0 then None else Some (slice_to j r)
  | _ => None
  end.

Definition get_start (rec_time : string) : res string :=
  match rec_time with
  | EmptyString => Ok rec_time
  | _ =>
      match search start_here rec_time with
      | Some g => Ok g
      | None => Raised
      end
  end.

Definition get_end (rec_time : string) : res string :=
  match rec_time with
  | EmptyString => Ok rec_time
  | _ =>
      match search end_here rec_time with
      | Some g => Ok g
      | None => Raised
      end
  end.

(** *** The utterance *)

Definition get_words (utterance : string) : list string :=
  split_on (eq_char " ") utterance.

(** Behind the greedy [\S+] of a shortening: the last closing parenthesis
    of the word that has a character before it; the group in the
    parentheses and the rest of the word. *)
Fixpoint close_split (w : string) : option (string * string) :=
  match w with
  | EmptyString => None
  | String c w' =>
      match close_split w' with
      | Some (g2, g3) => Some (String c g2, g3)
      | None =>
          match w' with
          | String ")" g3 => Some (String c EmptyString, g3)
          | _ => None
          end
      end
  end.

(** The greedy [\S*] before the opening parenthesis: the last opening
    parenthesis behind which the rest of the pattern matches. *)
Fixpoint open_split (w : string) : option (string * string * string) :=
  match w with
  | EmptyString => None
  | String c w' =>
      match open_split w' with
      | Some (g1, g2, g3) => Some (String c g1, g2, g3)
      | None =>
          if eq_char "(" c then
            match close_split w' with
            | Some (g2, g3) => Some (EmptyString, g2, g3)
            | None => None
            end
          else None
      end
  end.

(** The pattern of a shortening at the start of a string: the match is
    the run of characters that are not white space; [keep] tells whether
    the group in the parentheses is kept. *)
Definition shortening_here (keep : bool) (at_start : bool) (s : string)
    : option (string * nat) :=
  let w := slice_to (run nonspace s) s in
  match open_split w with
  | Some (g1, g2, g3) =>
      Some (g1 +:+ (if keep then g2 else EmptyString) +:+ g3,
            String.length w)
  | None => None
  end.

Definition get_shortening_actual (utterance : string) : string :=
  re_sub (shortening_here false) 0 true utterance.

Definition get_shortening_target (utterance : string) : string :=
  re_sub (shortening_here true) 0 true utterance.

(** The patterns of a fragment: an ampersand and the run of characters
    that are not white space behind it. *)
Definition fragment_here (keep : bool) (at_start : bool) (s : string)
    : option (string * nat) :=
  match s with
  | String "&" r =>
      let k := run nonspace r in
      if k =? 0 then None
      else Some (if keep then slice_to k r else "xxx", S k)
  | _ => None
  end.

Definition get_fragment_actual (utterance : string) : string :=
  re_sub (fragment_here true) 0 true utterance.

Definition get_fragment_target (utterance : string) : string :=
  re_sub (fragment_here false) 0 true utterance.

(** The end of a replacement: [mark] (the text between the opening
    bracket and the replacing words), then a lazy [.*?] up to the first
    closing bracket of the line.  Yields the replacing words and the
    length of what is matched. *)
Definition bracket_here (mark : string) (s : string)
    : option (string * nat) :=
  if startswith (" [" +:+ mark) s then
    let r := slice_from (2 + String.length mark) s in
    match find_char (eq_char "]") (TurkishCleaner.dot_star r) with
    | Some q => Some (slice_to q r, 2 + String.length mark + q + 1)
    | None => None
    end
  else None.

(** Several scoped words: an angle bracket, a lazy [.*?], the closing
    angle bracket and the end of the replacement. *)
Definition scoped_here (mark : string) (s : string)
    : option (string * string * nat) :=
  match s with
  | String "<" r =>
      match lazy_until
              (λ t, match t with
                    | String ">" t' => bracket_here mark t'
                    | _ => None
                    end)
              (TurkishCleaner.dot_star r) with
      | Some (g, (words, n)) =>
          Some (g, words, 1 + String.length g + 1 + n)
      | None => None
      end
  | _ => None
  end.

(** One scoped word: the run of characters that are not white space and
    the end of the replacement. *)
Definition word_here (mark : string) (s : string)
    : option (string * string * nat) :=
  let k := run nonspace s in
  if k =? 0 then None
  else match bracket_here mark (slice_from k s) with
       | Some (words, n) => Some (slice_to k s, words, k + n)
       | None => None
       end.

(** The form that keeps the replaced words: two substitutions. *)
Definition keep_replaced (mark : string) (utterance : string) : string :=
  let clean :=
    re_sub (λ _ s, match scoped_here mark s with
                   | Some (g, _, n) => Some (g, n)
                   | None => None
                   end) 0 true utterance in
  re_sub (λ _ s, match word_here mark s with
                 | Some (g, _, n) => Some (g, n)
                 | None => None
                 end) 0 true clean.

(** The form that keeps the replacing words: one substitution whose
    pattern tries the scoped words first. *)
Definition keep_replacing (mark : string) (utterance : string) : string :=
  re_sub (λ _ s, match scoped_here mark s with
                 | Some (_, words, n) => Some (words, n)
                 | None =>
                     match word_here mark s with
                     | Some (_, words, n) => Some (words, n)
                     | None => None
                     end
                 end) 0 true utterance.

Definition get_replacement_actual (utterance : string) : string :=
  keep_replaced ": " utterance.

Definition get_replacement_target (utterance : string) : string :=
  keep_replacing ": " utterance.

Definition get_actual_utterance (utterance : string) : string :=
  get_replacement_actual
    (get_fragment_actual (get_shortening_actual utterance)).

Definition get_target_utterance (utterance : string) : string :=
  get_replacement_target
    (get_fragment_target (get_shortening_target utterance)).

Definition get_utterance (utterance : string) : string :=
  get_actual_utterance utterance.

(** The class of the characters of a terminator. *)
Definition terminator_char (c : ascii) : bool :=
  eq_char "+" c || eq_char "/" c || eq_char "." c || eq_char "!" c
  || eq_char "?" c || eq_char dquote c.

(** The look-ahead behind the terminator: a postcode or the end of the
    string (which [$] also sees before a last line feed). *)
Definition terminator_ahead (s : string) : bool :=
  startswith " [+" s
  || match s with
     | EmptyString => true
     | String c EmptyString => eq_char lf c
     | _ => false
     end.

(** The pattern of [get_sentence_type] at the start of a string: the
    whole run of terminator characters, which has to end with a full
    stop, an exclamation or a question mark. *)
Definition terminator_here (s : string) : option string :=
  let k := run terminator_char s in
  match upto_last is_terminator (slice_to k s) with
  | Some g =>
      if (String.length g =? k) && terminator_ahead (slice_from k s)
      then Some g else None
  | None => None
  end.

Definition mapping (terminator : string) : res string :=
  if String.eqb terminator "." then Ok "declarative"
  else if String.eqb terminator "?" then Ok "question"
  else if String.eqb terminator "!" then Ok "exclamation"
  else if String.eqb terminator "+." then Ok "broken for coding"
  else if String.eqb terminator "+..." then Ok "trail off"
  else if String.eqb terminator "+..?" then Ok "trail off of question"
  else if String.eqb terminator "+!?" then Ok "question with exclamation"
  else if String.eqb terminator "+/." then Ok "interruption"
  else if String.eqb terminator "+/?" then Ok "interruption of a question"
  else if String.eqb terminator "+//." then Ok "self-interruption"
  else if String.eqb terminator "+//?" then Ok "self-interrupted question"
  else if String.eqb terminator (String "+" (String dquote "/."))
       then Ok "quotation follows"
  else if String.eqb terminator (String "+" (String dquote "."))
       then Ok "quotation precedes"
  else Raised.

Definition get_sentence_type (utterance : string) : res string :=
  match search terminator_here utterance with
  | Some g => mapping g
  | None => Raised
  end.

(** *** Morphology *)

Definition get_seg_words (seg_tier : string) : list string :=
  get_words seg_tier.
Definition get_gloss_words (gloss_tier : string) : list string :=
  get_words gloss_tier.
Definition get_pos_words (pos_tier : string) : list string :=
  get_words pos_tier.

End CHATReader.

(** ** [CHATReader.py]: the readers of Inuktitut and Cree *)

Module InuktitutReader.
Import Py Str.

Definition get_actual_alternative (utterance : string) : string :=
  CHATReader.keep_replacing "=? " utterance.

Definition get_target_alternative (utterance : string) : string :=
  CHATReader.keep_replaced "=? " utterance.

Definition get_actual_utterance (utterance : string) : string :=
  get_actual_alternative (CHATReader.get_actual_utterance utterance).

Definition get_target_utterance (utterance : string) : string :=
  get_target_alternative (CHATReader.get_target_utterance utterance).

(** The greedy first group before the bar: the last bar of the line that has a
    caret somewhere behind it; the text before it and the text behind
    it. *)
Fixpoint bar_split (line : string) : option (string * string) :=
  match line with
  | EmptyString => None
  | String c line' =>
      match bar_split line' with
      | Some (g1, r) => Some (String c g1, r)
      | None =>
          if eq_char "|" c && has_char "^" line' then
            Some (EmptyString, line')
          else None
      end
  end.

(** The pattern of [iter_morphemes] at the start of a string: the lazy
    second group ends at the first caret, the greedy third at the end of the
    line. *)
Definition morpheme_here (s : string)
    : option (string * string * string) :=
  match bar_split (TurkishCleaner.dot_star s) with
  | Some (g1, r) =>
      match find_char (eq_char "^") r with
      | Some k => Some (g1, slice_to k r, slice_from (S k) r)
      | None => None
      end
  | None => None
  end.

(** [iter_morphemes], run to its end: [AttributeError] when a morpheme
    does not match. *)
Fixpoint morphemes_of (pieces : list string)
    : res (list (string * string * string)) :=
  match pieces with
  | [] => Ok []
  | morpheme :: pieces' =>
      match search morpheme_here morpheme with
      | Some m => bind (morphemes_of pieces') (λ ms, Ok (m :: ms))
      | None => Raised
      end
  end.

Definition iter_morphemes (word : string)
    : res (list (string * string * string)) :=
  morphemes_of (split_on (eq_char "+") word).

Definition get_segments (seg_word : string) : res (list string) :=
  bind (iter_morphemes seg_word)
    (λ ms, Ok ((λ m : string * string * string, m.1.2) <$> ms)).

Definition get_glosses (gloss_word : string) : res (list string) :=
  bind (iter_morphemes gloss_word)
    (λ ms, Ok ((λ m : string * string * string, m.2) <$> ms)).

Definition get_poses (pos_word : string) : res (list string) :=
  bind (iter_morphemes pos_word)
    (λ ms, Ok ((λ m : string * string * string, m.1.1) <$> ms)).

End InuktitutReader.

Module CreeReader.
Import Py Str.

Definition get_morphemes (word : string) : list string :=
  split_on (eq_char "~") word.

Definition get_segments (seg_word : string) : list string :=
  get_morphemes seg_word.
Definition get_glosses (gloss_word : string) : list string :=
  get_morphemes gloss_word.
Definition get_poses (pos_word : string) : list string :=
  get_morphemes pos_word.

End CreeReader.

(** ** Notions used to state the properties of the readers and cleaners *)

Module Laws.
Import Py Str.

(** A text with every separator of words or stems (a blank, [+] or [_])
    written as a blank. *)
Definition plain (c : ascii) : ascii :=
  if TurkishCleaner.is_blank c || TurkishCleaner.is_join_sep c
  then " "%char else c.

Fixpoint letters (s : string) : string :=
  match s with
  | EmptyString => EmptyString
  | String c s' => String (plain c) (letters s')
  end.

(** The number of occurrences of a character. *)
Fixpoint count_char (a : ascii) (s : string) : nat :=
  match s with
  | EmptyString => 0
  | String c s' => (if eq_char a c then 1 else 0) + count_char a s'
  end.

(** The tokens that one pass of [unify_untranscribed] makes of [n] tokens
    [xxx] in a row: every second one is left. *)
Fixpoint every_other (n : nat) : list string :=
  match n with
  | 0 => []
  | 1 => ["???"]
  | S (S n') => "???" :: "xxx" :: every_other n'
  end.

(** Modelled from the spec: a reader for the parser of the Cree corpus.
    Its words and morphemes are those of [CreeReader] in [CHATReader.py];
    the members the parser asks for that this file does not define (the
    standard form, the main morpheme tier and the languages) are those of
    [Spec.sample_reader]. *)
Definition cree_reader : CHATParser.Reader :=
  {| CHATParser.get_standard_form := "actual";
     CHATParser.get_utterance_words := CHATReader.get_words;
     CHATParser.get_word_language := λ _, EmptyString;
     CHATParser.get_seg_words := CHATReader.get_seg_words;
     CHATParser.get_gloss_words := CHATReader.get_gloss_words;
     CHATParser.get_pos_words := CHATReader.get_pos_words;
     CHATParser.get_main_morpheme := "gloss";
     CHATParser.get_segments := CreeReader.get_segments;
     CHATParser.get_glosses := CreeReader.get_glosses;
     CHATParser.get_poses := CreeReader.get_poses;
     CHATParser.get_morpheme_language := λ _ _ _, EmptyString |}.

End Laws.

(** ** Texts written from their parts

    The lines the readers take apart, put together from the parts they
    are to return. *)

Module Texts.
Import Py Str.

(** A morpheme of the Inuktitut morphology tier: the POS tag, a bar, the
    segment, a caret and the gloss. *)
Definition morpheme_text (m : string * string * string) : string :=
  m.1.1 +:+ "|" +:+ m.1.2 +:+ "^" +:+ m.2.

(** A word of that tier: its morphemes with a plus between them. *)
Definition morpheme_word (ms : list (string * string * string)) : string :=
  join "+" (morpheme_text <$> ms).

(** A morpheme that can be read back: no plus and no line feed in it, no
    bar in its segment and no caret in its segment or gloss. *)
Definition plain_morpheme (m : string * string * string) : bool :=
  negb (has_char "+" (morpheme_text m))
  && negb (has_char lf (morpheme_text m))
  && negb (has_char "|" m.1.2)
  && negb (has_char "^" m.1.2)
  && negb (has_char "^" m.2).

(** A text in which some bar has a caret behind it in its line. *)
Fixpoint bar_then_caret (s : string) : bool :=
  match s with
  | EmptyString => false
  | String c s' =>
      (eq_char "|" c && has_char "^" (TurkishCleaner.dot_star s'))
      || bar_then_caret s'
  end.

(** A name that [re] takes literally: letters, digits and blanks. *)
Definition plain_name (name : string) : bool :=
  all_chars (λ c, isalnum c || eq_char " " c) name.

(** The content of a line that starts with the marker. *)
Definition field_of (marker line : string) : option string :=
  if startswith marker line then
    Some (slice_from (String.length marker) line)
  else None.

(** A line without a line feed that holds the marker at its start or not
    at all. *)
Definition marked_line (marker line : string) : bool :=
  negb (has_char lf line)
  && (startswith marker line || negb (contains marker line)).

(** What follows a line: nothing, or a line feed and the next lines. *)
Definition follows (tail : string) : Prop :=
  tail = EmptyString ∨ ∃ r, tail = String lf r.

(** The last character of the string is a blank. *)
Fixpoint ends_with_blank (s : string) : bool :=
  match s with
  | EmptyString => false
  | String c EmptyString => eq_char " " c
  | String _ s' => ends_with_blank s'
  end.

(** A participant as it stands in the list of the participants: not
    empty, without a comma and without a blank at either end. *)
Definition plain_participant (p : string) : bool :=
  match p with
  | EmptyString => false
  | String c _ => negb (eq_char " " c)
  end
  && negb (has_char "," p) && negb (ends_with_blank p).

(** The four ways in which the comma between two participants is
    written. *)
Definition is_separator (sep : string) : Prop :=
  sep = "," ∨ sep = ", " ∨ sep = " ," ∨ sep = " , ".

(** The last character of a string. *)
Fixpoint last_char (s : string) : option ascii :=
  match s with
  | EmptyString => None
  | String c EmptyString => Some c
  | String _ s' => last_char s'
  end.

(** A morpheme as it stands in a tier: not empty and without white
    space; a hyphen at its start or end ties it to its neighbour. *)
Definition is_token (t : string) : bool :=
  negb (String.eqb t EmptyString) && all_chars nonspace t.

Definition starts_hyphen (t : string) : bool := startswith "-" t.

Definition ends_hyphen (t : string) : bool :=
  match last_char t with
  | Some c => eq_char "-" c
  | None => false
  end.

(** Every morpheme is tied to the next one by a hyphen. *)
Fixpoint tied (w : list string) : bool :=
  match w with
  | t1 :: w' =>
      match w' with
      | t2 :: _ => (ends_hyphen t1 || starts_hyphen t2) && tied w'
      | [] => true
      end
  | [] => true
  end.

(** The morphemes of one word: at least one, tied to each other, with
    no hyphen at the start of the first and at the end of the last. *)
Definition morpheme_tokens (w : list string) : bool :=
  match w with
  | t :: _ => negb (starts_hyphen t)
  | [] => false
  end
  && forallb is_token w && tied w
  && match last w with
     | Some t => negb (ends_hyphen t)
     | None => false
     end.

(** A text put before the first string of a list. *)
Definition cons_first (x : string) (l : list string) : list string :=
  match l with
  | w :: ws => (x +:+ w) :: ws
  | [] => [x]
  end.

(** The floating clitic marker: a hyphen that stands alone. *)
Definition is_clitic (t : string) : bool := String.eqb t "-".

(** No two floating clitic markers stand next to each other. *)
Fixpoint no_double_clitic (w : list string) : bool :=
  match w with
  | t1 :: w' =>
      match w' with
      | t2 :: _ => negb (is_clitic t1 && is_clitic t2) && no_double_clitic w'
      | [] => true
      end
  | [] => true
  end.

(** The morphemes of a word without the floating clitic markers. *)
Fixpoint drop_clitics (w : list string) : list string :=
  match w with
  | t :: w' => if is_clitic t then drop_clitics w' else t :: drop_clitics w'
  | [] => []
  end.

(** A character of a word of an utterance: no white space, no angle
    bracket and no square bracket that open. *)
Definition word_char (c : ascii) : bool :=
  nonspace c && negb (eq_char "<" c) && negb (eq_char "[" c).

(** A word of an utterance with the words that replace it, if there are
    any: the word, and the replacing words in brackets behind it. *)
Definition item_text (it : string * option string) : string :=
  match it.2 with
  | Some t => it.1 +:+ " [: " +:+ t +:+ "]"
  | None => it.1
  end.

Definition item_target (it : string * option string) : string :=
  match it.2 with
  | Some t => t
  | None => it.1
  end.

Definition plain_item (it : string * option string) : bool :=
  negb (String.eqb it.1 EmptyString) && all_chars word_char it.1
  && match it.2 with
     | Some t =>
         negb (has_char "]" t) && negb (has_char lf t)
         && negb (has_char "<" t)
     | None => true
     end.

(** What follows a word: nothing, or a blank and a character that is not
    an opening square bracket. *)
Definition clear_tail (tail : string) : Prop :=
  tail = EmptyString
  ∨ ∃ d y, tail = String " " (String d y) ∧ eq_char "[" d = false.

End Texts.

(** * Proofs *)

(** ** The primitives *)

Module PyFacts.
Import Py.

Lemma app_empty (s : string) : EmptyString +:+ s = s.
Proof. done. Qed.

Lemma app_String c (a b : string) : String c a +:+ b = String c (a +:+ b).
Proof. done. Qed.

Lemma app_assoc' (a b c : string) : (a +:+ b) +:+ c = a +:+ (b +:+ c).
Proof.
  induction a as [|x a IH]; [done|]. by rewrite !app_String, IH.
Qed.

(** *** Lists in the form [pre ++ x :: post] *)

Lemma index_middle {A} (pre post : list A) x i :
  i = length pre → index (pre ++ x :: post) i = Ok x.
Proof. intros ->. unfold index. by rewrite list_lookup_middle. Qed.

Lemma del_middle {A} (pre post : list A) x i :
  i = length pre → del (pre ++ x :: post) i = Ok (pre ++ post).
Proof.
  intros ->. unfold del. by rewrite list_lookup_middle, delete_middle.
Qed.

Lemma assign_middle {A} (pre post : list A) x y i :
  i = length pre → assign (pre ++ x :: post) i y = Ok (pre ++ y :: post).
Proof.
  intros ->. unfold assign. rewrite list_lookup_middle by done.
  by rewrite insert_app_r_alt, Nat.sub_diag by done.
Qed.

Lemma index_next {A} (pre post : list A) w x i :
  i = length pre + 1 → index (pre ++ w :: x :: post) i = Ok x.
Proof.
  intros ->. rewrite (cons_middle w pre), app_assoc.
  apply index_middle. rewrite length_app. cbn. lia.
Qed.

Lemma del_next {A} (pre post : list A) w x i :
  i = length pre + 1 →
  del (pre ++ w :: x :: post) i = Ok (pre ++ w :: post).
Proof.
  intros ->. rewrite (cons_middle w pre), app_assoc.
  rewrite (del_middle (pre ++ [w]) post x (length pre + 1)).
  - by rewrite <- app_assoc.
  - rewrite length_app. cbn. lia.
Qed.

Lemma insert_at_middle {A} (pre post : list A) x i :
  i = length pre → insert_at (pre ++ post) i x = pre ++ x :: post.
Proof.
  intros ->. unfold insert_at. by rewrite take_app_length, drop_app_length.
Qed.

(** *** [while] *)

Lemma while_mono {S} (cond : S → bool) body fuel fuel' (s r : S) :
  while fuel cond body s = Ok r → fuel ≤ fuel' →
  while fuel' cond body s = Ok r.
Proof.
  revert fuel' s. induction fuel as [|fuel IH]; intros fuel' s H Hle.
  - cbn in H. destruct (cond s) eqn:E; [done|].
    destruct fuel'; cbn; by rewrite E.
  - destruct fuel' as [|fuel']; [lia|]. cbn in *.
    destruct (cond s); [|done].
    destruct (body s) as [s'| |]; cbn in *; try done.
    apply IH; [done|lia].
Qed.

(** *** Characters and substrings *)

Lemma has_char_app c (a b : string) :
  has_char c (a +:+ b) = has_char c a || has_char c b.
Proof.
  induction a as [|x a IH]; [done|]. rewrite app_String. cbn.
  by destruct (Ascii.eqb c x).
Qed.

Lemma startswith_empty s : startswith EmptyString s = true.
Proof. by destruct s. Qed.

Lemma startswith_trans p q s :
  startswith p q = true → startswith q s = true → startswith p s = true.
Proof.
  revert q s. induction p as [|a p IH]; intros q s; [by rewrite startswith_empty|].
  destruct q as [|b q]; [done|]. destruct s as [|c s]; [done|]. cbn.
  destruct (Ascii.eqb a b) eqn:Eab; [|done].
  destruct (Ascii.eqb b c) eqn:Ebc; [|done].
  apply Ascii.eqb_eq in Eab as ->. rewrite Ebc. apply IH.
Qed.

Lemma contains_unfold p s :
  contains p s
  = startswith p s
    || match s with EmptyString => false | String _ s' => contains p s' end.
Proof. destruct s; cbn; by destruct (startswith p _). Qed.

Lemma contains_prefix p q s :
  startswith p q = true → contains q s = true → contains p s = true.
Proof.
  intros Hpq.
  induction s as [|c s IH];
    rewrite (contains_unfold p), (contains_unfold q).
  - rewrite !orb_false_r. by apply startswith_trans.
  - intros [H|H]%orb_true_iff; apply orb_true_iff.
    + left. by eapply startswith_trans.
    + right. by apply IH.
Qed.

(** [s[:2]] of a word is a prefix of [s[:2]] of the word continued. *)
Lemma startswith_slice_to_app n (a b : string) :
  startswith (slice_to n a) (slice_to n (a +:+ b)) = true.
Proof.
  revert a. induction n as [|n IH]; intros a; [done|].
  destruct a as [|c a]; [apply startswith_empty|].
  rewrite app_String. cbn. by rewrite Ascii.eqb_refl.
Qed.

(** *** [split] and [join] *)

Lemma split_on_nonempty sep s : split_on sep s ≠ [].
Proof.
  destruct s as [|c s]; cbn; [done|].
  destruct (sep c); [done|]. by destruct (split_on sep s).
Qed.

Lemma join_cons sep x y ys :
  join sep (x :: y :: ys) = x +:+ sep +:+ join sep (y :: ys).
Proof. done. Qed.

Lemma join_String sep c x xs :
  join sep (String c x :: xs) = String c (join sep (x :: xs)).
Proof. by destruct xs. Qed.

Lemma is_blank_spec c : TurkishCleaner.is_blank c = true ↔ c = " "%char.
Proof. apply Ascii.eqb_eq. Qed.

Lemma join_split s :
  join " " (split_on TurkishCleaner.is_blank s) = s.
Proof.
  induction s as [|c s IH]; [done|]. cbn [split_on].
  destruct (TurkishCleaner.is_blank c) eqn:E.
  - apply is_blank_spec in E as ->.
    destruct (split_on _ s) as [|w ws] eqn:Es; [by apply split_on_nonempty in Es|].
    by rewrite join_cons, IH.
  - destruct (split_on _ s) as [|w ws] eqn:Es; [by apply split_on_nonempty in Es|].
    by rewrite join_String, IH.
Qed.

Lemma no_char_String sep c s :
  no_char sep (String c s) ↔ sep c = false ∧ no_char sep s.
Proof.
  unfold no_char. cbn. apply (Forall_cons (λ c, sep c = false)).
Qed.

Lemma no_char_empty sep : no_char sep EmptyString.
Proof. constructor. Qed.

Lemma no_char_app sep (a b : string) :
  no_char sep (a +:+ b) ↔ no_char sep a ∧ no_char sep b.
Proof.
  induction a as [|c a IH]; [unfold no_char at 2; cbn; rewrite Forall_nil; tauto|].
  rewrite app_String, !no_char_String, IH. tauto.
Qed.

Lemma split_on_no_char sep s : no_char sep s → split_on sep s = [s].
Proof.
  induction s as [|c s IH]; [done|].
  intros [Hc Hs]%no_char_String. cbn. by rewrite Hc, IH.
Qed.

Lemma split_on_app sep (a b : string) c :
  no_char sep a → sep c = true →
  split_on sep (a +:+ String c b) = a :: split_on sep b.
Proof.
  intros Ha Hc. induction a as [|x a IH].
  - rewrite app_empty. cbn. by rewrite Hc.
  - apply no_char_String in Ha as [Hx Ha]. rewrite app_String. cbn.
    by rewrite Hx, IH.
Qed.

Lemma split_on_pieces sep s : Forall (no_char sep) (split_on sep s).
Proof.
  induction s as [|c s IH]; cbn.
  - by repeat constructor.
  - destruct (sep c) eqn:E.
    + constructor; [by constructor|done].
    + destruct (split_on sep s) as [|w ws]; [repeat constructor; done|].
      inversion IH; subst. constructor; [|done].
      by apply no_char_String.
Qed.

(** Joining pieces without blank and splitting again returns the pieces. *)
Lemma split_join ws :
  ws ≠ [] → Forall (no_char TurkishCleaner.is_blank) ws →
  split_on TurkishCleaner.is_blank (join " " ws) = ws.
Proof.
  induction ws as [|w ws IH]; [done|]. intros _ Hall.
  inversion Hall as [|? ? Hw Hws]; subst.
  destruct ws as [|w' ws]; [by apply split_on_no_char|].
  rewrite join_cons. change (" " +:+ ?x) with (String " " x).
  rewrite split_on_app by done. f_equal. by apply IH.
Qed.

Lemma no_char_has_char c s :
  has_char c s = false ↔ no_char (Ascii.eqb c) s.
Proof.
  induction s as [|x s IH]; [unfold no_char; cbn; by rewrite Forall_nil|].
  rewrite no_char_String. cbn. destruct (Ascii.eqb c x); [|tauto].
  split; [done|]. by intros [? _].
Qed.

End PyFacts.


(** ** [struct_eqv] *)

Module ToolboxFacts.
Import Py Toolbox Spec.

Lemma pyobj_nested_ind (P : pyobj → Prop) :
  (∀ s, P (PStr s)) → P PNone →
  (∀ xs, Forall P xs → P (PList xs)) →
  ∀ x, P x.
Proof.
  intros Hs Hn Hl. fix IH 1. intros [s| |xs]; [apply Hs|apply Hn|].
  apply Hl. induction xs as [|x xs IHxs]; constructor; [apply IH|apply IHxs].
Qed.

Lemma struct_eqv_unfold xs ys :
  struct_eqv xs ys
  = (length xs =? length ys) && forallb (λ p, pair_ok p.1 p.2) (zip xs ys).
Proof.
  unfold struct_eqv. cbn [struct_eqv_obj].
  destruct (length xs =? length ys); [|done]. cbn [andb].
  revert ys. induction xs as [|x xs IH]; intros [|y ys]; try done.
  cbn [zip forallb fst snd]. rewrite <- IH. unfold pair_ok.
  destruct (is_list x), (is_list y); cbn; try done;
    destruct (struct_eqv_obj x y); done.
Qed.

Lemma struct_eqv_obj_list xs ys :
  struct_eqv_obj (PList xs) (PList ys) = struct_eqv xs ys.
Proof. done. Qed.

Lemma same_structure_is_list x y :
  same_structure x y → is_list x = is_list y.
Proof. destruct 1; [congruence|done]. Qed.

Lemma pair_ok_spec x y : pair_ok x y = true ↔ same_structure x y.
Proof.
  revert y. induction x as [s| |xs IH] using pyobj_nested_ind; intros y.
  1,2: destruct y; unfold pair_ok; cbn [is_list orb andb]; split; try done;
       first [ by intros _; constructor
             | by intros H; apply same_structure_is_list in H ].
  destruct y as [s| |ys]; unfold pair_ok; cbn [is_list orb andb].
  1,2: split; [done|by intros H; apply same_structure_is_list in H].
  rewrite struct_eqv_obj_list, struct_eqv_unfold. split.
  - intros [Hlen Hall]%andb_true_iff. apply Nat.eqb_eq in Hlen.
    apply same_lists. revert ys Hlen Hall.
    induction IH as [|x xs Hx _ IHxs]; intros [|y ys] Hlen Hall;
      try discriminate; [by constructor|].
    cbn [zip forallb fst snd] in Hall.
    apply andb_true_iff in Hall as [H1 H2]. constructor.
    + by apply Hx.
    + apply IHxs; [by injection Hlen|done].
  - intros H. inversion H as [? ? Hl|? ? Hall]; [done|]. subst.
    apply andb_true_iff. split.
    { apply Nat.eqb_eq. by eapply Forall2_length. }
    clear H. revert ys Hall.
    induction IH as [|x xs Hx _ IHxs]; intros ys Hall;
      inversion Hall; subst; [done|].
    cbn [zip forallb fst snd].
    apply andb_true_iff. split; [by apply Hx|by apply IHxs].
Qed.

Lemma struct_eqv_spec xs ys :
  struct_eqv xs ys = true ↔ Forall2 same_structure xs ys.
Proof.
  rewrite <- struct_eqv_obj_list.
  assert (pair_ok (PList xs) (PList ys) = struct_eqv_obj (PList xs) (PList ys))
    as <- by done.
  rewrite pair_ok_spec. split; [|by apply same_lists].
  by inversion 1.
Qed.

Lemma is_list_atom_obj a : is_list (atom_obj a) = false.
Proof. by destruct a. Qed.

Lemma same_structure_words (w v : list atom) :
  same_structure (word_obj w) (word_obj v) ↔ length w = length v.
Proof.
  unfold word_obj. split.
  - inversion 1 as [|? ? Hall]; [done|]. subst.
    apply Forall2_length in Hall. by rewrite !length_fmap in Hall.
  - intros Hlen. apply same_lists. revert v Hlen.
    induction w as [|a w IH]; intros [|b v] Hlen; try done; constructor.
    + apply same_atoms; apply is_list_atom_obj.
    + apply IH. by injection Hlen.
Qed.

Lemma struct_eqv_tiers (a b : tier) :
  struct_eqv (tier_obj a) (tier_obj b) = true
  ↔ length <$> a = length <$> b.
Proof.
  rewrite struct_eqv_spec. unfold tier_obj. revert b.
  induction a as [|w a IH]; intros [|v b]; cbn; split; try done;
    try by inversion 1.
  - inversion 1; subst. f_equal; [by apply same_structure_words|by apply IH].
  - intros [= Hw Hab]. constructor;
      [by apply same_structure_words|by apply IH].
Qed.

Lemma pair_ok_relabel f g x y :
  pair_ok (relabel f x) (relabel g y) = pair_ok x y.
Proof.
  revert y. induction x as [s| |xs IH] using pyobj_nested_ind; intros y.
  1,2: destruct y; unfold pair_ok; cbn [relabel];
       rewrite ?is_list_atom_obj; done.
  destruct y as [s| |ys]; unfold pair_ok; cbn [relabel];
    rewrite ?is_list_atom_obj; cbn [is_list orb andb]; try done.
  rewrite !struct_eqv_obj_list, !struct_eqv_unfold, !length_map.
  f_equal. revert ys.
  induction IH as [|x xs Hx _ IHxs]; intros [|y ys]; try done.
  cbn [map zip forallb fst snd]. by rewrite Hx, IHxs.
Qed.

Lemma struct_eqv_relabel f g xs ys :
  struct_eqv (relabel f <$> xs) (relabel g <$> ys) = struct_eqv xs ys.
Proof.
  pose proof (pair_ok_relabel f g (PList xs) (PList ys)) as H.
  unfold pair_ok in H. cbn [relabel is_list orb andb] in H.
  by rewrite !struct_eqv_obj_list in H.
Qed.

(** C4. [struct_eqv] holds exactly of two nested lists that have the same
    length and, position by position and at every depth, the same nested
    structure; on tokenized tiers this is the equality of the word count
    and of the morpheme count of every word.  Lists of different length
    are told apart by the result [false] (the function has no other
    outcome), and what stands at the positions that are not lists does not
    enter the result. *)
Theorem struct_eqv_compatible :
  (∀ xs ys, struct_eqv xs ys = true ↔ Forall2 same_structure xs ys)
  ∧ (∀ a b : tier,
       struct_eqv (tier_obj a) (tier_obj b) = true
       ↔ length a = length b
         ∧ ∀ i, length <$> (a !! i) = length <$> (b !! i))
  ∧ (∀ xs ys, struct_eqv xs ys = true → length xs = length ys)
  ∧ (∀ f g xs ys,
       struct_eqv (relabel f <$> xs) (relabel g <$> ys) = struct_eqv xs ys).
Proof.
  split_and!.
  - apply struct_eqv_spec.
  - intros a b. rewrite struct_eqv_tiers. split.
    + intros H. split.
      * by rewrite <- (length_fmap length a), H, length_fmap.
      * intros i.
        by rewrite <- (list_lookup_fmap length a i),
                   <- (list_lookup_fmap length b i), H.
    + intros [Hlen H]. apply list_eq. intros i.
      by rewrite !list_lookup_fmap.
  - intros xs ys H. rewrite struct_eqv_unfold in H.
    apply andb_true_iff in H as [H _]. by apply Nat.eqb_eq.
  - apply struct_eqv_relabel.
Qed.

(** *** The tail of [get_morphemes] and of [make_rec] *)

Lemma checked_tier_cases sid glosses t :
  (struct_eqv (tier_obj t) (tier_obj glosses) = true
   ∧ checked_tier sid glosses t = Py.Ok t)
  ∨ (struct_eqv (tier_obj t) (tier_obj glosses) = false
     ∧ checked_tier sid glosses t
       = match sid with
         | Some _ => Py.Ok (replicate (length glosses) [])
         | None => Py.Raised
         end).
Proof.
  unfold checked_tier.
  destruct (struct_eqv (tier_obj t) (tier_obj glosses)); [by left|by right].
Qed.

Lemma checked_tier_shape sid glosses t tr :
  checked_tier sid glosses t = Py.Ok tr →
  length <$> tr = length <$> glosses
  ∨ tr = replicate (length glosses) [].
Proof.
  destruct (checked_tier_cases sid glosses t) as [[E ->]|[E ->]].
  - intros [= <-]. left. by apply struct_eqv_tiers.
  - destruct sid; [|done]. intros [= <-]. by right.
Qed.

Lemma checked_tier_length sid glosses t tr :
  checked_tier sid glosses t = Py.Ok tr → length tr = length glosses.
Proof.
  intros [H|H]%checked_tier_shape.
  - by rewrite <- (length_fmap length), H, length_fmap.
  - by rewrite H, length_replicate.
Qed.

Lemma checked_tier_glosses sid glosses :
  checked_tier sid glosses glosses = Py.Ok glosses.
Proof.
  unfold checked_tier.
  assert (struct_eqv (tier_obj glosses) (tier_obj glosses) = true) as ->;
    [|done].
  by apply struct_eqv_tiers.
Qed.

Lemma checked_tier_lookup sid glosses t tr i w g :
  checked_tier sid glosses t = Py.Ok tr →
  tr !! i = Some w → glosses !! i = Some g →
  length w = length g ∨ w = [].
Proof.
  intros [H|H]%checked_tier_shape Hw Hg.
  - left. assert ((length <$> tr) !! i = (length <$> glosses) !! i) as Hi
      by by rewrite H.
    rewrite !list_lookup_fmap, Hw, Hg in Hi. by injection Hi.
  - right. rewrite H in Hw. by apply lookup_replicate in Hw as [-> _].
Qed.

(** With a source id every tier passes or is replaced; without one a
    tier that fails the test raises. *)
Lemma checked_tier_present s glosses t :
  ∃ tr, checked_tier (Some s) glosses t = Py.Ok tr.
Proof.
  destruct (checked_tier_cases (Some s) glosses t) as [[_ ->]|[_ ->]]; eauto.
Qed.

Lemma checked_tier_absent glosses t :
  struct_eqv (tier_obj t) (tier_obj glosses) = false →
  checked_tier None glosses t = Py.Raised.
Proof. unfold checked_tier. by intros ->. Qed.

Lemma zip4_length {A} (a b c d : list A) :
  length a = length b → length a = length c → length a = length d →
  length (zip4 a b c d) = length a.
Proof.
  revert b c d. induction a as [|x a IH]; intros [|y b] [|z c] [|u d];
    cbn; try done.
  intros [=] [=] [=]. f_equal. by apply IH.
Qed.

Lemma zip4_lookup {A} (a b c d : list A) i x y z u :
  zip4 a b c d !! i = Some (x, y, z, u) →
  a !! i = Some x ∧ b !! i = Some y ∧ c !! i = Some z ∧ d !! i = Some u.
Proof.
  revert b c d i. induction a as [|x' a IH]; intros [|y' b] [|z' c] [|u' d] i;
    cbn; try done.
  destruct i as [|i]; cbn; [by intros [= -> -> -> ->]|]. apply IH.
Qed.

Lemma fill_none_length n (xs : list atom) :
  length xs ≤ n → length (fill_none n xs) = n.
Proof.
  intros H. unfold fill_none. rewrite length_app, length_replicate. lia.
Qed.

Lemma zip_longest_length (a b c d : list atom) :
  length (zip_longest a b c d)
  = Nat.max (Nat.max (length a) (length b)) (Nat.max (length c) (length d)).
Proof.
  unfold zip_longest. rewrite zip4_length; rewrite !fill_none_length; lia.
Qed.

Lemma get_morphemes_tail_inv ty ws sid morphemes glosses poses langs result :
  get_morphemes_tail ty ws sid morphemes glosses poses langs = Py.Ok result →
  ∃ t0 t2 t3,
    checked_tier sid glosses morphemes = Py.Ok t0
    ∧ checked_tier sid glosses poses = Py.Ok t2
    ∧ checked_tier sid glosses langs = Py.Ok t3
    ∧ result
      = (λ mw : list atom * list atom * list atom * list atom,
           let '(mw0, mw1, mw2, mw3) := mw in
           make_dict ty ws <$> zip_longest mw0 mw1 mw2 mw3)
          <$> zip4 t0 glosses t2 t3.
Proof.
  unfold get_morphemes_tail. rewrite checked_tier_glosses.
  destruct (checked_tier sid glosses morphemes) as [t0| |]; [|done..].
  cbn [Py.bind].
  destruct (checked_tier sid glosses poses) as [t2| |]; [|done..].
  cbn [Py.bind].
  destruct (checked_tier sid glosses langs) as [t3| |]; [|done..].
  cbn [Py.bind]. intros [= <-]. by exists t0, t2, t3.
Qed.

Lemma get_morphemes_tail_length ty ws sid morphemes glosses poses langs
    result :
  get_morphemes_tail ty ws sid morphemes glosses poses langs = Py.Ok result →
  length result = length glosses.
Proof.
  intros (t0 & t2 & t3 & H0 & H2 & H3 & ->)%get_morphemes_tail_inv.
  apply checked_tier_length in H0, H2, H3.
  rewrite length_fmap, zip4_length; congruence.
Qed.

Lemma get_morphemes_tail_lookup ty ws sid morphemes glosses poses langs
    result i l :
  get_morphemes_tail ty ws sid morphemes glosses poses langs = Py.Ok result →
  result !! i = Some l →
  ∃ g, glosses !! i = Some g ∧ length l = length g.
Proof.
  intros (t0 & t2 & t3 & C0 & C2 & C3 & ->)%get_morphemes_tail_inv.
  rewrite list_lookup_fmap.
  destruct (zip4 _ _ _ _ !! i) as [[[[w0 w1] w2] w3]|] eqn:E; [|done].
  intros [= <-]. apply zip4_lookup in E as (H0 & H1 & H2 & H3).
  exists w1. split; [done|].
  rewrite length_fmap, zip_longest_length.
  destruct (checked_tier_lookup _ _ _ _ _ _ _ C0 H0 H1) as [->| ->],
           (checked_tier_lookup _ _ _ _ _ _ _ C2 H2 H1) as [->| ->],
           (checked_tier_lookup _ _ _ _ _ _ _ C3 H3 H1) as [->| ->];
    cbn; lia.
Qed.

(** With a source id the tail of [get_morphemes] returns; without one it
    raises as soon as a tier fails the test against the glosses. *)
Lemma get_morphemes_tail_present ty ws s morphemes glosses poses langs :
  ∃ result,
    get_morphemes_tail ty ws (Some s) morphemes glosses poses langs
    = Py.Ok result.
Proof.
  unfold get_morphemes_tail. rewrite checked_tier_glosses.
  destruct (checked_tier_present s glosses morphemes) as [t0 ->].
  destruct (checked_tier_present s glosses poses) as [t2 ->].
  destruct (checked_tier_present s glosses langs) as [t3 ->].
  cbn [Py.bind]. eauto.
Qed.

Lemma get_morphemes_tail_absent ty ws morphemes glosses poses langs :
  struct_eqv (tier_obj morphemes) (tier_obj glosses) = false
  ∨ struct_eqv (tier_obj poses) (tier_obj glosses) = false
  ∨ struct_eqv (tier_obj langs) (tier_obj glosses) = false →
  get_morphemes_tail ty ws None morphemes glosses poses langs = Py.Raised.
Proof.
  intros H. unfold get_morphemes_tail. rewrite checked_tier_glosses.
  destruct (checked_tier_cases None glosses morphemes) as [[E0 ->]|[E0 ->]];
    [|done]. cbn [Py.bind].
  destruct (checked_tier_cases None glosses poses) as [[E2 ->]|[E2 ->]];
    [|done]. cbn [Py.bind].
  destruct (checked_tier_cases None glosses langs) as [[E3 ->]|[E3 ->]];
    [|done].
  destruct H as [H|[H|H]]; congruence.
Qed.

Lemma set_word_languages_length words morphemes :
  length (set_word_languages words morphemes) = length words.
Proof.
  revert morphemes. induction words as [|w words IH];
    intros [|[|m ms] morphemes]; cbn; try done. by rewrite IH.
Qed.

Lemma make_rec_tail_words_length words morphemes :
  length (make_rec_tail words morphemes).1
  = Nat.max (length words) (length morphemes).
Proof.
  unfold make_rec_tail, pad_words. cbn [fst].
  rewrite set_word_languages_length.
  destruct (0 <? _) eqn:E.
  - apply Nat.ltb_lt in E.
    rewrite length_app, length_replicate, set_word_languages_length. lia.
  - apply Nat.ltb_ge in E. rewrite set_word_languages_length. lia.
Qed.

End ToolboxFacts.

(** ** [single_morph_word] and [separate_morph_word] *)

Module TurkishFacts.
Import Py PyFacts TurkishCleaner Spec.

Lemma merged_nil_l mwords : merged [] mwords = [].
Proof. by destruct mwords. Qed.

(** One turn of the loop of [single_morph_word], the lists cut at the
    current position. *)
Lemma smw_body_zipper mpre m msuf pre w suf :
  length pre = length mpre →
  ∃ w' rest,
    smw_body (mpre ++ m :: msuf)
      (SmwState (length pre) (pre ++ w :: suf) (length (pre ++ w :: suf)))
    = Ok (SmwState (length pre + 1) (pre ++ w' :: rest)
            (length (pre ++ w' :: rest)))
    ∧ ∀ msuf', merged (w :: suf) (m :: msuf') = w' :: merged rest msuf'.
Proof.
  intros Hlen. unfold smw_body. cbn [smw_i smw_wwords smw_wwords_count].
  rewrite (index_middle mpre _ _ (length pre)),
          (index_middle pre _ _ (length pre)) by done.
  cbn [mbind res_bind bind]. fold (joined m).
  assert (joined m && (negb (has_char "_" w) && negb (has_char "+" w))
          && contains (slice_to 2 w) m
          && match suf with
             | next_word :: _ => contains (slice_to 2 next_word) m
             | [] => false
             end = false →
    ∃ w' rest,
      Ok (SmwState (length pre + 1) (pre ++ w :: suf)
            (length (pre ++ w :: suf)))
      = Ok (SmwState (length pre + 1) (pre ++ w' :: rest)
            (length (pre ++ w' :: rest)))
      ∧ ∀ msuf', merged (w :: suf) (m :: msuf') = w' :: merged rest msuf')
    as Hkeep.
  { intros Hc. exists w, suf. split; [done|]. intros msuf'.
    cbn [merged]. destruct suf as [|nw suf]; [by rewrite merged_nil_l|].
    unfold joined at 2. by rewrite negb_orb, Hc. }
  destruct (joined m) eqn:Em; cbn [andb] in *; [|by apply Hkeep].
  destruct (negb (has_char "_" w) && negb (has_char "+" w)) eqn:Ew;
    cbn [andb] in *; [|by apply Hkeep].
  destruct (contains (slice_to 2 w) m) eqn:Ec;
    cbn [andb] in *; [|by apply Hkeep].
  destruct suf as [|nw suf].
  { assert ((length pre + 1 <? length (pre ++ [w])) = false) as ->.
    { apply Nat.ltb_ge. rewrite length_app. cbn. lia. }
    by apply Hkeep. }
  assert ((length pre + 1 <? length (pre ++ w :: nw :: suf)) = true) as ->.
  { apply Nat.ltb_lt. rewrite length_app. cbn. lia. }
  rewrite (index_next pre) by done.
  cbn [mbind res_bind bind].
  destruct (contains (slice_to 2 nw) m) eqn:En; [|by apply Hkeep].
  rewrite (del_next pre) by done.
  cbn [mbind res_bind bind].
  rewrite (index_middle pre _ _ (length pre)) by done.
  cbn [mbind res_bind bind]. rewrite (assign_middle pre) by done.
  cbn [mbind res_bind bind].
  exists (w +:+ "_" +:+ nw), suf. split.
  - do 2 f_equal. rewrite !length_app. cbn. lia.
  - intros msuf'. cbn [merged]. rewrite Em, En, Ec. unfold joined.
    by rewrite negb_orb, Ew.
Qed.

(** The loop of [single_morph_word] computes [merged]. *)
Lemma smw_loop_merged msuf :
  ∀ mpre pre suf fuel,
    length pre = length mpre → length msuf ≤ fuel →
    ∃ i',
      while fuel (smw_cond (length (mpre ++ msuf)))
        (smw_body (mpre ++ msuf))
        (SmwState (length pre) (pre ++ suf) (length (pre ++ suf)))
      = Ok (SmwState i' (pre ++ merged suf msuf)
              (length (pre ++ merged suf msuf))).
Proof.
  induction msuf as [|m msuf IH]; intros mpre pre suf fuel Hlen Hfuel.
  { exists (length pre). cbn [merged].
    assert (smw_cond (length (mpre ++ []))
              (SmwState (length pre) (pre ++ suf) (length (pre ++ suf)))
            = false) as Hc.
    { unfold smw_cond. cbn [smw_i smw_wwords_count].
      rewrite app_nil_r, Hlen, Nat.ltb_irrefl. apply andb_false_r. }
    destruct fuel; cbn [while]; by rewrite Hc. }
  destruct suf as [|w suf].
  { exists (length pre). rewrite merged_nil_l.
    assert (smw_cond (length (mpre ++ m :: msuf))
              (SmwState (length pre) (pre ++ []) (length (pre ++ [])))
            = false) as Hc.
    { unfold smw_cond. cbn [smw_i smw_wwords_count].
      by rewrite app_nil_r, Nat.ltb_irrefl. }
    destruct fuel; cbn [while]; by rewrite Hc. }
  destruct fuel as [|fuel]; [cbn in Hfuel; lia|]. cbn [while].
  assert (smw_cond (length (mpre ++ m :: msuf))
            (SmwState (length pre) (pre ++ w :: suf)
               (length (pre ++ w :: suf))) = true) as ->.
  { unfold smw_cond. cbn [smw_i smw_wwords_count].
    apply andb_true_iff. split; apply Nat.ltb_lt;
      rewrite length_app; cbn; lia. }
  destruct (smw_body_zipper mpre m msuf pre w suf Hlen)
    as (w' & rest & -> & Hm).
  cbn [bind]. rewrite Hm.
  destruct (IH (mpre ++ [m]) (pre ++ [w']) rest fuel) as [i' Hi'].
  { rewrite !length_app. cbn. lia. }
  { cbn in Hfuel. lia. }
  exists i'. rewrite <- !app_assoc in Hi'. cbn [app] in Hi'.
  replace (length (pre ++ [w'])) with (length pre + 1) in Hi'
    by by rewrite length_app.
  exact Hi'.
Qed.

Lemma single_morph_word_fuel_spec fuel utterance morph_tier :
  length (split_on is_blank morph_tier) ≤ fuel →
  single_morph_word_fuel fuel utterance morph_tier
  = Ok (join " " (merged (split_on is_blank utterance)
                    (split_on is_blank morph_tier)),
        morph_tier).
Proof.
  intros Hfuel. unfold single_morph_word_fuel.
  destruct (smw_loop_merged (split_on is_blank morph_tier) [] []
              (split_on is_blank utterance) fuel eq_refl Hfuel) as [i' Hi'].
  cbn [app length] in Hi'. by rewrite Hi'.
Qed.

Lemma single_morph_word_spec utterance morph_tier :
  single_morph_word utterance morph_tier
  = Ok (join " " (merged (split_on is_blank utterance)
                    (split_on is_blank morph_tier)),
        morph_tier).
Proof. by apply single_morph_word_fuel_spec. Qed.

(** *** Properties of [merged] *)

Lemma merged_nonempty wwords mwords : wwords ≠ [] → merged wwords mwords ≠ [].
Proof.
  revert wwords. induction mwords as [|m mwords IH]; intros wwords Hw; [done|].
  destruct wwords as [|w [|nw wwords]]; cbn; try done.
  by destruct (_ && _).
Qed.

Lemma no_blank_joined (a b : string) :
  no_char is_blank a → no_char is_blank b →
  no_char is_blank (a +:+ "_" +:+ b).
Proof.
  intros Ha Hb. apply no_char_app. split; [done|].
  change ("_" +:+ b) with (String "_" b). by apply no_char_String.
Qed.

Lemma merged_no_blank wwords mwords :
  Forall (no_char is_blank) wwords →
  Forall (no_char is_blank) (merged wwords mwords).
Proof.
  revert wwords. induction mwords as [|m mwords IH]; intros wwords Hw; [done|].
  destruct wwords as [|w [|nw wwords]]; cbn [merged]; try done.
  inversion Hw as [|? ? Hw1 Hw']; subst.
  inversion Hw' as [|? ? Hw2 Hw'']; subst.
  destruct (_ && _).
  - constructor; [by apply no_blank_joined|by apply IH].
  - constructor; [done|by apply IH].
Qed.

Lemma joined_join_underscore (a b : string) : joined (a +:+ "_" +:+ b) = true.
Proof.
  unfold joined. rewrite has_char_app.
  change ("_" +:+ b) with (String "_" b). cbn.
  by rewrite orb_true_r.
Qed.

(** The first word of what a later turn leaves looks into the
    morphological word as the word did before. *)
Lemma merged_head_contains w wwords mwords m :
  contains (slice_to 2 w) m = false →
  match merged (w :: wwords) mwords with
  | r :: _ => contains (slice_to 2 r) m = false
  | [] => True
  end.
Proof.
  intros Hw. destruct mwords as [|m' mwords]; [done|].
  destruct wwords as [|nw wwords]; cbn [merged]; [done|].
  destruct (_ && _); [|done].
  destruct (contains (slice_to 2 (w +:+ "_" +:+ nw)) m) eqn:E; [|done].
  rewrite <- Hw. symmetry.
  eapply contains_prefix; [|exact E]. apply startswith_slice_to_app.
Qed.

Lemma merged_idempotent mwords :
  ∀ wwords, merged (merged wwords mwords) mwords = merged wwords mwords.
Proof.
  induction mwords as [|m mwords IH]; intros wwords; [done|].
  destruct wwords as [|w [|nw wwords]]; try done.
  cbn [merged].
  destruct (joined m && negb (joined w) && contains (slice_to 2 w) m
            && contains (slice_to 2 nw) m) eqn:E.
  - destruct (merged wwords mwords) as [|r rs] eqn:Er; [done|].
    cbn [merged]. rewrite joined_join_underscore.
    cbn [negb andb]. rewrite andb_false_r. cbn [andb].
    by rewrite <- Er, IH.
  - pose proof (merged_nonempty (nw :: wwords) mwords) as Hne.
    destruct (merged (nw :: wwords) mwords) as [|r rs] eqn:Er;
      [by exfalso; apply Hne|].
    cbn [merged].
    assert (joined m && negb (joined w) && contains (slice_to 2 w) m
            && contains (slice_to 2 r) m = false) as ->.
    { apply andb_false_iff in E as [E|E]; [by rewrite E|].
      pose proof (merged_head_contains nw wwords mwords m E) as H.
      rewrite Er in H. rewrite H. apply andb_false_r. }
    by rewrite <- Er, IH.
Qed.

Lemma merge_at_S w wwords m mwords i :
  merge_at (w :: wwords) (m :: mwords) (S i) = merge_at wwords mwords i.
Proof. done. Qed.

Lemma merged_no_merge mwords :
  ∀ wwords, (∀ i, merge_at wwords mwords i = false) →
            merged wwords mwords = wwords.
Proof.
  induction mwords as [|m mwords IH]; intros wwords H; [done|].
  destruct wwords as [|w [|nw wwords]]; try done.
  cbn [merged]. pose proof (H 0) as H0.
  change (merge_at (w :: nw :: wwords) (m :: mwords) 0)
    with (joined m && negb (joined w) && contains (slice_to 2 w) m
          && contains (slice_to 2 nw) m) in H0.
  rewrite H0.
  f_equal. apply IH. intros i. by rewrite <- (merge_at_S w _ m).
Qed.

(** *** [separate_morph_word] *)

Lemma insert_pieces_spec pieces :
  ∀ (pre mid post : list string) c,
    insert_pieces (length pre) (length mid) pieces (pre ++ mid ++ post) c
    = (pre ++ mid ++ pieces ++ post, c + length pieces).
Proof.
  induction pieces as [|w pieces IH]; intros pre mid post c.
  { cbn. by rewrite Nat.add_0_r. }
  cbn [insert_pieces].
  rewrite (app_assoc pre mid post).
  rewrite (insert_at_middle (pre ++ mid)) by by rewrite length_app.
  replace (length mid + 1) with (length (mid ++ [w]))
    by by rewrite length_app.
  replace ((pre ++ mid) ++ w :: post) with (pre ++ (mid ++ [w]) ++ post)
    by by rewrite <- !app_assoc.
  rewrite IH. f_equal.
  - by rewrite <- !app_assoc.
  - cbn. lia.
Qed.

Lemma insert_pieces_zipper pieces (pre post : list string) i c :
  i = length pre →
  insert_pieces i 0 pieces (pre ++ post) c
  = (pre ++ pieces ++ post, c + length pieces).
Proof. intros ->. apply (insert_pieces_spec pieces pre [] post). Qed.

Lemma sep_body_zipper wpre w wsuf mpre m msuf :
  length wpre = length mpre →
  sep_body (SepState (length wpre) (wpre ++ w :: wsuf) (mpre ++ m :: msuf)
              (length (wpre ++ w :: wsuf)) (length (mpre ++ m :: msuf)))
  = Ok (SepState (length wpre + 1)
          (wpre ++ wword_pieces m w ++ wsuf)
          (mpre ++ mword_pieces m ++ msuf)
          (length (wpre ++ wword_pieces m w ++ wsuf))
          (length (mpre ++ mword_pieces m ++ msuf))).
Proof.
  intros Hlen. unfold sep_body, wword_pieces, mword_pieces.
  cbn [sep_i sep_wwords sep_mwords sep_wwords_count sep_mwords_count].
  rewrite (index_middle mpre _ _ (length wpre)) by done.
  cbn [mbind res_bind bind].
  destruct (search_double_pos m) as [g|]; [|done].
  rewrite (del_middle mpre) by done. cbn [mbind res_bind bind].
  rewrite (insert_pieces_zipper _ mpre) by done.
  rewrite (index_middle wpre _ _ (length wpre)) by done.
  cbn [mbind res_bind bind]. fold (joined w).
  destruct (joined w).
  - rewrite (del_middle wpre) by done. cbn [mbind res_bind bind].
    rewrite (insert_pieces_zipper _ wpre) by done.
    do 2 f_equal; rewrite !length_app; cbn; rewrite ?length_app; lia.
  - do 2 f_equal. rewrite !length_app. cbn. rewrite ?length_app. lia.
Qed.

Lemma weight_cons w ws : weight (w :: ws) = S (count_seps w) + weight ws.
Proof. done. Qed.

Lemma weight_app ws ws' : weight (ws ++ ws') = weight ws + weight ws'.
Proof. apply sum_list_with_app. Qed.

Lemma weight_split g : weight (split_on is_join_sep g) = S (count_seps g).
Proof.
  induction g as [|c g IH]; [done|]. cbn [split_on count_seps].
  destruct (is_join_sep c) eqn:E.
  - rewrite weight_cons, IH. cbn. lia.
  - destruct (split_on is_join_sep g) as [|w ws]; [done|].
    rewrite weight_cons in *. cbn [count_seps]. rewrite E. lia.
Qed.

Lemma weight_split_blank s :
  weight (split_on is_blank s) ≤ S (String.length s).
Proof.
  induction s as [|c s IH]; [done|]. cbn [split_on String.length].
  destruct (is_blank c).
  - rewrite weight_cons. cbn. lia.
  - destruct (split_on is_blank s) as [|w ws];
      [cbn; destruct (is_join_sep c); cbn; lia|].
    rewrite weight_cons in *. cbn [count_seps].
    destruct (is_join_sep c); lia.
Qed.

Lemma count_seps_dot_star y : count_seps (dot_star y) ≤ count_seps y.
Proof.
  induction y as [|c y IH]; [done|]. cbn.
  destruct (Ascii.eqb c "010"); cbn; lia.
Qed.

Lemma count_seps_double_pos_here x g :
  double_pos_here x = Some g → count_seps g ≤ count_seps x.
Proof.
  revert g. induction x as [|c x IH]; intros g; [done|]. cbn [double_pos_here].
  destruct (isspace c); [done|].
  assert (double_pos_here x = Some g → count_seps g ≤ count_seps (String c x))
    as Hrec.
  { intros H%IH. cbn. lia. }
  destruct x as [|d y]; [done|].
  destruct (Ascii.eqb d "|") eqn:Ed.
  - apply Ascii.eqb_eq in Ed as ->.
    destruct (rest_ok y); [|done].
    intros [= <-]. pose proof (count_seps_dot_star y). cbn. lia.
  - intros H. apply Hrec.
    destruct d as [[] [] [] [] [] [] [] []]; try done.
Qed.

Lemma count_seps_search w g :
  search_double_pos w = Some g → count_seps g ≤ count_seps w.
Proof.
  revert g. induction w as [|c w IH]; intros g.
  { cbn. done. }
  cbn [search_double_pos].
  destruct (double_pos_here (String c w)) as [g'|] eqn:E.
  - intros [= <-]. by apply count_seps_double_pos_here.
  - intros H%IH. cbn. lia.
Qed.

Lemma mword_pieces_weight m :
  weight (mword_pieces m) ≤ S (count_seps m).
Proof.
  unfold mword_pieces. destruct (search_double_pos m) as [g|] eqn:E.
  - rewrite weight_split. apply count_seps_search in E. lia.
  - cbn. lia.
Qed.

Lemma mword_pieces_nonempty m : mword_pieces m ≠ [].
Proof.
  unfold mword_pieces. destruct (search_double_pos m); [|done].
  apply split_on_nonempty.
Qed.

Lemma wword_pieces_nonempty m w : wword_pieces m w ≠ [].
Proof.
  unfold wword_pieces. destruct (search_double_pos m); [|done].
  destruct (joined w); [|done]. apply split_on_nonempty.
Qed.

Lemma weight_pos m ms : 0 < weight (m :: ms).
Proof. rewrite weight_cons. lia. Qed.

(** The loop of [separate_morph_word] computes [separated]. *)
Lemma sep_loop_separated fuel :
  ∀ wpre wsuf mpre msuf,
    length wpre = length mpre → weight msuf ≤ fuel →
    ∃ i',
      while fuel sep_cond sep_body
        (SepState (length wpre) (wpre ++ wsuf) (mpre ++ msuf)
           (length (wpre ++ wsuf)) (length (mpre ++ msuf)))
      = Ok (SepState i'
              (wpre ++ (separated fuel wsuf msuf).1)
              (mpre ++ (separated fuel wsuf msuf).2)
              (length (wpre ++ (separated fuel wsuf msuf).1))
              (length (mpre ++ (separated fuel wsuf msuf).2))).
Proof.
  induction fuel as [|fuel IH]; intros wpre wsuf mpre msuf Hlen Hfuel.
  { destruct msuf as [|m msuf]; [|pose proof (weight_pos m msuf); lia].
    exists (length wpre). cbn [while separated fst snd].
    assert (sep_cond (SepState (length wpre) (wpre ++ wsuf) (mpre ++ [])
              (length (wpre ++ wsuf)) (length (mpre ++ []))) = false) as ->;
      [|done].
    unfold sep_cond. cbn [sep_i sep_wwords_count sep_mwords_count].
    rewrite app_nil_r, Hlen, Nat.ltb_irrefl. apply andb_false_r. }
  cbn [while].
  destruct wsuf as [|w wsuf].
  { exists (length wpre). cbn [separated fst snd].
    assert (sep_cond (SepState (length wpre) (wpre ++ []) (mpre ++ msuf)
              (length (wpre ++ [])) (length (mpre ++ msuf))) = false) as ->;
      [|done].
    unfold sep_cond. cbn [sep_i sep_wwords_count sep_mwords_count].
    by rewrite app_nil_r, Nat.ltb_irrefl. }
  destruct msuf as [|m msuf].
  { exists (length wpre). cbn [separated fst snd].
    assert (sep_cond (SepState (length wpre) (wpre ++ w :: wsuf) (mpre ++ [])
              (length (wpre ++ w :: wsuf)) (length (mpre ++ []))) = false)
      as ->; [|done].
    unfold sep_cond. cbn [sep_i sep_wwords_count sep_mwords_count].
    rewrite app_nil_r, Hlen, Nat.ltb_irrefl. apply andb_false_r. }
  assert (sep_cond (SepState (length wpre) (wpre ++ w :: wsuf)
            (mpre ++ m :: msuf) (length (wpre ++ w :: wsuf))
            (length (mpre ++ m :: msuf))) = true) as ->.
  { unfold sep_cond. cbn [sep_i sep_wwords_count sep_mwords_count].
    apply andb_true_iff. split; apply Nat.ltb_lt;
      rewrite length_app; cbn; lia. }
  rewrite sep_body_zipper by done. cbn [bind separated].
  pose proof (mword_pieces_weight m) as Hw.
  pose proof (mword_pieces_nonempty m) as Hm.
  pose proof (wword_pieces_nonempty m w) as Hq.
  destruct (wword_pieces m w) as [|q qs]; [done|].
  destruct (mword_pieces m) as [|p ps]; [done|].
  destruct (IH (wpre ++ [q]) (qs ++ wsuf) (mpre ++ [p]) (ps ++ msuf))
    as [i' Hi'].
  { rewrite !length_app. cbn. lia. }
  { rewrite weight_cons in *. rewrite weight_app. lia. }
  exists i'.
  destruct (separated fuel (qs ++ wsuf) (ps ++ msuf)) as [rw rm].
  cbn [fst snd] in *.
  rewrite <- !app_assoc in Hi'. cbn [app] in Hi'.
  replace (length (wpre ++ [q])) with (length wpre + 1) in Hi'
    by by rewrite length_app.
  exact Hi'.
Qed.

Lemma separate_morph_word_fuel_spec fuel utterance morph_tier :
  weight (split_on is_blank morph_tier) ≤ fuel →
  separate_morph_word_fuel fuel utterance morph_tier
  = Ok (join " " (separated fuel (split_on is_blank utterance)
                    (split_on is_blank morph_tier)).1,
        join " " (separated fuel (split_on is_blank utterance)
                    (split_on is_blank morph_tier)).2).
Proof.
  intros Hfuel. unfold separate_morph_word_fuel.
  destruct (sep_loop_separated fuel [] (split_on is_blank utterance) []
              (split_on is_blank morph_tier) eq_refl Hfuel) as [i' Hi'].
  cbn [app length] in Hi'. by rewrite Hi'.
Qed.

Lemma separate_morph_word_spec utterance morph_tier :
  separate_morph_word utterance morph_tier
  = Ok (join " " (separated (S (String.length morph_tier))
                    (split_on is_blank utterance)
                    (split_on is_blank morph_tier)).1,
        join " " (separated (S (String.length morph_tier))
                    (split_on is_blank utterance)
                    (split_on is_blank morph_tier)).2).
Proof.
  apply separate_morph_word_fuel_spec, weight_split_blank.
Qed.

(** With enough fuel the result does not depend on the fuel. *)
Lemma separated_fuel fuel fuel' wwords mwords :
  weight mwords ≤ fuel → fuel ≤ fuel' →
  separated fuel' wwords mwords = separated fuel wwords mwords.
Proof.
  intros H1 H2.
  destruct (sep_loop_separated fuel [] wwords [] mwords eq_refl H1)
    as [i1 E1].
  destruct (sep_loop_separated fuel' [] wwords [] mwords eq_refl)
    as [i2 E2]; [lia|].
  apply (while_mono _ _ _ fuel') in E1; [|done].
  rewrite E1 in E2. cbn [app] in E2. injection E2 as _ Hw Hm _ _.
  destruct (separated fuel wwords mwords), (separated fuel' wwords mwords).
  cbn in *. by subst.
Qed.

Lemma separated_none fuel :
  ∀ wwords mwords,
    Forall (λ w, search_double_pos w = None) mwords →
    separated fuel wwords mwords = (wwords, mwords).
Proof.
  induction fuel as [|fuel IH]; intros wwords mwords Hall; [done|].
  cbn [separated]. destruct wwords as [|w wwords]; [done|].
  destruct mwords as [|m mwords]; [done|].
  inversion Hall as [|? ? Hm Hall']; subst.
  unfold wword_pieces, mword_pieces. rewrite Hm. cbn [app].
  by rewrite IH.
Qed.

(** *** The preconditions *)

Lemma no_merge_spec utterance morph_tier :
  no_merge utterance morph_tier = true →
  ∀ i, merge_at (split_on is_blank utterance)
         (split_on is_blank morph_tier) i = false.
Proof.
  unfold no_merge. intros H i.
  destruct (decide (i < length (split_on is_blank morph_tier))) as [Hi|Hi].
  - rewrite forallb_forall in H. apply negb_true_iff, H, in_seq. lia.
  - unfold merge_at. by rewrite (lookup_ge_None_2 _ i) by lia.
Qed.

Lemma no_double_pos_spec morph_tier :
  no_double_pos morph_tier = true →
  Forall (λ w, search_double_pos w = None) (split_on is_blank morph_tier).
Proof.
  unfold no_double_pos. intros H. apply Forall_forall. intros w Hw.
  rewrite forallb_forall in H. apply list_elem_of_In, H in Hw.
  by destruct (search_double_pos w).
Qed.

Lemma single_morph_word_pass_through utterance morph_tier :
  no_merge utterance morph_tier = true →
  single_morph_word utterance morph_tier = Ok (utterance, morph_tier).
Proof.
  intros H. rewrite single_morph_word_spec.
  rewrite merged_no_merge by by apply no_merge_spec.
  by rewrite join_split.
Qed.

Lemma separate_morph_word_pass_through utterance morph_tier :
  no_double_pos morph_tier = true →
  separate_morph_word utterance morph_tier = Ok (utterance, morph_tier).
Proof.
  intros H%no_double_pos_spec. rewrite separate_morph_word_spec.
  rewrite separated_none by done. cbn [fst snd]. by rewrite !join_split.
Qed.

Lemma no_blank_has_char s :
  has_char " " s = false → no_char is_blank s.
Proof.
  intros H%no_char_has_char. unfold no_char in *.
  eapply Forall_impl; [exact H|]. intros c Hc. unfold is_blank.
  by rewrite Ascii.eqb_sym.
Qed.

Lemma split_blank_pieces s : Forall (no_char is_blank) (split_on is_blank s).
Proof. apply split_on_pieces. Qed.

Lemma single_morph_word_idempotent utterance morph_tier r :
  single_morph_word utterance morph_tier = Ok r →
  single_morph_word r.1 r.2 = Ok r.
Proof.
  rewrite single_morph_word_spec. intros [= <-]. cbn [fst snd].
  rewrite single_morph_word_spec. rewrite split_join.
  - by rewrite merged_idempotent.
  - apply merged_nonempty, split_on_nonempty.
  - apply merged_no_blank, split_blank_pieces.
Qed.

(** *** The pattern of [separate_morph_word] on a word of the form
    [whole|rest] *)

Lemma any_char_no_char p s : any_char p s = false ↔ no_char p s.
Proof.
  induction s as [|c s IH]; [unfold no_char; cbn; by rewrite Forall_nil|].
  rewrite no_char_String. cbn. rewrite orb_false_iff. tauto.
Qed.

Lemma any_char_app p (a b : string) :
  any_char p (a +:+ b) = any_char p a || any_char p b.
Proof.
  induction a as [|c a IH]; [done|]. rewrite app_String. cbn.
  by rewrite IH, orb_assoc.
Qed.

Lemma double_pos_here_unfold c x :
  double_pos_here (String c x)
  = if isspace c then None
    else match x with
         | String d y =>
             if Ascii.eqb d "|" then
               if rest_ok y then Some (dot_star y) else double_pos_here x
             else double_pos_here x
         | EmptyString => double_pos_here x
         end.
Proof.
  destruct x as [|d y]; [done|].
  destruct d as [[] [] [] [] [] [] [] []]; reflexivity.
Qed.

Lemma rest_ok_unfold c y :
  rest_ok (String c y)
  = negb (isspace c)
    && (match y with
        | String d _ => Ascii.eqb d "|"
        | EmptyString => false
        end || rest_ok y).
Proof.
  destruct y as [|d y]; [done|].
  destruct d as [[] [] [] [] [] [] [] []]; reflexivity.
Qed.

Lemma rest_ok_bar (p t : string) :
  p ≠ EmptyString → no_char isspace p → rest_ok (p +:+ String "|" t) = true.
Proof.
  induction p as [|c p IH]; [done|]. intros _ [Hc Hp]%no_char_String.
  rewrite app_String, rest_ok_unfold, Hc. cbn [negb andb].
  destruct p as [|d p]; [done|].
  rewrite IH by done. apply orb_true_r.
Qed.

Lemma dot_star_no_space y : no_char isspace y → dot_star y = y.
Proof.
  induction y as [|c y IH]; [done|]. intros [Hc Hy]%no_char_String. cbn.
  destruct (Ascii.eqb c "010") eqn:E; [|by rewrite IH].
  apply Ascii.eqb_eq in E as ->. done.
Qed.

Lemma double_pos_here_bar (whole y : string) :
  whole ≠ EmptyString → no_char isspace whole → has_char "|" whole = false →
  rest_ok y = true →
  double_pos_here (whole +:+ String "|" y) = Some (dot_star y).
Proof.
  intros Hne Hs Hb Hy. induction whole as [|c whole IH]; [done|].
  apply no_char_String in Hs as [Hc Hs]. cbn [has_char] in Hb.
  destruct (Ascii.eqb "|" c) eqn:Ec; [done|].
  rewrite app_String, double_pos_here_unfold, Hc.
  destruct whole as [|d whole].
  - rewrite app_empty, Ascii.eqb_refl. by rewrite Hy.
  - rewrite app_String. cbn [has_char] in Hb.
    destruct (Ascii.eqb "|" d) eqn:Ed; [done|].
    rewrite Ascii.eqb_sym, Ed. rewrite <- app_String.
    apply IH; [done|done|]. cbn [has_char]. by rewrite Ed.
Qed.

Lemma search_double_pos_here w g :
  double_pos_here w = Some g → search_double_pos w = Some g.
Proof.
  intros H. destruct w; [by cbn in H|].
  cbn [search_double_pos]. by rewrite H.
Qed.

Lemma separated_S fuel w ws m ms :
  separated (S fuel) (w :: ws) (m :: ms)
  = match wword_pieces m w, mword_pieces m with
    | q :: qs, p :: ps =>
        let '(rw, rm) := separated fuel (qs ++ ws) (ps ++ ms) in
        (q :: rw, p :: rm)
    | _, _ => (w :: ws, m :: ms)
    end.
Proof. done. Qed.

Lemma separated_nil_r fuel wwords : separated fuel wwords [] = (wwords, []).
Proof. destruct fuel; [done|]. by destruct wwords. Qed.

Lemma split_not_joined w :
  joined w = false → split_on is_join_sep w = [w].
Proof.
  unfold joined. intros [H1 H2]%orb_false_iff.
  apply split_on_no_char. apply no_char_has_char in H1, H2.
  unfold no_char in *. apply Forall_forall. intros c Hc.
  rewrite Forall_forall in H1, H2. unfold is_join_sep.
  rewrite (Ascii.eqb_sym c "+"), (Ascii.eqb_sym c "_").
  by rewrite (H1 c), (H2 c).
Qed.

Lemma no_space_no_blank s : no_char isspace s → no_char is_blank s.
Proof.
  unfold no_char. intros H. eapply Forall_impl; [exact H|].
  intros c Hc. cbn beta in Hc. unfold is_blank.
  destruct (Ascii.eqb c " ") eqn:E; [|done].
  apply Ascii.eqb_eq in E as ->. done.
Qed.

(** *** The claims about the two repairs *)

(** C5. Scenario A in general: the utterance has the two words [w1] and
    [w2], the morphology tier is the one complex [m] (it contains [_] or
    [+]), [w1] is not joined, and the first two characters of [w1] and of
    [w2] occur in [m].  Then [single_morph_word] joins the two words by an
    underscore and returns the morphology tier as it was; it returns the
    morphology tier as it was for whatever utterance; when more words
    follow on both tiers, the two words are joined all the same and the
    words behind them are repaired as they would be on their own; at
    whatever position the loop meets [m] against [w1] followed by [w2], its
    turn joins the two words; and when [m] carries no double POS tag,
    [cross_clean] returns the joined utterance for the actual and the
    target form and [m] for the three tiers. *)
Theorem single_morph_word_merges (w1 w2 m : string) :
  has_char " " w1 = false → has_char " " w2 = false →
  has_char " " m = false →
  joined m = true → joined w1 = false →
  contains (slice_to 2 w1) m = true → contains (slice_to 2 w2) m = true →
  single_morph_word (w1 +:+ " " +:+ w2) m = Ok (w1 +:+ "_" +:+ w2, m)
  ∧ (∀ utterance, ∃ utterance',
       single_morph_word utterance m = Ok (utterance', m))
  ∧ (∀ rest mrest rest',
       single_morph_word rest mrest = Ok (rest', mrest) →
       single_morph_word (w1 +:+ " " +:+ w2 +:+ " " +:+ rest)
         (m +:+ " " +:+ mrest)
       = Ok (w1 +:+ "_" +:+ w2 +:+ " " +:+ rest', m +:+ " " +:+ mrest))
  ∧ (∀ pre suf mpre msuf,
       length pre = length mpre →
       smw_body (mpre ++ m :: msuf)
         (SmwState (length pre) (pre ++ w1 :: w2 :: suf)
            (length (pre ++ w1 :: w2 :: suf)))
       = Ok (SmwState (length pre + 1)
               (pre ++ (w1 +:+ "_" +:+ w2) :: suf)
               (length (pre ++ (w1 +:+ "_" +:+ w2) :: suf))))
  ∧ (search_double_pos m = None →
     ∀ gloss_tier pos_tier,
       cross_clean (w1 +:+ " " +:+ w2) (w1 +:+ " " +:+ w2) m
         gloss_tier pos_tier
       = Ok (w1 +:+ "_" +:+ w2, w1 +:+ "_" +:+ w2, m, m, m)).
Proof.
  intros H1%no_blank_has_char H2%no_blank_has_char H3%no_blank_has_char
         Hm Hw1 Hc1 Hc2.
  assert (single_morph_word (w1 +:+ " " +:+ w2) m
          = Ok (w1 +:+ "_" +:+ w2, m)) as Hsingle.
  { rewrite single_morph_word_spec.
    change (" " +:+ w2) with (String " " w2).
    rewrite split_on_app, !split_on_no_char by done.
    cbn [merged]. by rewrite Hm, Hw1, Hc1, Hc2. }
  split_and!; [done|..].
  - intros utterance. rewrite single_morph_word_spec. eauto.
  - intros rest mrest rest'. rewrite !single_morph_word_spec.
    intros [= <-].
    assert (∀ x, " " +:+ x = String " " x) as Hsp by done.
    rewrite !Hsp, !split_on_app by done.
    cbn [merged]. rewrite Hm, Hw1, Hc1, Hc2. cbn [andb negb].
    pose proof (merged_nonempty (split_on is_blank rest)
                  (split_on is_blank mrest) (split_on_nonempty _ _)) as Hne.
    destruct (merged (split_on is_blank rest) (split_on is_blank mrest))
      as [|x xs]; [done|].
    rewrite join_cons. by rewrite !app_assoc'.
  - intros pre suf mpre msuf Hlen.
    destruct (smw_body_zipper mpre m msuf pre w1 (w2 :: suf) Hlen)
      as (w' & rest & -> & Hmerged).
    specialize (Hmerged []). cbn [merged] in Hmerged.
    rewrite Hm, Hw1, Hc1, Hc2 in Hmerged. cbn [andb negb] in Hmerged.
    by injection Hmerged as <- <-.
  - intros Hs gloss_tier pos_tier. unfold cross_clean.
    assert (separate_morph_word (w1 +:+ "_" +:+ w2) m
            = Ok (w1 +:+ "_" +:+ w2, m)) as Hsep.
    { apply separate_morph_word_pass_through. unfold no_double_pos.
      rewrite split_on_no_char by done. cbn. by rewrite Hs. }
    rewrite Hsingle. cbn [mbind res_bind bind]. rewrite Hsep.
    cbn [mbind res_bind bind]. rewrite Hsingle.
    cbn [mbind res_bind bind]. by rewrite Hsep.
Qed.

(** Scenario A. *)
Lemma single_morph_word_scenario_A :
  single_morph_word "stem1 stem2" "POS|stem1_stem2-SFX"
  = Ok ("stem1_stem2", "POS|stem1_stem2-SFX")
  ∧ cross_clean "stem1 stem2" "stem1 stem2" "POS|stem1_stem2-SFX"
      "POS|stem1_stem2-SFX" "POS|stem1_stem2-SFX"
    = Ok ("stem1_stem2", "stem1_stem2", "POS|stem1_stem2-SFX",
          "POS|stem1_stem2-SFX", "POS|stem1_stem2-SFX").
Proof.
  pose proof (single_morph_word_merges "stem1" "stem2" "POS|stem1_stem2-SFX"
                eq_refl eq_refl eq_refl eq_refl eq_refl eq_refl eq_refl)
    as (H1 & _ & _ & _ & H5).
  split; [exact H1|exact (H5 eq_refl _ _)].
Defined.

(** C6. Scenario B in general: the morphological word is [whole|p1|s1 c b],
    where [whole] is the tag of the complex (not empty, without bar), [c]
    is [+] or [_], and the two parts [p1|s1] and [b] contain neither [+]
    nor [_].  At whatever position the loop meets this word, its turn puts
    the two words [p1|s1] and [b] in its place, the tag [whole] being
    dropped, and splits the orthographic word of that position at every
    [+] and [_] when it is joined.  When the morphology tier is this one
    word, [b] carries a single tag and the utterance is one word,
    [separate_morph_word] returns the two morphological words and the
    utterance split at every [+] and [_] (a word that is not joined has no
    such place and stays as it is). *)
Theorem separate_morph_word_splits
    (whole p1 s1 b utterance : string) (c : ascii) :
  whole ≠ EmptyString → p1 ≠ EmptyString →
  has_char "|" whole = false →
  any_char isspace (whole +:+ p1 +:+ s1 +:+ b) = false →
  is_join_sep c = true →
  any_char is_join_sep (p1 +:+ s1) = false →
  any_char is_join_sep b = false →
  search_double_pos b = None →
  has_char " " utterance = false →
  separate_morph_word utterance
    (whole +:+ "|" +:+ p1 +:+ "|" +:+ s1 +:+ String c b)
  = Ok (join " " (split_on is_join_sep utterance),
        p1 +:+ "|" +:+ s1 +:+ " " +:+ b)
  ∧ (∀ wpre wsuf mpre msuf wword,
       length wpre = length mpre →
       let mword := whole +:+ "|" +:+ p1 +:+ "|" +:+ s1 +:+ String c b in
       let wpieces :=
         if joined wword then split_on is_join_sep wword else [wword] in
       let mpieces := [p1 +:+ "|" +:+ s1; b] in
       sep_body (SepState (length wpre) (wpre ++ wword :: wsuf)
                   (mpre ++ mword :: msuf)
                   (length (wpre ++ wword :: wsuf))
                   (length (mpre ++ mword :: msuf)))
       = Ok (SepState (length wpre + 1)
               (wpre ++ wpieces ++ wsuf) (mpre ++ mpieces ++ msuf)
               (length (wpre ++ wpieces ++ wsuf))
               (length (mpre ++ mpieces ++ msuf)))).
Proof.
  intros Hwhole Hp1 Hbar Hspace Hc Hsep1 Hsepb Hb Hu%no_blank_has_char.
  rewrite !any_char_app, !orb_false_iff in Hspace.
  destruct Hspace as (Hs_whole%any_char_no_char & Hs_p1%any_char_no_char
                      & Hs_s1%any_char_no_char & Hs_b%any_char_no_char).
  rewrite any_char_app, orb_false_iff in Hsep1.
  destruct Hsep1 as [Hj_p1%any_char_no_char Hj_s1%any_char_no_char].
  apply any_char_no_char in Hsepb.
  assert (c ≠ "|"%char ∧ isspace c = false) as (Hc1 & Hc2).
  { unfold is_join_sep in Hc. apply orb_true_iff in Hc as [H|H];
      apply Ascii.eqb_eq in H; by subst. }
  set (a := p1 +:+ String "|" s1).
  assert (whole +:+ "|" +:+ p1 +:+ "|" +:+ s1 +:+ String c b
          = whole +:+ String "|" (a +:+ String c b)) as ->.
  { unfold a. by rewrite app_assoc'. }
  assert (p1 +:+ "|" +:+ s1 +:+ " " +:+ b = a +:+ String " " b) as ->.
  { unfold a. by rewrite app_assoc'. }
  change (p1 +:+ "|" +:+ s1) with a.
  set (mword := whole +:+ String "|" (a +:+ String c b)).
  assert (no_char isspace a) as Hs_a.
  { unfold a. by rewrite no_char_app, no_char_String. }
  assert (no_char is_join_sep a) as Hj_a.
  { unfold a. by rewrite no_char_app, no_char_String. }
  assert (no_char isspace (a +:+ String c b)) as Hs_rest.
  { by rewrite no_char_app, no_char_String. }
  assert (search_double_pos mword = Some (a +:+ String c b)) as Hsearch.
  { apply search_double_pos_here. unfold mword.
    rewrite double_pos_here_bar; try done.
    - by rewrite dot_star_no_space.
    - unfold a. rewrite app_assoc'. by apply rest_ok_bar. }
  assert (split_on is_join_sep (a +:+ String c b) = [a; b]) as Hpieces.
  { by rewrite split_on_app, split_on_no_char. }
  assert (mword_pieces mword = [a; b]) as Hmp.
  { unfold mword_pieces. by rewrite Hsearch. }
  assert (∀ w, wword_pieces mword w
               = if joined w then split_on is_join_sep w else [w]) as Hwp.
  { intros w. unfold wword_pieces. by rewrite Hsearch. }
  split.
  - assert (no_char is_blank mword) as Hm_blank.
    { apply no_space_no_blank. unfold mword.
      by rewrite no_char_app, no_char_String. }
    rewrite separate_morph_word_spec.
    rewrite (split_on_no_char _ utterance), (split_on_no_char _ mword)
      by done.
    assert (∃ f, String.length mword = S f) as [f ->].
    { unfold mword. destruct whole; [done|]. rewrite app_String. cbn. eauto. }
    assert (wword_pieces mword utterance = split_on is_join_sep utterance)
      as Hq.
    { rewrite Hwp. destruct (joined utterance) eqn:E; [done|].
      by rewrite split_not_joined. }
    rewrite separated_S, Hq, Hmp.
    pose proof (split_on_nonempty is_join_sep utterance) as Hne.
    destruct (split_on is_join_sep utterance) as [|q qs]; [done|].
    rewrite !app_nil_r. cbn [app].
    assert (separated (S f) qs [b] = (qs, [b])) as ->.
    { destruct qs as [|q2 qs]; [done|]. rewrite separated_S.
      unfold wword_pieces, mword_pieces. rewrite Hb. cbn [app].
      by rewrite separated_nil_r. }
    cbn [fst snd]. by rewrite join_cons.
  - intros wpre wsuf mpre msuf wword Hlen. cbn zeta.
    by rewrite sep_body_zipper, Hmp, Hwp.
Qed.

(** Scenario B, with an utterance that is joined as well. *)
Lemma separate_morph_word_scenario_B :
  separate_morph_word "stem1_stem2"
    "wholePOS|stem1POS|stem1-SFX1_stem2POS|stem2-SFX2"
  = Ok ("stem1 stem2", "stem1POS|stem1-SFX1 stem2POS|stem2-SFX2").
Proof.
  apply (separate_morph_word_splits "wholePOS" "stem1POS" "stem1-SFX1"
           "stem2POS|stem2-SFX2" "stem1_stem2" "_");
    first [discriminate | reflexivity].
Defined.

(** C8. Both repairs return a pair of strings for every pair of strings:
    no exception, and the loop ends within the fuel the functions give it
    (more fuel does not change the result).  When no position meets the
    test of [single_morph_word], it returns the two strings as they are;
    when no morphological word matches the pattern of
    [separate_morph_word], it returns the two strings as they are. *)
Theorem repairs_total_and_pass_through (utterance morph_tier : string) :
  (∃ r, single_morph_word utterance morph_tier = Ok r)
  ∧ (∃ r, separate_morph_word utterance morph_tier = Ok r)
  ∧ (∀ fuel, length (split_on is_blank morph_tier) ≤ fuel →
       single_morph_word_fuel fuel utterance morph_tier
       = single_morph_word utterance morph_tier)
  ∧ (∀ fuel, S (String.length morph_tier) ≤ fuel →
       separate_morph_word_fuel fuel utterance morph_tier
       = separate_morph_word utterance morph_tier)
  ∧ (no_merge utterance morph_tier = true →
       single_morph_word utterance morph_tier
       = Ok (utterance, morph_tier))
  ∧ (no_double_pos morph_tier = true →
       separate_morph_word utterance morph_tier
       = Ok (utterance, morph_tier)).
Proof.
  split_and!.
  - rewrite single_morph_word_spec. eauto.
  - rewrite separate_morph_word_spec. eauto.
  - intros fuel Hfuel.
    by rewrite single_morph_word_spec, single_morph_word_fuel_spec.
  - intros fuel Hfuel. pose proof (weight_split_blank morph_tier).
    rewrite separate_morph_word_spec, separate_morph_word_fuel_spec by lia.
    by rewrite (separated_fuel (S (String.length morph_tier)) fuel).
  - apply single_morph_word_pass_through.
  - apply separate_morph_word_pass_through.
Qed.

(** Two tiers without a complex: both repairs return them as they are. *)
Lemma repairs_pass_through_example :
  single_morph_word "ev geldi" "N|ev V|gel-PAST"
  = Ok ("ev geldi", "N|ev V|gel-PAST")
  ∧ separate_morph_word "ev geldi" "N|ev V|gel-PAST"
    = Ok ("ev geldi", "N|ev V|gel-PAST").
Proof.
  pose proof (repairs_total_and_pass_through "ev geldi" "N|ev V|gel-PAST")
    as (_ & _ & _ & _ & H1 & H2).
  split; [apply H1|apply H2]; reflexivity.
Defined.

(** C7, as the code has it.  [single_morph_word] alone is idempotent on
    every pair of strings.  The whole pass (both repairs, as [cross_clean]
    composes them) returns its own output unchanged whenever that output
    offers no repair precondition any more: no position meets the test of
    [single_morph_word] and no morphological word carries a double POS
    tag. *)
Theorem repair_idempotent_when_settled (utterance morph_tier : string) :
  (∀ r, single_morph_word utterance morph_tier = Ok r →
        single_morph_word r.1 r.2 = Ok r)
  ∧ (∀ r, repair_pass (utterance, morph_tier) = Ok r →
          no_merge r.1 r.2 = true → no_double_pos r.2 = true →
          repair_pass r = Ok r).
Proof.
  split; [apply single_morph_word_idempotent|].
  intros [u m] _ H1 H2. unfold repair_pass. cbn [fst snd] in *.
  rewrite single_morph_word_pass_through by done.
  cbn [mbind res_bind bind].
  by apply separate_morph_word_pass_through.
Qed.

(** Scenarios A and B: the first application changes the tiers, the second
    returns what the first returned. *)
Lemma repair_idempotent_scenarios :
  (single_morph_word "stem1 stem2" "POS|stem1_stem2-SFX"
   = Ok ("stem1_stem2", "POS|stem1_stem2-SFX")
   ∧ single_morph_word "stem1_stem2" "POS|stem1_stem2-SFX"
     = Ok ("stem1_stem2", "POS|stem1_stem2-SFX"))
  ∧ (repair_pass ("stem1_stem2",
                  "wholePOS|stem1POS|stem1-SFX1_stem2POS|stem2-SFX2")
     = Ok ("stem1 stem2", "stem1POS|stem1-SFX1 stem2POS|stem2-SFX2")
     ∧ repair_pass ("stem1 stem2", "stem1POS|stem1-SFX1 stem2POS|stem2-SFX2")
       = Ok ("stem1 stem2", "stem1POS|stem1-SFX1 stem2POS|stem2-SFX2")).
Proof.
  pose proof (repair_idempotent_when_settled "stem1 stem2"
                "POS|stem1_stem2-SFX") as [H1 _].
  pose proof (repair_idempotent_when_settled "stem1_stem2"
                "wholePOS|stem1POS|stem1-SFX1_stem2POS|stem2-SFX2")
    as [_ H2].
  split; (split; [reflexivity|]).
  - exact (H1 _ eq_refl).
  - exact (H2 _ eq_refl eq_refl eq_refl).
Defined.

(** A morphological word with three bars loses one tag at each application:
    [a|b|c|d] becomes [b|c|d], and [b|c|d] becomes [c|d]. *)
Lemma repair_pass_not_idempotent :
  ¬ ∀ utt_mor r,
      repair_pass utt_mor = Ok r → repair_pass r = Ok r.
Proof.
  intros H.
  specialize (H ("w", "a|b|c|d") ("w", "b|c|d") eq_refl).
  vm_compute in H. discriminate H.
Qed.

End TurkishFacts.

(** ** Untranscribed material *)

Module UntranscribedFacts.
Import Py PyFacts TurkishCleaner Spec.

(** *** Counting words *)

Lemma scan_words_app b (x u : string) :
  scan_words b (x +:+ u)
  = let '(n, b') := scan_words b x in
    let '(m, b'') := scan_words b' u in
    (n + m, b'').
Proof.
  revert b. induction x as [|c x IH]; intros b.
  { rewrite app_empty. cbn. by destruct (scan_words b u). }
  rewrite app_String. cbn [scan_words].
  destruct (isspace c); [apply IH|].
  rewrite IH. destruct (scan_words true x) as [n b'].
  destruct (scan_words b' u) as [m b'']. f_equal. lia.
Qed.

Lemma count_blank_app (x u : string) :
  count_blank (x +:+ u) = count_blank x + count_blank u.
Proof.
  induction x as [|c x IH]; [done|]. rewrite app_String. cbn. lia.
Qed.

Lemma same_words_refl x : same_words x x.
Proof. done. Qed.

Lemma same_words_app x y u v :
  same_words x y → same_words u v → same_words (x +:+ u) (y +:+ v).
Proof.
  intros [Hxy Hxy'] [Huv Huv']. split.
  - intros b. rewrite !scan_words_app, Hxy.
    destruct (scan_words b y) as [n b']. by rewrite Huv.
  - by rewrite !count_blank_app, Hxy', Huv'.
Qed.

Lemma same_words_String c u v :
  same_words u v → same_words (String c u) (String c v).
Proof. apply (same_words_app (String c EmptyString) (String c EmptyString)), same_words_refl. Qed.

Lemma scan_words_block x b :
  x ≠ EmptyString → no_char isspace x →
  scan_words b x = (if b then 0 else 1, true).
Proof.
  revert b. induction x as [|c x IH]; intros b Hne; [done|].
  intros [Hc Hx]%no_char_String. cbn [scan_words]. rewrite Hc.
  destruct x as [|d x]; [cbn; f_equal; lia|].
  rewrite IH by done. f_equal. lia.
Qed.

Lemma count_blank_no_space x : no_char isspace x → count_blank x = 0.
Proof.
  induction x as [|c x IH]; [done|]. intros [Hc Hx]%no_char_String.
  cbn. rewrite IH by done. unfold is_blank.
  destruct (Ascii.eqb c " ") eqn:E; [|done].
  apply Ascii.eqb_eq in E as ->. done.
Qed.

(** Two runs of characters outside white space stand for each other. *)
Lemma same_words_block x y :
  x ≠ EmptyString → y ≠ EmptyString → no_char isspace x → no_char isspace y →
  same_words x y.
Proof.
  intros Hx Hy Hsx Hsy. split.
  - intros b. by rewrite !scan_words_block.
  - by rewrite !count_blank_no_space.
Qed.

Lemma split_ws_String c s :
  split_ws (String c s)
  = if isspace c then split_ws s
    else match s with
         | EmptyString => [String c EmptyString]
         | String d _ =>
             if isspace d then String c EmptyString :: split_ws s
             else match split_ws s with
                  | w :: ws => String c w :: ws
                  | [] => [String c EmptyString]
                  end
         end.
Proof. done. Qed.

Lemma split_ws_scan s :
  length (split_ws s) = (scan_words false s).1
  ∧ ∀ c, isspace c = false →
         length (split_ws (String c s)) = S (scan_words true s).1.
Proof.
  induction s as [|d s [IH1 IH2]].
  { split; [done|]. intros c Hc. by rewrite split_ws_String, Hc. }
  split.
  - cbn [scan_words]. destruct (isspace d) eqn:Ed.
    + by rewrite split_ws_String, Ed.
    + rewrite (IH2 d Ed). by destruct (scan_words true s).
  - intros c Hc. rewrite (split_ws_String c), Hc. cbn [scan_words].
    destruct (isspace d) eqn:Ed.
    + cbn [length]. rewrite split_ws_String, Ed. by rewrite IH1.
    + specialize (IH2 d Ed).
      destruct (split_ws (String d s)) as [|w ws] eqn:E; [done|].
      cbn [length] in *. rewrite IH2. by destruct (scan_words true s).
Qed.

Lemma word_count_scan s : word_count s = (scan_words false s).1.
Proof. apply split_ws_scan. Qed.

Lemma blank_word_count_blanks s : blank_word_count s = S (count_blank s).
Proof.
  unfold blank_word_count. induction s as [|c s IH]; [done|].
  cbn [split_on count_blank]. destruct (is_blank c).
  - cbn [length]. by rewrite IH.
  - pose proof (split_on_nonempty is_blank s).
    destruct (split_on is_blank s); [done|]. cbn [length] in *. by rewrite IH.
Qed.

Lemma same_words_counts x y :
  same_words x y →
  word_count x = word_count y ∧ blank_word_count x = blank_word_count y.
Proof.
  intros [H1 H2]. by rewrite !word_count_scan, !blank_word_count_blanks, H1, H2.
Qed.

(** *** Slices *)

Lemma slice_to_from n s : slice_to n s +:+ slice_from n s = s.
Proof.
  revert s. induction n as [|n IH]; intros [|c s]; try done.
  cbn. by rewrite app_String, IH.
Qed.

Lemma slice_from_length n s :
  String.length (slice_from n s) ≤ String.length s.
Proof.
  revert s. induction n as [|n IH]; intros [|c s]; cbn; try lia.
  specialize (IH s). lia.
Qed.

Lemma slice_to_add n m s :
  slice_to (n + m) s = slice_to n s +:+ slice_to m (slice_from n s).
Proof.
  revert s. induction n as [|n IH]; intros s.
  { by destruct s. }
  destruct s as [|c s]; [by destruct m|].
  cbn. by rewrite app_String, IH.
Qed.

Lemma startswith_slice_to p s :
  startswith p s = true → slice_to (String.length p) s = p.
Proof.
  revert s. induction p as [|a p IH]; intros [|b s]; try done.
  cbn. destruct (Ascii.eqb a b) eqn:E; [|done].
  apply Ascii.eqb_eq in E as ->. intros H. by rewrite IH.
Qed.

(** *** [re_sub] *)

Lemma re_sub_skip here k s :
  re_sub here k false s = re_sub here 0 false (slice_from k s).
Proof.
  revert s. induction k as [|k IH]; intros s; [by destruct s|].
  destruct s as [|c s]; [done|]. cbn [re_sub slice_from]. apply IH.
Qed.

Section re_sub_same_words.
Variable here : bool → string → option (string * nat).
Hypothesis here_same_words :
  ∀ at_start s out n,
    here at_start s = Some (out, n) →
    1 ≤ n ∧ same_words out (slice_to n s).

Lemma re_sub_same_words_bounded len :
  ∀ s at_start, String.length s ≤ len →
                same_words (re_sub here 0 at_start s) s.
Proof.
  induction len as [|len IH]; intros [|c s] at_start Hlen;
    try apply same_words_refl; [cbn in Hlen; lia|].
  cbn [re_sub].
  destruct (here at_start (String c s)) as [[out n]|] eqn:E.
  - apply here_same_words in E as [Hn Hout].
    rewrite re_sub_skip.
    replace (slice_from (n - 1) s) with (slice_from n (String c s))
      by (destruct n; [lia|]; cbn; by rewrite Nat.sub_0_r).
    rewrite <- (slice_to_from n (String c s)) at 2.
    apply same_words_app; [done|]. apply IH.
    destruct n; [lia|]. cbn [slice_from].
    pose proof (slice_from_length n s). cbn in Hlen. lia.
  - apply same_words_String, IH. cbn in Hlen. lia.
Qed.

Lemma re_sub_same_words s : same_words (re_sub here 0 true s) s.
Proof. by apply (re_sub_same_words_bounded (String.length s)). Qed.
End re_sub_same_words.

(** *** The pattern of [toolbox.py] *)

(** A literal without white space. *)
Ltac literal_no_space :=
  repeat (apply no_char_String; split; [reflexivity|]);
  apply no_char_empty.

Lemma same_words_marker m :
  m ≠ EmptyString → no_char isspace m → same_words "???" m.
Proof. intros. apply same_words_block; try done. literal_no_space. Qed.

Lemma same_words_literal m s n :
  startswith m s = true → n = String.length m →
  m ≠ EmptyString → no_char isspace m →
  same_words "???" (slice_to n s).
Proof.
  intros Hm -> Hne Hs. rewrite (startswith_slice_to m s Hm).
  by apply same_words_marker.
Qed.

Lemma garbage_pattern_same_words at_start s out n :
  Toolbox.garbage_pattern at_start s = Some (out, n) →
  1 ≤ n ∧ same_words out (slice_to n s).
Proof.
  unfold Toolbox.garbage_pattern, Toolbox.garbage_here.
  destruct (startswith "xx" s) eqn:E2.
  { destruct (startswith "xxx" s) eqn:E3; intros [= <- <-];
      (split; [lia|]).
    - apply (same_words_literal "xxx"); [done..|literal_no_space].
    - apply (same_words_literal "xx"); [done..|literal_no_space]. }
  destruct (startswith "www" s) eqn:Ew.
  { intros [= <- <-]. split; [lia|].
    apply (same_words_literal "www"); [done..|literal_no_space]. }
  destruct (startswith "***" s) eqn:Ea; [|done].
  intros [= <- <-]. split; [lia|].
  apply (same_words_literal "***"); [done..|literal_no_space].
Qed.

(** *** The pattern of [TurkishCleaner.py] *)

Lemma group3_slice s g3 :
  group3 s = Some g3 → slice_to (String.length g3) s = g3.
Proof.
  destruct s as [|c s]; cbn; [by intros [= <-]|].
  destruct (isspace c); [by intros [= <-]|].
  destruct (Ascii.eqb c ".") eqn:E; [|done].
  apply Ascii.eqb_eq in E as ->. by intros [= <-].
Qed.

Lemma count_y_slice k s :
  1 ≤ k → k ≤ count_y s →
  slice_to k s ≠ EmptyString ∧ no_char isspace (slice_to k s).
Proof.
  revert s. induction k as [|k IH]; intros s Hk Hy; [lia|].
  destruct s as [|c s]; [cbn in Hy; lia|].
  assert (c = "y"%char ∧ k ≤ count_y s) as [-> Hy'].
  { destruct c as [[] [] [] [] [] [] [] []]; cbn in Hy; try lia.
    split; [done|lia]. }
  cbn [slice_to]. split; [done|].
  apply no_char_String. split; [done|].
  destruct k as [|k]; [apply no_char_empty|]. apply IH; [lia|done].
Qed.

Lemma y_then_group3_spec k s k' g3 :
  y_then_group3 k s = Some (k', g3) →
  3 ≤ k' ∧ k' ≤ k ∧ group3 (slice_from k' s) = Some g3.
Proof.
  induction k as [|k IH]; [done|]. cbn [y_then_group3].
  destruct (3 <=? S k) eqn:E; [|done]. apply Nat.leb_le in E.
  destruct (group3 (slice_from (S k) s)) as [g|] eqn:Eg.
  - intros [= <- <-]. by split_and!.
  - intros H. apply IH in H as (? & ? & ?). split_and!; [done|lia|done].
Qed.

Lemma group23_same_words s n g3 :
  group23 s = Some (n, g3) →
  1 ≤ n ∧ same_words ("???" +:+ g3) (slice_to (n + String.length g3) s).
Proof.
  unfold group23.
  assert (∀ m, startswith m s = true → m ≠ EmptyString → no_char isspace m →
               group3 (slice_from (String.length m) s) = Some g3 →
               same_words ("???" +:+ g3)
                 (slice_to (String.length m + String.length g3) s))
    as Hfixed.
  { intros m Hm Hne Hs Hg. rewrite slice_to_add.
    rewrite (startswith_slice_to m s Hm), (group3_slice _ _ Hg).
    apply same_words_app; [by apply same_words_marker|apply same_words_refl]. }
  destruct (startswith "xxx" s) eqn:Ex.
  { destruct (group3 (slice_from 3 s)) as [g|] eqn:Eg.
    - intros [= <- <-]. split; [lia|].
      apply (Hfixed "xxx"); try done.
      literal_no_space.
    - destruct (y_then_group3 (count_y s) s) as [[k g]|] eqn:Ey.
      + (* a string that starts with [xxx] has no [y] in front *)
        apply y_then_group3_spec in Ey as (H3 & Hk & _).
        destruct s as [|c s]; [done|]. cbn [startswith] in Ex.
        destruct (Ascii.eqb "x" c) eqn:Ec; [|done].
        apply Ascii.eqb_eq in Ec as <-. cbn in Hk. lia.
      + destruct (startswith "www" s) eqn:Ew; [|done].
        destruct s as [|c s]; [done|]. cbn [startswith] in Ex, Ew.
        destruct (Ascii.eqb "x" c) eqn:Ec; [|done].
        apply Ascii.eqb_eq in Ec as <-. done. }
  destruct (y_then_group3 (count_y s) s) as [[k g]|] eqn:Ey.
  { intros [= <- <-].
    apply y_then_group3_spec in Ey as (H3 & Hk & Hg). split; [lia|].
    rewrite slice_to_add, (group3_slice _ _ Hg).
    destruct (count_y_slice k s) as [Hne Hs]; [lia|done|].
    apply same_words_app; [by apply same_words_marker|apply same_words_refl]. }
  destruct (startswith "www" s) eqn:Ew; [|done].
  destruct (group3 (slice_from 3 s)) as [g|] eqn:Eg; [|done].
  intros [= <- <-]. split; [lia|].
  apply (Hfixed "www"); try done.
  literal_no_space.
Qed.

Lemma untranscribed_here_same_words at_start s out n :
  untranscribed_here at_start s = Some (out, n) →
  1 ≤ n ∧ same_words out (slice_to n s).
Proof.
  unfold untranscribed_here.
  destruct (if at_start then group23 s else None) as [[n2 g3]|] eqn:E.
  { intros [= <- <-]. destruct at_start; [|done].
    apply group23_same_words in E as [Hn Hs]. split; [lia|done]. }
  destruct s as [|c s]; [done|].
  destruct (isspace c); [|done].
  destruct (group23 s) as [[n2 g3]|] eqn:E'; [|done].
  intros [= <- <-]. apply group23_same_words in E' as [Hn Hs].
  split; [lia|].
  change (same_words (String c ("???" +:+ g3))
            (String c (slice_to (n2 + String.length g3) s))).
  by apply same_words_String.
Qed.

(** C9. Unifying the untranscribed material does not change the number of
    words of a string, whether the words are counted between white space
    or between blanks: this holds of [unify_untranscribed] of the Turkish
    cleaner ([xxx], [www], three or more [y]) and of the substitution of
    [clean_utterance] in [toolbox.py] ([xx], [xxx], [www], three
    asterisks). *)
Theorem unify_untranscribed_word_count (utterance : string) :
  word_count (unify_untranscribed utterance) = word_count utterance
  ∧ blank_word_count (unify_untranscribed utterance)
    = blank_word_count utterance
  ∧ word_count (Toolbox.unify_garbage utterance) = word_count utterance
  ∧ blank_word_count (Toolbox.unify_garbage utterance)
    = blank_word_count utterance.
Proof.
  pose proof (same_words_counts _ _
    (re_sub_same_words _ untranscribed_here_same_words utterance)) as [H1 H2].
  pose proof (same_words_counts _ _
    (re_sub_same_words _ garbage_pattern_same_words utterance)) as [H3 H4].
  done.
Qed.

End UntranscribedFacts.

(** ** [next_utterance] *)

Module CHATFacts.
Import Py PyFacts CHATParser Spec.

Lemma zip_length_min {A B} (xs : list A) (ys : list B) :
  length (zip xs ys) = Nat.min (length xs) (length ys).
Proof.
  revert ys. induction xs as [|x xs IH]; intros [|y ys]; cbn; try done.
  by rewrite IH.
Qed.

Lemma zip_take {A B} (xs : list A) (ys : list B) :
  zip xs ys
  = zip (take (Nat.min (length xs) (length ys)) xs)
        (take (Nat.min (length xs) (length ys)) ys).
Proof.
  revert ys. induction xs as [|x xs IH]; intros [|y ys]; cbn; try done.
  by rewrite <- IH.
Qed.

Lemma zip_lookup {A B} (xs : list A) (ys : list B) i :
  zip xs ys !! i
  = match xs !! i, ys !! i with
    | Some x, Some y => Some (x, y)
    | _, _ => None
    end.
Proof.
  revert ys i. induction xs as [|x xs IH]; intros [|y ys] [|i]; cbn;
    try done; by destruct (xs !! i).
Qed.

Lemma zip3_length {A} (a b c : list A) n :
  length a = n → length b = n → length c = n → length (zip3 a b c) = n.
Proof.
  revert a b c. induction n as [|n IH]; intros [|x a] [|y b] [|z c];
    cbn; try done.
  intros [=] [=] [=]. f_equal. by apply IH.
Qed.

Lemma zip3_third {A} (P : A → Prop) (a b c : list A) :
  Forall P c → Forall (λ t, P t.2) (zip3 a b c).
Proof.
  revert b c. induction a as [|x a IH]; intros [|y b] [|z c] H; cbn;
    try by constructor.
  inversion H; subst. constructor; [done|by apply IH].
Qed.

Lemma zip3_second {A} (P : A → Prop) (a b c : list A) :
  Forall P b → Forall (λ t, P t.1.2) (zip3 a b c).
Proof.
  revert b c. induction a as [|x a IH]; intros [|y b] [|z c] H; cbn;
    try by constructor.
  inversion H; subst. constructor; [done|by apply IH].
Qed.

Lemma zip3_first {A} (P : A → Prop) (a b c : list A) :
  Forall P a → Forall (λ t, P t.1.1) (zip3 a b c).
Proof.
  revert b c. induction a as [|x a IH]; intros [|y b] [|z c] H; cbn;
    try by constructor.
  inversion H; subst. constructor; [done|by apply IH].
Qed.

Section parser.
Context {reader : Reader} {cleaner : Cleaner}.

(** *** The reference count *)

Lemma units_to_consider_reference (segs glosses poses : list string) :
  units_to_consider segs glosses poses
  = reference_count get_main_morpheme (units_of segs glosses poses).
Proof.
  unfold units_to_consider, reference_count, first_nonempty, candidates,
    designated.
  destruct (String.eqb get_main_morpheme "segment");
    destruct segs, glosses, poses; reflexivity.
Qed.

(** *** The substitution of misaligned tiers *)

Lemma empty_if_misaligned_length len units :
  length (empty_if_misaligned len units) = len.
Proof.
  unfold empty_if_misaligned, list_mul.
  destruct (len =? length units) eqn:E; cbn.
  - by apply Nat.eqb_eq in E.
  - apply length_replicate.
Qed.

Lemma empty_if_misaligned_cases len units :
  (length units = len ∧ empty_if_misaligned len units = units)
  ∨ (length units ≠ len
     ∧ empty_if_misaligned len units = replicate len EmptyString).
Proof.
  unfold empty_if_misaligned, list_mul.
  destruct (len =? length units) eqn:E; cbn.
  - apply Nat.eqb_eq in E. by left.
  - apply Nat.eqb_neq in E. by right.
Qed.

Lemma empty_if_misaligned_empty len units :
  Forall (λ u, u = EmptyString) units →
  Forall (λ u, u = EmptyString) (empty_if_misaligned len units).
Proof.
  intros H. destruct (empty_if_misaligned_cases len units) as [[_ ->]|[_ ->]];
    [done|]. by apply Forall_replicate.
Qed.

(** *** Shape of the morphemes *)

Lemma word_morphemes_length w :
  length (word_morphemes w)
  = let '(segments, glosses, poses) := word_units w in
    units_to_consider segments glosses poses.
Proof.
  unfold word_morphemes. destruct (word_units w) as [[segments glosses] poses].
  rewrite length_fmap. apply zip3_length; apply empty_if_misaligned_length.
Qed.

Lemma aligned_words_length seg_tier gloss_tier pos_tier :
  length (aligned_words seg_tier gloss_tier pos_tier)
  = units_to_consider (get_seg_words (clean_seg_tier seg_tier))
      (get_gloss_words (clean_gloss_tier gloss_tier))
      (get_pos_words (clean_pos_tier pos_tier)).
Proof.
  unfold aligned_words. apply zip3_length; apply empty_if_misaligned_length.
Qed.

Lemma process_record_morphemes r :
  (process_record r).2
  = word_morphemes <$> record_aligned_words r.
Proof.
  unfold process_record, record_aligned_words.
  by destruct (cross_cleaned r) as [[[[a t] s] g] p].
Qed.

Lemma process_record_words r :
  (process_record r).1.2
  = collect_words (utterance_words r).1 (utterance_words r).2.
Proof.
  unfold process_record, utterance_words.
  by destruct (cross_cleaned r) as [[[[a t] s] g] p].
Qed.

Lemma process_record_utterance r :
  u_utterance (process_record r).1.1
  = or_none (join " " (word <$> (process_record r).1.2))
  ∧ u_warning (process_record r).1.1 = None.
Proof.
  unfold process_record.
  by destruct (cross_cleaned r) as [[[[a t] s] g] p].
Qed.

Lemma record_aligned_words_length r :
  length (record_aligned_words r) = reference_word_count r.
Proof.
  unfold record_aligned_words, reference_word_count, morpheme_words.
  destruct (cross_cleaned r) as [[[[a t] s] g] p].
  apply aligned_words_length.
Qed.

Lemma process_record_morphemes_length r :
  length (process_record r).2 = reference_word_count r.
Proof.
  by rewrite process_record_morphemes, length_fmap,
    record_aligned_words_length.
Qed.

Lemma process_record_morphemes_per_word r :
  Forall2 (λ w ms, length ms
                   = let '(segments, glosses, poses) := word_units w in
                     units_to_consider segments glosses poses)
    (record_aligned_words r) (process_record r).2.
Proof.
  rewrite process_record_morphemes. apply Forall2_fmap_r, Forall_Forall2_diag.
  apply Forall_forall. intros w _. apply word_morphemes_length.
Qed.

(** *** A tier replaced by empty strings gives empty fields *)

Lemma aligned_words_pos_empty seg_tier gloss_tier pos_tier :
  length (get_pos_words (clean_pos_tier pos_tier))
  ≠ units_to_consider (get_seg_words (clean_seg_tier seg_tier))
      (get_gloss_words (clean_gloss_tier gloss_tier))
      (get_pos_words (clean_pos_tier pos_tier)) →
  Forall (λ w, w.2 = EmptyString)
    (aligned_words seg_tier gloss_tier pos_tier).
Proof.
  intros H. unfold aligned_words.
  apply (zip3_third (λ u, u = EmptyString)).
  destruct (empty_if_misaligned_cases
              (units_to_consider (get_seg_words (clean_seg_tier seg_tier))
                 (get_gloss_words (clean_gloss_tier gloss_tier))
                 (get_pos_words (clean_pos_tier pos_tier)))
              (get_pos_words (clean_pos_tier pos_tier)))
    as [[? _]|[_ ->]]; [done|]. by apply Forall_replicate.
Qed.

Lemma aligned_words_gloss_empty seg_tier gloss_tier pos_tier :
  length (get_gloss_words (clean_gloss_tier gloss_tier))
  ≠ units_to_consider (get_seg_words (clean_seg_tier seg_tier))
      (get_gloss_words (clean_gloss_tier gloss_tier))
      (get_pos_words (clean_pos_tier pos_tier)) →
  Forall (λ w, w.1.2 = EmptyString)
    (aligned_words seg_tier gloss_tier pos_tier).
Proof.
  intros H. unfold aligned_words.
  apply (zip3_second (λ u, u = EmptyString)).
  destruct (empty_if_misaligned_cases
              (units_to_consider (get_seg_words (clean_seg_tier seg_tier))
                 (get_gloss_words (clean_gloss_tier gloss_tier))
                 (get_pos_words (clean_pos_tier pos_tier)))
              (get_gloss_words (clean_gloss_tier gloss_tier)))
    as [[? _]|[_ ->]]; [done|]. by apply Forall_replicate.
Qed.

Lemma aligned_words_seg_empty seg_tier gloss_tier pos_tier :
  length (get_seg_words (clean_seg_tier seg_tier))
  ≠ units_to_consider (get_seg_words (clean_seg_tier seg_tier))
      (get_gloss_words (clean_gloss_tier gloss_tier))
      (get_pos_words (clean_pos_tier pos_tier)) →
  Forall (λ w, w.1.1 = EmptyString)
    (aligned_words seg_tier gloss_tier pos_tier).
Proof.
  intros H. unfold aligned_words.
  apply (zip3_first (λ u, u = EmptyString)).
  destruct (empty_if_misaligned_cases
              (units_to_consider (get_seg_words (clean_seg_tier seg_tier))
                 (get_gloss_words (clean_gloss_tier gloss_tier))
                 (get_pos_words (clean_pos_tier pos_tier)))
              (get_seg_words (clean_seg_tier seg_tier)))
    as [[? _]|[_ ->]]; [done|]. by apply Forall_replicate.
Qed.

Lemma word_morphemes_pos_empty wseg wgloss :
  clean_pos_word EmptyString = EmptyString →
  Forall (λ p, p = EmptyString) (get_poses EmptyString) →
  clean_pos EmptyString = EmptyString →
  Forall (λ m, pos_raw m = None)
    (word_morphemes (wseg, wgloss, EmptyString)).
Proof.
  intros Hw Hget Hc. unfold word_morphemes, word_units. rewrite Hw.
  apply Forall_fmap.
  eapply Forall_impl;
    [apply (zip3_third (λ u, u = EmptyString)),
       empty_if_misaligned_empty, Hget|].
  intros [[seg gloss] pos]. cbn. intros ->. by rewrite Hc.
Qed.

Lemma word_morphemes_gloss_empty wseg wpos :
  clean_gloss_word EmptyString = EmptyString →
  Forall (λ p, p = EmptyString) (get_glosses EmptyString) →
  clean_gloss EmptyString = EmptyString →
  Forall (λ m, gloss_raw m = None)
    (word_morphemes (wseg, EmptyString, wpos)).
Proof.
  intros Hw Hget Hc. unfold word_morphemes, word_units. rewrite Hw.
  apply Forall_fmap.
  eapply Forall_impl;
    [apply (zip3_second (λ u, u = EmptyString)),
       empty_if_misaligned_empty, Hget|].
  intros [[seg gloss] pos]. cbn. intros ->. by rewrite Hc.
Qed.

Lemma word_morphemes_seg_empty wgloss wpos :
  clean_seg_word EmptyString = EmptyString →
  Forall (λ p, p = EmptyString) (get_segments EmptyString) →
  clean_segment EmptyString = EmptyString →
  Forall (λ m, morpheme m = None)
    (word_morphemes (EmptyString, wgloss, wpos)).
Proof.
  intros Hw Hget Hc. unfold word_morphemes, word_units. rewrite Hw.
  apply Forall_fmap.
  eapply Forall_impl;
    [apply (zip3_first (λ u, u = EmptyString)),
       empty_if_misaligned_empty, Hget|].
  intros [[seg gloss] pos]. cbn. intros ->. by rewrite Hc.
Qed.

(** *** The reference tier and the words that are paired with it *)

Lemma zip3_lookup {A} (a b c : list A) i x y z :
  zip3 a b c !! i = Some (x, y, z)
  ↔ a !! i = Some x ∧ b !! i = Some y ∧ c !! i = Some z.
Proof.
  revert b c i. induction a as [|x' a IH]; intros [|y' b] [|z' c] i;
    cbn [zip3]; rewrite ?lookup_nil;
    try (split; [done|by intros (? & ? & ?)]).
  destruct i as [|i]; cbn; [|apply IH].
  split; [by intros [= -> -> ->]|by intros ([= ->] & [= ->] & [= ->])].
Qed.

Lemma empty_if_misaligned_lookup len units i :
  empty_if_misaligned len units !! i
  = if length units =? len then units !! i
    else if i <? len then Some EmptyString else None.
Proof.
  destruct (empty_if_misaligned_cases len units) as [[E ->]|[E ->]].
  - by rewrite (proj2 (Nat.eqb_eq _ _) E).
  - rewrite (proj2 (Nat.eqb_neq _ _) E).
    destruct (Nat.ltb_spec i len).
    + by apply lookup_replicate_2.
    + by apply lookup_replicate_None.
Qed.

Lemma reference_word_count_tiers r :
  reference_word_count r = reference_count get_main_morpheme (tier_words r).
Proof.
  unfold reference_word_count, tier_words.
  destruct (morpheme_words r) as [[a b] c]. cbn [fst snd].
  apply units_to_consider_reference.
Qed.

Lemma record_aligned_words_lookup r i ws wg wp :
  record_aligned_words r !! i = Some (ws, wg, wp)
  ↔ paired_word r Segment i = Some ws
    ∧ paired_word r Gloss i = Some wg
    ∧ paired_word r POS i = Some wp.
Proof.
  unfold paired_word, tier_words, record_aligned_words, reference_word_count,
    morpheme_words.
  destruct (cross_cleaned r) as [[[[a t] s] g] p]. cbn [fst snd units_of].
  unfold aligned_words. cbv zeta.
  by rewrite zip3_lookup, !empty_if_misaligned_lookup.
Qed.

Lemma first_nonempty_spec {A} main (a b c : list A) t :
  first_nonempty (units_of a b c) (candidates main) = Some t
  ↔ Forall (λ t', units_of a b c t' = []) (before t (candidates main))
    ∧ units_of a b c t ≠ [].
Proof.
  unfold first_nonempty, candidates, designated.
  destruct (String.eqb main "segment"), t, a, b, c; vm_compute;
    (split; [intros H|intros [H1 H2]]);
    try discriminate; try reflexivity;
    try (exfalso; apply H2; reflexivity);
    try (split; [repeat constructor|discriminate]).
  all: try (inversion H1; subst; discriminate).
  all: inversion H1 as [|? ? ? H3]; subst; inversion H3; subst; discriminate.
Qed.

Lemma reference_tier_count r t :
  reference_tier r = Some t →
  reference_word_count r = length (tier_words r t)
  ∧ tier_words r t ≠ []
  ∧ Forall (λ t', tier_words r t' = [])
      (before t (candidates get_main_morpheme)).
Proof.
  intros H. rewrite reference_word_count_tiers.
  unfold reference_count. unfold reference_tier in H. rewrite H.
  unfold tier_words in *. apply first_nonempty_spec in H as [H1 H2].
  done.
Qed.

Lemma paired_word_some r t i :
  i < reference_word_count r → ∃ w, paired_word r t i = Some w.
Proof.
  intros Hi. unfold paired_word.
  destruct (Nat.eqb_spec (length (tier_words r t)) (reference_word_count r))
    as [E|E].
  - apply lookup_lt_is_Some_2. by rewrite E.
  - rewrite (proj2 (Nat.ltb_lt _ _) Hi). eauto.
Qed.

Lemma word_morphemes_count ws wg wp :
  length (word_morphemes (ws, wg, wp))
  = reference_count get_main_morpheme
      (units_of (tier_morphemes Segment ws) (tier_morphemes Gloss wg)
         (tier_morphemes POS wp)).
Proof.
  rewrite word_morphemes_length. unfold word_units, tier_morphemes.
  apply units_to_consider_reference.
Qed.

(** The entry of a word has as many morphemes as the reference tier has
    for the word, when the tier has one at least and the tiers before it
    have none for the empty string. *)
Lemma entry_follows_reference_tier r t i w :
  reference_tier r = Some t →
  Forall (λ t', tier_morphemes t' EmptyString = [])
    (before t (candidates get_main_morpheme)) →
  tier_words r t !! i = Some w →
  tier_morphemes t w ≠ [] →
  ∃ ms, (process_record r).2 !! i = Some ms
        ∧ length ms = length (tier_morphemes t w).
Proof.
  intros (Hlen & Hne & Hbefore)%reference_tier_count Hempty Hw Hm.
  assert (i < reference_word_count r) as Hi
    by (rewrite Hlen; by eapply lookup_lt_Some).
  assert (paired_word r t i = Some w) as Ht.
  { unfold paired_word. by rewrite Hlen, Nat.eqb_refl. }
  assert (∀ t', t' ∈ before t (candidates get_main_morpheme) →
                paired_word r t' i = Some EmptyString) as Hb.
  { intros t' Ht'. rewrite Forall_forall in Hbefore.
    unfold paired_word. rewrite (Hbefore t' Ht'). cbn [length].
    destruct (Nat.eqb_spec 0 (reference_word_count r)) as [E|_]; [lia|].
    by rewrite (proj2 (Nat.ltb_lt _ _) Hi). }
  destruct (paired_word_some r Segment i Hi) as [ws Hs].
  destruct (paired_word_some r Gloss i Hi) as [wg Hg].
  destruct (paired_word_some r POS i Hi) as [wp Hp].
  exists (word_morphemes (ws, wg, wp)). split.
  { rewrite process_record_morphemes, list_lookup_fmap.
    by rewrite (proj2 (record_aligned_words_lookup r i ws wg wp)). }
  rewrite word_morphemes_count. unfold reference_count.
  assert (first_nonempty
            (units_of (tier_morphemes Segment ws) (tier_morphemes Gloss wg)
               (tier_morphemes POS wp)) (candidates get_main_morpheme)
          = Some t) as ->.
  { apply first_nonempty_spec. split.
    - apply Forall_forall. intros t' Ht'.
      pose proof (Hb t' Ht') as Hb'. rewrite Forall_forall in Hempty.
      pose proof (Hempty t' Ht') as He.
      destruct t'; cbn [units_of]; congruence.
    - destruct t; cbn [units_of]; congruence. }
  destruct t; cbn [units_of]; congruence.
Qed.


(** *** The claims about [next_utterance] *)


(** C10. The words of a record are built from the pairs of
    [zip(actual_words, target_words)]: there are as many as the shorter
    of the two lists has, word [i] is made of the actual and the target
    word at position [i], the words of the longer list beyond that are
    left out, and the cleaned utterance is the join of the words that
    were built (None when that is the empty string). *)
Theorem words_zip_truncation (r : record) :
  let actual_words := (utterance_words r).1 in
  let target_words := (utterance_words r).2 in
  let n := Nat.min (length actual_words) (length target_words) in
  let words := (process_record r).1.2 in
  length words = n
  ∧ words = make_word <$> zip (take n actual_words) (take n target_words)
  ∧ (∀ i, words !! i
          = match actual_words !! i, target_words !! i with
            | Some word_actual, Some word_target =>
                Some (make_word (word_actual, word_target))
            | _, _ => None
            end)
  ∧ u_utterance (process_record r).1.1
    = or_none (join " " (word <$> words)).
Proof.
  cbn zeta. split_and!.
  - rewrite process_record_words. unfold collect_words.
    by rewrite length_fmap, zip_length_min.
  - rewrite process_record_words. unfold collect_words.
    by rewrite <- zip_take.
  - intros i. rewrite process_record_words. unfold collect_words.
    rewrite list_lookup_fmap, zip_lookup.
    by destruct ((utterance_words r).1 !! i),
                ((utterance_words r).2 !! i).
  - apply process_record_utterance.
Qed.

(** C2, as the code has it.  When the words of a tier do not number as
    the reference count says, the tier is replaced by empty strings:
    provided the cleaner and the reader make nothing but empty strings
    of the empty string, every morpheme of the record has None in the
    field of that tier.  The morphemes still have one entry per unit of
    the reference count, and the warning of the utterance is None: the
    mismatch is neither raised nor recorded. *)
Theorem mismatch_substitution (r : record) :
  (clean_pos_word EmptyString = EmptyString →
   Forall (λ p, p = EmptyString) (get_poses EmptyString) →
   clean_pos EmptyString = EmptyString →
   length (morpheme_words r).2 ≠ reference_word_count r →
   Forall (Forall (λ m, pos_raw m = None)) (process_record r).2)
  ∧ (clean_gloss_word EmptyString = EmptyString →
     Forall (λ p, p = EmptyString) (get_glosses EmptyString) →
     clean_gloss EmptyString = EmptyString →
     length (morpheme_words r).1.2 ≠ reference_word_count r →
     Forall (Forall (λ m, gloss_raw m = None)) (process_record r).2)
  ∧ (clean_seg_word EmptyString = EmptyString →
     Forall (λ p, p = EmptyString) (get_segments EmptyString) →
     clean_segment EmptyString = EmptyString →
     length (morpheme_words r).1.1 ≠ reference_word_count r →
     Forall (Forall (λ m, morpheme m = None)) (process_record r).2)
  ∧ length (process_record r).2 = reference_word_count r
  ∧ u_warning (process_record r).1.1 = None.
Proof.
  rewrite process_record_morphemes.
  unfold reference_word_count, morpheme_words, record_aligned_words.
  destruct (cross_cleaned r) as [[[[a t] s] g] p] eqn:E.
  cbn [fst snd]. split_and!.
  - intros Hw Hget Hc Hlen. apply Forall_fmap.
    eapply Forall_impl; [by apply aligned_words_pos_empty|].
    intros [[ws wg] wp]. cbn. intros ->.
    by apply word_morphemes_pos_empty.
  - intros Hw Hget Hc Hlen. apply Forall_fmap.
    eapply Forall_impl; [by apply aligned_words_gloss_empty|].
    intros [[ws wg] wp]. cbn. intros ->.
    by apply word_morphemes_gloss_empty.
  - intros Hw Hget Hc Hlen. apply Forall_fmap.
    eapply Forall_impl; [by apply aligned_words_seg_empty|].
    intros [[ws wg] wp]. cbn. intros ->.
    by apply word_morphemes_seg_empty.
  - rewrite length_fmap. apply aligned_words_length.
  - apply process_record_utterance.
Qed.

(** C1, as the code has it.  The morphemes follow the reference tier in
    the number of their entries: one entry per word of the reference
    tier, the first tier for which the reader returns a word among the
    designated tier and then the segment, the gloss and the POS tier.
    The entry of a word has as many morphemes as the reference tier has
    for that word when the tier has one at least for it and the reader
    returns none for the empty string on the tiers that stand before the
    reference tier (there is no such tier when the reference tier is the
    designated one); in every case it has as many as the count of the
    morpheme lists of the word says.  A list of units whose length
    differs from the count is replaced by a list of that many empty
    strings and is otherwise left as it is.  The words do not follow the
    reference tier: there are as many as the shorter of the actual and
    the target form has.  In [toolbox.py] the morphemes that are returned
    have one entry per word of the gloss tier, with as many morphemes as
    the gloss word has; a tier of another shape is replaced by that many
    empty words when the utterance has a source id, and [KeyError] is
    raised when it has none; the words are as many as the utterance has,
    or as the morphemes have entries when these are more (empty words
    are appended). *)
Theorem morphemes_follow_reference_tier (r : record) :
  length (process_record r).2 = reference_word_count r
  ∧ reference_word_count r
    = match reference_tier r with
      | Some t => length (tier_words r t)
      | None => 0
      end
  ∧ (∀ t i w,
       reference_tier r = Some t →
       Forall (λ t', tier_morphemes t' EmptyString = [])
         (before t (candidates get_main_morpheme)) →
       tier_words r t !! i = Some w →
       tier_morphemes t w ≠ [] →
       ∃ ms, (process_record r).2 !! i = Some ms
             ∧ length ms = length (tier_morphemes t w))
  ∧ Forall2 (λ w ms, length ms
                     = let '(segments, glosses, poses) := word_units w in
                       units_to_consider segments glosses poses)
      (record_aligned_words r) (process_record r).2
  ∧ (∀ len units,
       (length units = len ∧ empty_if_misaligned len units = units)
       ∨ (length units ≠ len
          ∧ empty_if_misaligned len units = replicate len EmptyString))
  ∧ length (process_record r).1.2
    = Nat.min (length (utterance_words r).1)
              (length (utterance_words r).2)
  ∧ (∀ config_type warnings source_id morphemes glosses poses langs,
       (∀ result,
          Toolbox.get_morphemes_tail config_type warnings source_id
            morphemes glosses poses langs = Ok result →
          length result = length glosses
          ∧ (∀ i l, result !! i = Some l →
                    ∃ g, glosses !! i = Some g ∧ length l = length g)
          ∧ (∀ words,
               length (Toolbox.make_rec_tail words result).1
               = Nat.max (length words) (length glosses)
               ∧ (Toolbox.make_rec_tail words result).2 = result))
       ∧ (∀ t tr,
            Toolbox.checked_tier source_id glosses t = Ok tr →
            length <$> tr = length <$> glosses
            ∨ tr = replicate (length glosses) [])
       ∧ (source_id ≠ None →
          ∃ result,
            Toolbox.get_morphemes_tail config_type warnings source_id
              morphemes glosses poses langs = Ok result)
       ∧ (source_id = None →
          Toolbox.struct_eqv (Toolbox.tier_obj morphemes)
            (Toolbox.tier_obj glosses) = false
          ∨ Toolbox.struct_eqv (Toolbox.tier_obj poses)
              (Toolbox.tier_obj glosses) = false
          ∨ Toolbox.struct_eqv (Toolbox.tier_obj langs)
              (Toolbox.tier_obj glosses) = false →
          Toolbox.get_morphemes_tail config_type warnings source_id
            morphemes glosses poses langs = Raised)).
Proof.
  split_and!.
  - apply process_record_morphemes_length.
  - by rewrite reference_word_count_tiers.
  - intros t i w. apply entry_follows_reference_tier.
  - apply process_record_morphemes_per_word.
  - apply empty_if_misaligned_cases.
  - rewrite process_record_words. unfold collect_words.
    by rewrite length_fmap, zip_length_min.
  - intros config_type warnings source_id morphemes glosses poses langs.
    split_and!.
    + intros result Hr. split_and!.
      * by eapply ToolboxFacts.get_morphemes_tail_length.
      * intros i l. by eapply ToolboxFacts.get_morphemes_tail_lookup.
      * intros words. split; [|done].
        rewrite ToolboxFacts.make_rec_tail_words_length.
        by rewrite (ToolboxFacts.get_morphemes_tail_length _ _ _ _ _ _ _ _ Hr).
    + intros t tr. apply ToolboxFacts.checked_tier_shape.
    + destruct source_id as [s|]; [intros _|done].
      apply ToolboxFacts.get_morphemes_tail_present.
    + intros ->. apply ToolboxFacts.get_morphemes_tail_absent.
Qed.

End parser.

(** *** The sample records *)

(** Scenario C: three words on the segment and the gloss tier, two on the POS
    tier. *)
Lemma mismatch_substitution_sample :
  let r := sample_record "a b c" "s1 s2 s3" "g1 g2 g3" "P1 P2" in
  length (morpheme_words (reader := sample_reader)
            (cleaner := plain_cleaner) r).2 = 2
  ∧ reference_word_count (reader := sample_reader)
      (cleaner := plain_cleaner) r = 3
  ∧ Forall (Forall (λ m, pos_raw m = None))
      (process_record (reader := sample_reader)
         (cleaner := plain_cleaner) r).2.
Proof.
  intros r. split_and!; [reflexivity..|].
  pose proof (mismatch_substitution (reader := sample_reader)
                (cleaner := plain_cleaner) r) as (H & _).
  apply H; [reflexivity| |reflexivity|].
  - repeat constructor.
  - vm_compute. discriminate.
Defined.

(** Scenario C: the utterance carries no warning. *)
Lemma mismatch_leaves_no_warning :
  let r := sample_record "a b c" "s1 s2 s3" "g1 g2 g3" "P1 P2" in
  length (morpheme_words (reader := sample_reader)
            (cleaner := plain_cleaner) r).2
  ≠ reference_word_count (reader := sample_reader)
      (cleaner := plain_cleaner) r
  ∧ ¬ ∃ w, u_warning (process_record (reader := sample_reader)
                        (cleaner := plain_cleaner) r).1.1 = Some w.
Proof.
  intros r. split; [vm_compute; discriminate|].
  intros [w Hw]. vm_compute in Hw. discriminate Hw.
Qed.

(** An utterance of two words over tiers of one word: two words and one
    entry of morphemes, in the CHAT parser and in the Toolbox parser.  A
    record whose only tier is the POS tier: the second word of that tier
    has two morphemes, its entry has one, taken from the empty string
    that stands for the gloss tier. *)
Lemma words_not_tied_to_reference_tier :
  (let r := sample_record "a b" "x" "x" "x" in
   length (process_record (reader := sample_reader)
             (cleaner := plain_cleaner) r).1.2
   ≠ reference_word_count (reader := sample_reader)
       (cleaner := plain_cleaner) r)
  ∧ (let glosses := [[Some "x"]] in
     let words :=
       [Toolbox.WordDict (Some "a") (Some "a") None None;
        Toolbox.WordDict (Some "b") (Some "b") None None] in
     ∃ morphemes,
       Toolbox.get_morphemes_tail "target" [] (Some (Some "u1"))
         [[Some "x"]] glosses [[Some "N"]] [[Some "Russian"]]
       = Ok morphemes
       ∧ length (Toolbox.make_rec_tail words morphemes).1 ≠ length glosses)
  ∧ (let r := sample_record "a b" EmptyString EmptyString "P1 P2-Q" in
     reference_tier (reader := sample_reader) (cleaner := plain_cleaner) r
     = Some POS
     ∧ tier_words (reader := sample_reader) (cleaner := plain_cleaner) r
         POS !! 1 = Some "P2-Q"
     ∧ length (tier_morphemes (reader := sample_reader)
                 (cleaner := plain_cleaner) POS "P2-Q") = 2
     ∧ (process_record (reader := sample_reader)
          (cleaner := plain_cleaner) r).2 !! 1
       = Some [MorphemeDict None None None None]).
Proof.
  split_and!.
  - vm_compute. discriminate.
  - eexists. split; [vm_compute; reflexivity|vm_compute; discriminate].
  - by vm_compute.
Qed.

(** A record of three tiers whose gloss tier is designated: the entry of
    the first word has the two morphemes of the gloss word. *)
Lemma morphemes_follow_reference_tier_sample :
  let r := sample_record "a b" "s1 s2" "g1-h g2" "P1 P2" in
  ∃ ms, (process_record (reader := sample_reader)
           (cleaner := plain_cleaner) r).2 !! 0 = Some ms
        ∧ length ms = 2.
Proof.
  intros r.
  pose proof (morphemes_follow_reference_tier (reader := sample_reader)
                (cleaner := plain_cleaner) r) as (_ & _ & H & _).
  apply (H Gloss 0 "g1-h").
  - reflexivity.
  - vm_compute. constructor.
  - reflexivity.
  - vm_compute. discriminate.
Defined.

End CHATFacts.

(** * Further properties of the code *)

(** ** Word and segment cleaning of the Turkish corpus *)

Module UnitFacts.
Import Py Str TurkishCleaner TurkishUnits PyFacts.

Lemma re_sub_literal_start old new k b s :
  re_sub (literal old new) k b s = re_sub (literal old new) k false s.
Proof. destruct s as [|c s]; [done|]. by destruct k. Qed.

Lemma replace_plus_String c s :
  replace_plus (String c s)
  = String (if Ascii.eqb c "+" then "_"%char else c) (replace_plus s).
Proof.
  unfold replace_plus, replace. cbn [re_sub]. unfold literal at 1.
  cbn [startswith]. rewrite Ascii.eqb_sym.
  destruct (Ascii.eqb c "+"); cbn.
  - by rewrite app_String, app_empty, (re_sub_literal_start _ _ _ true).
  - by rewrite (re_sub_literal_start _ _ _ true).
Qed.

Lemma replace_plus_no_plus unit : has_char "+" (replace_plus unit) = false.
Proof.
  induction unit as [|c s IH]; [done|].
  rewrite replace_plus_String. cbn [has_char]. rewrite IH.
  destruct (Ascii.eqb c "+") eqn:E; [done|].
  by rewrite Ascii.eqb_sym, E.
Qed.

Lemma replace_plus_id unit : has_char "+" unit = false → replace_plus unit = unit.
Proof.
  induction unit as [|c s IH]; [done|].
  cbn [has_char]. rewrite replace_plus_String, (Ascii.eqb_sym "+" c).
  destruct (Ascii.eqb c "+"); [done|]. intros H. by rewrite IH.
Qed.

Lemma is_join_sep_replaced c :
  is_join_sep (if Ascii.eqb c "+" then "_"%char else c) = is_join_sep c.
Proof.
  unfold is_join_sep. destruct (Ascii.eqb c "+") eqn:E.
  - by apply Ascii.eqb_eq in E as ->.
  - by rewrite E.
Qed.

Lemma replace_plus_pieces unit :
  split_on is_join_sep (replace_plus unit) = split_on is_join_sep unit.
Proof.
  induction unit as [|c s IH]; [done|].
  rewrite replace_plus_String. cbn [split_on].
  rewrite is_join_sep_replaced, IH.
  destruct (is_join_sep c) eqn:E; [done|].
  destruct (Ascii.eqb c "+") eqn:E'; [|done].
  unfold is_join_sep in E. by rewrite E' in E.
Qed.

(** X1. [replace_plus] (and with it [clean_segment]) leaves no plus, changes
    nothing else than the pluses, and keeps the stems of a complex. *)
Theorem replace_plus_normalizes (unit : string) :
  has_char "+" (replace_plus unit) = false
  ∧ String.length (replace_plus unit) = String.length unit
  ∧ split_on is_join_sep (replace_plus unit) = split_on is_join_sep unit
  ∧ joined (replace_plus unit) = joined unit
  ∧ replace_plus (replace_plus unit) = replace_plus unit
  ∧ clean_segment (clean_segment unit) = clean_segment unit
  ∧ (has_char "+" unit = false ↔ replace_plus unit = unit).
Proof.
  split_and!.
  - apply replace_plus_no_plus.
  - induction unit as [|c s IH]; [done|].
    rewrite replace_plus_String. cbn. by rewrite IH.
  - apply replace_plus_pieces.
  - unfold joined. rewrite replace_plus_no_plus, orb_false_r.
    induction unit as [|c s IH]; [done|].
    rewrite replace_plus_String.
    destruct (Ascii.eqb_spec c "+") as [->|H1].
    { cbn. by rewrite orb_true_r. }
    cbn [has_char]. rewrite IH.
    destruct (Ascii.eqb_spec "_" c) as [|H2]; [done|].
    by destruct (Ascii.eqb_spec "+" c) as [<-|H3].
  - apply replace_plus_id, replace_plus_no_plus.
  - apply replace_plus_id, replace_plus_no_plus.
  - split; [apply replace_plus_id|].
    intros <-. apply replace_plus_no_plus.
Qed.

End UnitFacts.

(** ** Untranscribed material in the Toolbox parser *)

Module GarbageFacts.
Import Py Str Toolbox PyFacts UntranscribedFacts.

Lemma startswith_String a p c s :
  startswith (String a p) (String c s)
  = if Ascii.eqb a c then startswith p s else false.
Proof. done. Qed.

(** A prefix of the result that holds no question mark was copied. *)
Lemma garbage_head p :
  ∀ s b, has_char "?" p = false →
         startswith p (re_sub garbage_pattern 0 b s) = true →
         startswith p s = true.
Proof.
  induction p as [|a p IH]; intros s b Hp H; [by destruct s|].
  cbn [has_char] in Hp.
  destruct (Ascii.eqb "?" a) eqn:Ea; [done|].
  destruct s as [|c s]; [done|].
  cbn [re_sub] in H. unfold garbage_pattern in H.
  destruct (garbage_here (String c s)) as [n|].
  - rewrite app_String, startswith_String, Ascii.eqb_sym, Ea in H. done.
  - rewrite startswith_String in H |- *.
    destruct (Ascii.eqb a c); [|done]. by eapply IH.
Qed.

Lemma garbage_here_cases s :
  garbage_here s
  = if startswith "xx" s || startswith "www" s || startswith "***" s
    then garbage_here s else None.
Proof.
  unfold garbage_here.
  by destruct (startswith "xx" s), (startswith "www" s),
    (startswith "***" s).
Qed.

Lemma garbage_here_some s :
  startswith "xx" s || startswith "www" s || startswith "***" s = true →
  ∃ n, garbage_here s = Some n.
Proof.
  unfold garbage_here.
  destruct (startswith "xx" s), (startswith "xxx" s), (startswith "www" s),
    (startswith "***" s); intros; by eauto.
Qed.

Lemma garbage_start s b p :
  p = "xx" ∨ p = "www" ∨ p = "***" →
  startswith p (re_sub garbage_pattern 0 b s) = false.
Proof.
  intros Hp. destruct (startswith p _) eqn:E; [|done].
  assert (has_char "?" p = false) as Hq by (by destruct Hp as [->|[->| ->]]).
  pose proof (garbage_head p s b Hq E) as Hs.
  destruct (garbage_here_some s) as [n Hn].
  { destruct Hp as [->|[->| ->]]; rewrite Hs; by rewrite ?orb_true_r. }
  destruct s as [|c s]; [by destruct Hp as [->|[->| ->]]|].
  cbn [re_sub] in E. unfold garbage_pattern in E. rewrite Hn in E.
  by destruct Hp as [->|[->| ->]].
Qed.

Lemma contains_marker p t :
  p = "xx" ∨ p = "www" ∨ p = "***" →
  contains p ("???" +:+ t) = contains p t.
Proof.
  intros Hp.
  assert (∀ u, contains p (String "?" u) = contains p u) as H.
  { intros u. rewrite (contains_unfold p (String "?" u)).
    by destruct Hp as [->|[->| ->]]. }
  by rewrite !app_String, app_empty, !H.
Qed.

Lemma garbage_gone_bounded p len :
  p = "xx" ∨ p = "www" ∨ p = "***" →
  ∀ s b, String.length s ≤ len →
         contains p (re_sub garbage_pattern 0 b s) = false.
Proof.
  intros Hp. induction len as [|len IH]; intros s b Hlen.
  { destruct s; [|cbn in Hlen; lia]. by destruct Hp as [->|[->| ->]]. }
  destruct s as [|c s]; [by destruct Hp as [->|[->| ->]]|].
  cbn in Hlen.
  pose proof (garbage_start (String c s) b p Hp) as Hst.
  cbn [re_sub] in Hst |- *. unfold garbage_pattern in Hst |- *.
  destruct (garbage_here (String c s)) as [n|].
  - rewrite contains_marker, re_sub_skip by done.
    apply IH. pose proof (slice_from_length (n - 1) s). lia.
  - rewrite contains_unfold, Hst. apply IH. lia.
Qed.

Lemma garbage_free_fixed s :
  contains "xx" s = false → contains "www" s = false →
  contains "***" s = false →
  ∀ b, re_sub garbage_pattern 0 b s = s.
Proof.
  induction s as [|c s IH]; intros H1 H2 H3 b; [done|].
  rewrite contains_unfold in H1, H2, H3.
  apply orb_false_elim in H1 as [H1 H1'].
  apply orb_false_elim in H2 as [H2 H2'].
  apply orb_false_elim in H3 as [H3 H3'].
  cbn [re_sub]. unfold garbage_pattern.
  rewrite garbage_here_cases, H1, H2, H3. cbn [orb].
  by rewrite IH.
Qed.

(** X2. The first substitution of [clean_utterance], which is also the one
    [get_words] applies to a word: the result holds none of the three
    patterns, so that a second application changes nothing. *)
Theorem unify_garbage_settles (utterance : string) :
  contains "xx" (unify_garbage utterance) = false
  ∧ contains "www" (unify_garbage utterance) = false
  ∧ contains "***" (unify_garbage utterance) = false
  ∧ unify_garbage (unify_garbage utterance) = unify_garbage utterance
  ∧ (contains "xx" utterance = false → contains "www" utterance = false →
     contains "***" utterance = false → unify_garbage utterance = utterance).
Proof.
  assert (∀ p, p = "xx" ∨ p = "www" ∨ p = "***" →
               contains p (unify_garbage utterance) = false) as H.
  { intros p Hp. by eapply garbage_gone_bounded. }
  split_and!; try (apply H; by eauto).
  - apply garbage_free_fixed; apply H; by eauto.
  - intros. by apply garbage_free_fixed.
Qed.

End GarbageFacts.

(** ** What the cross tier cleaning keeps *)

Module RepairFacts.
Import Py Str TurkishCleaner Spec Laws PyFacts TurkishFacts.

Lemma letters_app (a b : string) : letters (a +:+ b) = letters a +:+ letters b.
Proof.
  induction a as [|c a IH]; [by rewrite !app_empty|].
  rewrite app_String. cbn [letters]. by rewrite IH, app_String.
Qed.

Lemma letters_length s : String.length (letters s) = String.length s.
Proof. induction s as [|c s IH]; [done|]. cbn. by rewrite IH. Qed.

(** The text of a list of words behind a first word. *)
Lemma join_behind sep x l : join sep (x :: l) = x +:+ join sep (EmptyString :: l).
Proof.
  destruct l as [|y l]; cbn [join].
  - clear. induction x as [|c x IH]; [done|]. by rewrite app_String, <- IH.
  - by rewrite app_empty.
Qed.

Lemma join_app_behind sep l l' :
  l ≠ [] → join sep (l ++ l') = join sep l +:+ join sep (EmptyString :: l').
Proof.
  induction l as [|x l IH]; [done|]. intros _.
  destruct l as [|y l]; [apply join_behind|].
  specialize (IH ltac:(done)). cbn [app] in IH |- *.
  by rewrite !join_cons, IH, !app_assoc'.
Qed.

Lemma letters_behind x l l' :
  letters (join " " (x :: l)) = letters (join " " (x :: l')) ↔
  letters (join " " (EmptyString :: l))
  = letters (join " " (EmptyString :: l')).
Proof.
  rewrite (join_behind _ x l), (join_behind _ x l'), !letters_app.
  split; [|by intros ->].
  induction (letters x) as [|c s IH]; [by rewrite !app_empty|].
  rewrite !app_String. intros [=]. by apply IH.
Qed.

Lemma plain_join_sep c : is_join_sep c = true → plain c = " "%char.
Proof. unfold plain. intros ->. by rewrite orb_true_r. Qed.

Lemma letters_pieces w :
  letters (join " " (split_on is_join_sep w)) = letters w.
Proof.
  induction w as [|c w IH]; [done|]. cbn [split_on].
  pose proof (split_on_nonempty is_join_sep w) as Hne.
  destruct (is_join_sep c) eqn:E.
  - destruct (split_on is_join_sep w) as [|y l]; [done|].
    rewrite join_cons, app_empty, app_String, app_empty.
    cbn [letters]. rewrite IH, (plain_join_sep c) by done. reflexivity.
  - destruct (split_on is_join_sep w) as [|y l]; [done|].
    rewrite join_String. cbn [letters]. by rewrite IH.
Qed.

Lemma letters_merged mwords :
  ∀ wwords x,
    letters (join " " (x :: merged wwords mwords))
    = letters (join " " (x :: wwords)).
Proof.
  induction mwords as [|m mwords IH]; intros wwords x; [done|].
  destruct wwords as [|w [|n wwords]]; [done..|].
  cbn [merged].
  destruct (joined m && negb (joined w) && contains (slice_to 2 w) m
            && contains (slice_to 2 n) m).
  - rewrite !(join_cons _ x), !letters_app. f_equal. f_equal.
    rewrite IH, join_cons, (join_behind _ (w +:+ "_" +:+ n)),
      (join_behind _ n), !letters_app.
    by rewrite <- !app_assoc'.
  - destruct (merged (n :: wwords) mwords) as [|r rs] eqn:E.
    { by pose proof (merged_nonempty (n :: wwords) mwords ltac:(done)). }
    rewrite !(join_cons _ x), !letters_app. f_equal. f_equal.
    rewrite <- E. apply IH.
Qed.

Lemma wword_pieces_letters m w :
  wword_pieces m w ≠ []
  ∧ letters (join " " (wword_pieces m w)) = letters w.
Proof.
  split; [apply wword_pieces_nonempty|].
  unfold wword_pieces.
  destruct (search_double_pos m); [|done].
  destruct (joined w); [|done]. apply letters_pieces.
Qed.

Lemma letters_separated fuel :
  ∀ wwords mwords x,
    letters (join " " (x :: (separated fuel wwords mwords).1))
    = letters (join " " (x :: wwords)).
Proof.
  induction fuel as [|fuel IH]; intros wwords mwords x; [done|].
  destruct wwords as [|w ws]; [done|].
  destruct mwords as [|m ms]; [done|].
  rewrite separated_S.
  destruct (wword_pieces_letters m w) as [Hne Hl].
  pose proof (mword_pieces_nonempty m) as Hne'.
  destruct (wword_pieces m w) as [|q qs] eqn:Eq; [done|].
  destruct (mword_pieces m) as [|p ps]; [done|].
  specialize (IH (qs ++ ws) (ps ++ ms) q).
  destruct (separated fuel (qs ++ ws) (ps ++ ms)) as [rw rm].
  cbn [fst] in IH |- *.
  rewrite !(join_cons _ x), !letters_app. f_equal. f_equal.
  rewrite IH.
  change (q :: qs ++ ws) with ((q :: qs) ++ ws).
  rewrite join_app_behind, (join_behind _ w), !letters_app by done.
  by rewrite Hl.
Qed.

Lemma letters_front l l' :
  l ≠ [] → l' ≠ [] →
  letters (join " " (EmptyString :: l))
  = letters (join " " (EmptyString :: l')) →
  letters (join " " l) = letters (join " " l').
Proof.
  destruct l as [|y l], l' as [|y' l']; try done. intros _ _.
  rewrite !join_cons, !app_empty, !app_String, !app_empty.
  cbn [letters]. by intros [=].
Qed.

Lemma separated_nonempty fuel wwords mwords :
  wwords ≠ [] → (separated fuel wwords mwords).1 ≠ [].
Proof.
  destruct fuel as [|fuel]; [done|].
  destruct wwords as [|w ws]; [done|]. intros _.
  destruct mwords as [|m ms]; [done|].
  rewrite separated_S.
  destruct (wword_pieces m w) as [|q qs]; [done|].
  destruct (mword_pieces m) as [|p ps]; [done|].
  by destruct (separated fuel (qs ++ ws) (ps ++ ms)).
Qed.

Lemma single_morph_word_letters utterance morph_tier :
  ∃ utterance',
    single_morph_word utterance morph_tier = Ok (utterance', morph_tier)
    ∧ letters utterance' = letters utterance.
Proof.
  rewrite single_morph_word_spec. eexists; split; [done|].
  rewrite <- (join_split utterance) at 2.
  apply letters_front, letters_merged.
  - apply merged_nonempty, split_on_nonempty.
  - apply split_on_nonempty.
Qed.

Lemma separate_morph_word_letters utterance morph_tier :
  ∃ utterance' morph_tier',
    separate_morph_word utterance morph_tier = Ok (utterance', morph_tier')
    ∧ letters utterance' = letters utterance.
Proof.
  rewrite separate_morph_word_spec. eexists _, _; split; [done|].
  rewrite <- (join_split utterance) at 2.
  apply letters_front, letters_separated.
  - apply separated_nonempty, split_on_nonempty.
  - apply split_on_nonempty.
Qed.

(** X3. [cross_clean] never raises, returns one morphology tier three times,
    and changes the two utterances at their separators only: blanks,
    underscores and pluses may turn into one another, every other
    character stays where it is. *)
Theorem cross_clean_keeps_letters
    (actual_utt target_utt seg_tier gloss_tier pos_tier : string) :
  ∃ actual_utt' target_utt' mor_tier,
    cross_clean actual_utt target_utt seg_tier gloss_tier pos_tier
    = Ok (actual_utt', target_utt', mor_tier, mor_tier, mor_tier)
    ∧ letters actual_utt' = letters actual_utt
    ∧ letters target_utt' = letters target_utt
    ∧ String.length actual_utt' = String.length actual_utt
    ∧ String.length target_utt' = String.length target_utt.
Proof.
  unfold cross_clean.
  destruct (single_morph_word_letters actual_utt seg_tier) as (a1 & -> & H1).
  cbn [mbind res_bind bind].
  destruct (separate_morph_word_letters a1 seg_tier) as (a2 & m2 & -> & H2).
  cbn [mbind res_bind bind].
  destruct (single_morph_word_letters target_utt m2) as (t1 & -> & H3).
  cbn [mbind res_bind bind].
  destruct (separate_morph_word_letters t1 m2) as (t2 & m3 & -> & H4).
  cbn [mbind res_bind bind].
  eexists _, _, _. split; [done|].
  assert (letters a2 = letters actual_utt) as Ha by congruence.
  assert (letters t2 = letters target_utt) as Ht by congruence.
  split_and!; [done..| |].
  - by rewrite <- (letters_length a2), Ha, letters_length.
  - by rewrite <- (letters_length t2), Ht, letters_length.
Qed.

(** *** A complex of separate morphological words *)

Lemma count_char_app a (x y : string) :
  count_char a (x +:+ y) = count_char a x + count_char a y.
Proof.
  induction x as [|c x IH]; [by rewrite app_empty|].
  rewrite app_String. cbn [count_char]. rewrite IH. lia.
Qed.

Lemma eq_char_eqb a c : eq_char a c = Ascii.eqb a c.
Proof. apply Ascii.eqb_sym. Qed.

Lemma count_char_none a s : has_char a s = false → count_char a s = 0.
Proof.
  induction s as [|c s IH]; [done|]. cbn [has_char count_char].
  rewrite eq_char_eqb.
  destruct (Ascii.eqb a c); [done|]. intros H. by rewrite IH.
Qed.

Lemma count_char_some a s : has_char a s = true → 1 ≤ count_char a s.
Proof.
  induction s as [|c s IH]; [done|]. cbn [has_char count_char].
  rewrite eq_char_eqb.
  destruct (Ascii.eqb a c); [lia|]. intros H. apply IH in H. lia.
Qed.

Lemma rest_ok_has_bar y : rest_ok y = true → has_char "|" y = true.
Proof.
  induction y as [|c y IH]; [done|].
  rewrite rest_ok_unfold. intros [_ H]%andb_true_iff.
  cbn [has_char]. destruct (Ascii.eqb "|" c); [done|].
  apply orb_true_iff in H as [H|H]; [|by apply IH].
  destruct y as [|d y]; [done|]. cbn [has_char].
  by rewrite Ascii.eqb_sym, H.
Qed.

Lemma double_pos_here_bars x g :
  double_pos_here x = Some g → 2 ≤ count_char "|" x.
Proof.
  induction x as [|c x IH]; [done|].
  rewrite double_pos_here_unfold.
  destruct (isspace c); [done|].
  assert (double_pos_here x = Some g → 2 ≤ count_char "|" (String c x)) as H.
  { intros H%IH. cbn [count_char]. lia. }
  destruct x as [|d y]; [done|].
  destruct (Ascii.eqb d "|") eqn:Ed; [|done].
  destruct (rest_ok y) eqn:Er; [|done].
  intros _. apply rest_ok_has_bar, count_char_some in Er.
  cbn [count_char]. unfold eq_char at 2. rewrite Ed. lia.
Qed.

Lemma search_double_pos_bars w g :
  search_double_pos w = Some g → 2 ≤ count_char "|" w.
Proof.
  induction w as [|c w IH]; [done|]. cbn [search_double_pos].
  destruct (double_pos_here (String c w)) eqn:E.
  - intros _. by eapply double_pos_here_bars.
  - intros H%IH. cbn [count_char]. lia.
Qed.

Lemma merged_one w mwords : merged [w] mwords = [w].
Proof. by destruct mwords. Qed.

Lemma separated_no_words fuel mwords : separated fuel [] mwords = ([], mwords).
Proof. by destruct fuel. Qed.

Lemma joined_pieces w : joined w = true → 2 ≤ length (split_on is_join_sep w).
Proof.
  induction w as [|c w IH]; [done|]. unfold joined. cbn [has_char split_on].
  pose proof (split_on_nonempty is_join_sep w) as Hne.
  unfold is_join_sep at 1. rewrite !(Ascii.eqb_sym c).
  destruct (Ascii.eqb "+" c), (Ascii.eqb "_" c); cbn [orb].
  1-3: intros _; destruct (split_on is_join_sep w); [done|cbn; lia].
  intros H%IH. destruct (split_on is_join_sep w) as [|x xs]; [done|].
  done.
Qed.

Lemma split_on_keeps p sep s :
  no_char p s → Forall (no_char p) (split_on sep s).
Proof.
  induction s as [|c s IH]; intros H.
  { constructor; [apply no_char_empty|done]. }
  apply no_char_String in H as [Hc Hs]. specialize (IH Hs).
  cbn [split_on]. destruct (sep c).
  - constructor; [apply no_char_empty|done].
  - destruct (split_on sep s) as [|w ws].
    + constructor; [|done]. apply no_char_String. split; [done|].
      apply no_char_empty.
    + inversion IH; subst. constructor; [|done]. by apply no_char_String.
Qed.

(** X4. [cross_clean] on a complex of separate morphological words (the
    morphology tier of Scenario B): the actual utterance is split at its
    join separators; the target utterance, which is repaired against the
    morphology tier that the repair of the actual utterance has already
    split, stays one word. *)
Theorem cross_clean_splits_actual_only
    (whole p1 s1 b utterance gloss_tier pos_tier : string) (c : ascii) :
  whole ≠ EmptyString → p1 ≠ EmptyString →
  has_char "|" whole = false →
  has_char "|" p1 = false → has_char "|" s1 = false →
  any_char isspace (whole +:+ p1 +:+ s1 +:+ b) = false →
  is_join_sep c = true →
  any_char is_join_sep (p1 +:+ s1) = false →
  any_char is_join_sep b = false →
  search_double_pos b = None →
  has_char " " utterance = false →
  let mor_tier := p1 +:+ "|" +:+ s1 +:+ " " +:+ b in
  cross_clean utterance utterance
    (whole +:+ "|" +:+ p1 +:+ "|" +:+ s1 +:+ String c b)
    gloss_tier pos_tier
  = Ok (join " " (split_on is_join_sep utterance), utterance,
        mor_tier, mor_tier, mor_tier)
  ∧ blank_word_count (join " " (split_on is_join_sep utterance))
    = length (split_on is_join_sep utterance)
  ∧ blank_word_count utterance = 1
  ∧ (joined utterance = true →
     2 ≤ length (split_on is_join_sep utterance)).
Proof.
  intros Hwhole Hp1 Hbar Hbar1 Hbar2 Hspace Hc Hsep1 Hsepb Hb
    Hu%no_blank_has_char.
  rewrite !any_char_app, !orb_false_iff in Hspace.
  destruct Hspace as (Hs_whole%any_char_no_char & Hs_p1%any_char_no_char
                      & Hs_s1%any_char_no_char & Hs_b%any_char_no_char).
  rewrite any_char_app, orb_false_iff in Hsep1.
  destruct Hsep1 as [Hj_p1%any_char_no_char Hj_s1%any_char_no_char].
  apply any_char_no_char in Hsepb.
  assert (c ≠ "|"%char ∧ isspace c = false) as (Hc1 & Hc2).
  { unfold is_join_sep in Hc. apply orb_true_iff in Hc as [H|H];
      apply Ascii.eqb_eq in H; by subst. }
  set (a := p1 +:+ String "|" s1).
  assert (whole +:+ "|" +:+ p1 +:+ "|" +:+ s1 +:+ String c b
          = whole +:+ String "|" (a +:+ String c b)) as ->.
  { unfold a. by rewrite app_assoc'. }
  assert (p1 +:+ "|" +:+ s1 +:+ " " +:+ b = a +:+ String " " b) as ->.
  { unfold a. by rewrite app_assoc'. }
  set (mword := whole +:+ String "|" (a +:+ String c b)).
  cbn zeta.
  assert (no_char isspace a) as Hs_a.
  { unfold a. by rewrite no_char_app, no_char_String. }
  assert (no_char is_join_sep a) as Hj_a.
  { unfold a. by rewrite no_char_app, no_char_String. }
  assert (search_double_pos mword = Some (a +:+ String c b)) as Hsearch.
  { apply search_double_pos_here. unfold mword.
    rewrite double_pos_here_bar; try done.
    - rewrite dot_star_no_space; [done|].
      by rewrite no_char_app, no_char_String.
    - unfold a. rewrite app_assoc'. by apply rest_ok_bar. }
  assert (search_double_pos a = None) as Ha.
  { destruct (search_double_pos a) as [g|] eqn:E; [|done].
    apply search_double_pos_bars in E. unfold a in E.
    rewrite count_char_app in E. cbn [count_char] in E.
    rewrite !count_char_none in E by done. cbn in E. lia. }
  assert (mword_pieces mword = [a; b]) as Hmp.
  { unfold mword_pieces. rewrite Hsearch.
    by rewrite split_on_app, split_on_no_char. }
  assert (wword_pieces mword utterance = split_on is_join_sep utterance)
    as Hwp.
  { unfold wword_pieces. rewrite Hsearch.
    destruct (joined utterance) eqn:E; [done|]. by rewrite split_not_joined. }
  assert (single_morph_word utterance mword = Ok (utterance, mword)) as H1.
  { rewrite single_morph_word_spec, (split_on_no_char _ utterance) by done.
    by rewrite merged_one. }
  assert (separate_morph_word utterance mword
          = Ok (join " " (split_on is_join_sep utterance),
                a +:+ String " " b)) as H2.
  { assert (no_char is_blank mword) as Hm_blank.
    { apply no_space_no_blank. unfold mword.
      rewrite no_char_app, no_char_String, no_char_app, no_char_String.
      by split_and!. }
    rewrite separate_morph_word_spec.
    rewrite (split_on_no_char _ utterance), (split_on_no_char _ mword)
      by done.
    rewrite separated_S, Hwp, Hmp.
    pose proof (split_on_nonempty is_join_sep utterance) as Hne.
    destruct (split_on is_join_sep utterance) as [|q qs]; [done|].
    rewrite !app_nil_r. cbn [app].
    assert (separated (String.length mword) qs [b] = (qs, [b])) as ->.
    { destruct (String.length mword) as [|f]; [done|].
      destruct qs as [|q2 qs]; [done|]. rewrite separated_S.
      unfold wword_pieces, mword_pieces. rewrite Hb. cbn [app].
      by rewrite separated_nil_r. }
    cbn [fst snd]. by rewrite join_cons. }
  assert (split_on is_blank (a +:+ String " " b) = [a; b]) as Hsplit.
  { rewrite split_on_app; [|by apply no_space_no_blank|done].
    by rewrite split_on_no_char by by apply no_space_no_blank. }
  assert (single_morph_word utterance (a +:+ String " " b)
          = Ok (utterance, a +:+ String " " b)) as H3.
  { rewrite single_morph_word_spec, (split_on_no_char _ utterance) by done.
    by rewrite merged_one. }
  assert (separate_morph_word utterance (a +:+ String " " b)
          = Ok (utterance, a +:+ String " " b)) as H4.
  { rewrite separate_morph_word_spec, Hsplit.
    rewrite (split_on_no_char _ utterance) by done.
    rewrite separated_S. unfold wword_pieces, mword_pieces. rewrite Ha.
    cbn [app]. rewrite separated_no_words. cbn [fst snd].
    by rewrite join_cons. }
  split_and!.
  - unfold cross_clean. rewrite H1. cbn [mbind res_bind bind].
    rewrite H2. cbn [mbind res_bind bind].
    rewrite H3. cbn [mbind res_bind bind].
    by rewrite H4.
  - unfold blank_word_count. rewrite split_join; [done| |].
    + apply split_on_nonempty.
    + by apply split_on_keeps.
  - unfold blank_word_count. by rewrite split_on_no_char.
  - apply joined_pieces.
Qed.

Lemma cross_clean_scenario_B :
  cross_clean "stem1_stem2" "stem1_stem2"
    "wholePOS|stem1POS|stem1-SFX1_stem2POS|stem2-SFX2"
    "wholePOS|stem1POS|stem1-SFX1_stem2POS|stem2-SFX2"
    "wholePOS|stem1POS|stem1-SFX1_stem2POS|stem2-SFX2"
  = Ok ("stem1 stem2", "stem1_stem2",
        "stem1POS|stem1-SFX1 stem2POS|stem2-SFX2",
        "stem1POS|stem1-SFX1 stem2POS|stem2-SFX2",
        "stem1POS|stem1-SFX1 stem2POS|stem2-SFX2").
Proof.
  apply (cross_clean_splits_actual_only "wholePOS" "stem1POS" "stem1-SFX1"
           "stem2POS|stem2-SFX2" "stem1_stem2" _ _ "_");
    first [reflexivity | discriminate].
Defined.

End RepairFacts.

(** ** Runs of untranscribed tokens *)

Module RunFacts.
Import Py Str TurkishCleaner Laws PyFacts.

Lemma pass_match_start t :
  re_sub untranscribed_here 0 true ("xxx " +:+ t)
  = "??? " +:+ re_sub untranscribed_here 0 false t.
Proof. reflexivity. Qed.

Lemma pass_match t :
  re_sub untranscribed_here 0 false (" xxx " +:+ t)
  = " ??? " +:+ re_sub untranscribed_here 0 false t.
Proof. reflexivity. Qed.

Lemma pass_token t :
  re_sub untranscribed_here 0 false ("xxx" +:+ t)
  = "xxx" +:+ re_sub untranscribed_here 0 false t.
Proof. reflexivity. Qed.

Lemma pass_marker b t :
  re_sub untranscribed_here 0 b ("???" +:+ t)
  = "???" +:+ re_sub untranscribed_here 0 false t.
Proof. by destruct b. Qed.

Lemma every_other_S n : ∃ l, every_other (S n) = "???" :: l.
Proof. destruct n; by eexists. Qed.

Lemma run_text n x :
  join " " (replicate (S (S n)) x) = x +:+ " " +:+ join " " (replicate (S n) x).
Proof. done. Qed.

(** Behind a token that was left: the rest of the run. *)
Lemma pass_rest n :
  re_sub untranscribed_here 0 false
    (" " +:+ join " " (replicate (S n) "xxx"))
  = " " +:+ join " " (every_other (S n))
  ∧ re_sub untranscribed_here 0 false
      (" " +:+ join " " (replicate (S (S n)) "xxx"))
    = " " +:+ join " " (every_other (S (S n))).
Proof.
  induction n as [|n [IH1 IH2]]; [done|].
  split; [done|].
  destruct (every_other_S n) as [l Hl].
  rewrite 2!run_text.
  change (" " +:+ "xxx" +:+ " " +:+ "xxx" +:+ " " +:+ ?t)
    with (" xxx " +:+ "xxx" +:+ " " +:+ t).
  rewrite pass_match, pass_token, IH1.
  change (every_other (S (S (S n))))
    with ("???" :: "xxx" :: every_other (S n)).
  rewrite Hl. by rewrite !join_cons.
Qed.

Lemma one_pass n :
  unify_untranscribed (join " " (replicate n "xxx"))
  = join " " (every_other n).
Proof.
  unfold unify_untranscribed.
  destruct n as [|[|[|n]]]; [done..|].
  destruct (every_other_S n) as [l Hl].
  rewrite 2!run_text.
  change ("xxx" +:+ " " +:+ "xxx" +:+ " " +:+ ?t)
    with ("xxx " +:+ "xxx" +:+ " " +:+ t).
  rewrite pass_match_start, pass_token, (proj1 (pass_rest n)).
  change (every_other (S (S (S n))))
    with ("???" :: "xxx" :: every_other (S n)).
  rewrite Hl. by rewrite !join_cons.
Qed.

Lemma second_pass_rest n :
  ∀ b, re_sub untranscribed_here 0 b (join " " (every_other n))
       = join " " (replicate n "???")
  ∧ re_sub untranscribed_here 0 b (join " " (every_other (S n)))
    = join " " (replicate (S n) "???").
Proof.
  induction n as [|n IH]; intros b; [by destruct b|].
  split; [apply IH|].
  destruct n as [|n]; [by destruct b|].
  destruct (every_other_S n) as [l Hl].
  change (every_other (S (S (S n))))
    with ("???" :: "xxx" :: every_other (S n)).
  rewrite Hl, !join_cons, <- Hl.
  rewrite pass_marker.
  change (" " +:+ "xxx" +:+ " " +:+ ?t) with (" xxx " +:+ t).
  rewrite pass_match, (proj1 (IH false)).
  by rewrite 2!run_text.
Qed.

(** X5. A run of untranscribed tokens with one blank between them: the match
    takes the blank behind a token along, so that the next token has no
    white space before it any more and is left; a second application
    unifies the tokens the first one left. *)
Theorem unify_untranscribed_every_other (n : nat) :
  unify_untranscribed (join " " (replicate n "xxx"))
  = join " " (every_other n)
  ∧ unify_untranscribed (unify_untranscribed (join " " (replicate n "xxx")))
    = join " " (replicate n "???")
  ∧ (2 ≤ n →
     unify_untranscribed (unify_untranscribed (join " " (replicate n "xxx")))
     ≠ unify_untranscribed (join " " (replicate n "xxx"))).
Proof.
  rewrite one_pass. split; [done|]. split.
  - apply (second_pass_rest n true).
  - intros Hn. unfold unify_untranscribed.
    rewrite (proj1 (second_pass_rest n true)).
    destruct n as [|[|n]]; [lia..|].
    change (every_other (S (S n))) with ("???" :: "xxx" :: every_other n).
    rewrite run_text, join_cons. cbn [replicate].
    rewrite (RepairFacts.join_behind " " "xxx"),
      (RepairFacts.join_behind " " "???").
    discriminate.
Qed.

End RunFacts.

(** ** Words and morpheme languages of a Toolbox record *)

Module RecordFacts.
Import Py Str Toolbox ToolboxFile PyFacts ToolboxFacts.

(** X6. The loop over the words of [make_rec] (lines 184 to 188) gives every
    word the language of its first morpheme up to the first word that has
    no morpheme; the [break] leaves that word and all the words behind it
    as they are, also those that have morphemes. *)
Theorem word_languages_stop_at_gap
    (words : list word_dict) (morphemes : list (list morpheme_dict))
    (k : nat) :
  (∀ j, j < k → ∃ m ms, morphemes !! j = Some (m :: ms)) →
  morphemes !! k = Some [] ∨ morphemes !! k = None →
  ∀ i w, words !! i = Some w →
    (i < k →
     ∃ m ms, morphemes !! i = Some (m :: ms)
             ∧ set_word_languages words morphemes !! i
               = Some {| word := word w; word_actual := word_actual w;
                         word_target := word_target w;
                         word_language := Some (morpheme_language m) |})
    ∧ (k ≤ i → set_word_languages words morphemes !! i = Some w).
Proof.
  revert morphemes k.
  induction words as [|v words IH]; intros morphemes k Hk Hgap i w Hw;
    [done|].
  destruct k as [|k].
  - split; [lia|]. intros _.
    assert (set_word_languages (v :: words) morphemes = v :: words) as ->;
      [|done].
    destruct morphemes as [|[|m ms] morphemes]; try done.
    by destruct Hgap.
  - destruct (Hk 0 ltac:(lia)) as (m & ms & Hm).
    destruct morphemes as [|ms0 morphemes]; [done|].
    cbn in Hm. injection Hm as ->. cbn [set_word_languages].
    destruct i as [|i].
    + cbn in Hw. injection Hw as ->. split; [|lia].
      intros _. by eexists _, _.
    + cbn in Hw. cbn [lookup list_lookup].
      destruct (IH morphemes k) with (i := i) (w := w) as [H1 H2];
        try done.
      { intros j Hj. apply (Hk (S j)). lia. }
      split; intros; [apply H1|apply H2]; lia.
Qed.

Lemma word_languages_stop_at_gap_example :
  let w := WordDict (Some "a") (Some "a") None None in
  let m := MorphemeDict (Some "x") (Some "g") None (Some "Russian") "target"
             None in
  set_word_languages [w; w; w] [[m]; []; [m]] !! 2 = Some w.
Proof.
  cbn zeta.
  apply (word_languages_stop_at_gap _ _ 1) with (i := 2).
  - intros [|j] Hj; [by eexists _, _|lia].
  - by left.
  - reflexivity.
  - lia.
Defined.

(** *** The languages of the Indonesian corpus *)

Lemma zip4_fourth {A} (P : A → Prop) (a b c d : list A) :
  Forall P d → Forall (λ t, P t.2) (zip4 a b c d).
Proof.
  intros H. revert a b c.
  induction H as [|u d Hu _ IH]; intros [|x a] [|y b] [|z c]; try done.
  cbn [zip4]. constructor; [done|]. apply IH.
Qed.

Lemma zip4_first {A} (P : A → Prop) (a b c d : list A) :
  Forall P a → Forall (λ t, P t.1.1.1) (zip4 a b c d).
Proof.
  intros H. revert b c d.
  induction H as [|x a Hx _ IH]; intros [|y b] [|z c] [|u d]; try done.
  cbn [zip4]. constructor; [done|]. apply IH.
Qed.

Lemma indonesian_langs_structure (morphemes glosses : tier) :
  length <$> indonesian_langs morphemes glosses
  = length <$> longer_of morphemes glosses.
Proof.
  unfold indonesian_langs. rewrite <- list_fmap_compose.
  apply list_fmap_ext. intros i mw _. cbn. by rewrite length_fmap.
Qed.

Lemma indonesian_langs_values (morphemes glosses : tier) :
  Forall (Forall (λ l, l = Some "Indonesian"))
    (indonesian_langs morphemes glosses).
Proof.
  unfold indonesian_langs. apply Forall_fmap, Forall_true. intros mw.
  cbn. apply Forall_fmap, Forall_true. done.
Qed.

Lemma make_dict_fields ty ws (t : atom * atom * atom * atom) :
  morpheme (make_dict ty ws t) = t.1.1.1
  ∧ morpheme_language (make_dict ty ws t) = t.2.
Proof. by destruct t as [[[m0 m1] m2] m3]. Qed.

Lemma fill_none_empty n : fill_none n [] = replicate n None.
Proof. unfold fill_none. cbn. by rewrite Nat.sub_0_r. Qed.

Lemma fill_none_full n (xs : list atom) : n ≤ length xs → fill_none n xs = xs.
Proof.
  intros H. unfold fill_none.
  replace (n - length xs) with 0 by lia. apply app_nil_r.
Qed.

(** X7. Line 470 with the tail of [get_morphemes]: when the morpheme tier of
    an Indonesian record has no more words than the gloss tier, every
    morpheme the function returns has the language [Indonesian]; when it
    has more, the languages have the structure of the morpheme tier, fail
    the test against the glosses as the morpheme tier does, and every
    morpheme that is returned is left without form and without language.
    The function returns whenever the utterance has a source id; without
    one it raises in the second case. *)
Theorem indonesian_language_of_morphemes
    (config_type : string) (warnings : list string)
    (source_id : option atom) (morphemes glosses poses : tier) :
  let result :=
    get_morphemes_tail config_type warnings source_id morphemes glosses
      poses (indonesian_langs morphemes glosses) in
  (length morphemes ≤ length glosses →
   ∀ ds, result = Ok ds →
         Forall (Forall (λ d, morpheme_language d = Some "Indonesian")) ds)
  ∧ (length glosses < length morphemes →
     (source_id = None → result = Raised)
     ∧ ∀ ds, result = Ok ds →
             Forall (Forall (λ d, morpheme_language d = None
                                  ∧ morpheme d = None)) ds)
  ∧ (source_id ≠ None → ∃ ds, result = Ok ds).
Proof.
  cbn zeta. set (langs := indonesian_langs morphemes glosses).
  assert (∀ t : tier, length t ≠ length glosses →
            struct_eqv (tier_obj t) (tier_obj glosses) = false) as Hdiff.
  { intros t Ht.
    destruct (struct_eqv (tier_obj t) (tier_obj glosses)) eqn:E; [|done].
    apply struct_eqv_tiers in E. apply (f_equal length) in E.
    by rewrite !length_fmap in E. }
  split_and!.
  - intros Hlen ds
      (t0 & t2 & t3 & C0 & C2 & C3 & ->)%get_morphemes_tail_inv.
    assert (t3 = langs) as ->.
    { destruct (checked_tier_cases source_id glosses langs)
        as [[_ E]|[E _]]; [congruence|].
      assert (struct_eqv (tier_obj langs) (tier_obj glosses) = true) as E';
        [|congruence].
      apply struct_eqv_tiers. unfold langs.
      rewrite indonesian_langs_structure. unfold longer_of.
      by destruct (Nat.ltb_spec (length glosses) (length morphemes)); [lia|]. }
    apply Forall_fmap, Forall_lookup. intros i [[[mw0 mw1] mw2] mw3] Hi.
    apply zip4_lookup in Hi as (H0 & H1 & H2 & H3).
    apply Forall_fmap.
    apply (Forall_impl (λ t : atom * atom * atom * atom,
                          t.2 = Some "Indonesian"));
      [|intros t Ht; cbn; by rewrite (proj2 (make_dict_fields _ _ t))].
    unfold zip_longest.
    apply (zip4_fourth (λ a : atom, a = Some "Indonesian")).
    assert (length mw3 = length mw1) as E31.
    { assert (length <$> langs = length <$> glosses) as E.
      { unfold langs. rewrite indonesian_langs_structure. unfold longer_of.
        by destruct (Nat.ltb_spec (length glosses) (length morphemes));
          [lia|]. }
      apply (f_equal (λ l, l !! i)) in E.
      rewrite !list_lookup_fmap, H3, H1 in E. by injection E. }
    assert (length mw0 = length mw1 ∨ mw0 = []) as E0
      by by eapply (checked_tier_lookup _ _ _ _ _ _ _ C0).
    assert (length mw2 = length mw1 ∨ mw2 = []) as E2
      by by eapply (checked_tier_lookup _ _ _ _ _ _ _ C2).
    rewrite fill_none_full.
    + pose proof (indonesian_langs_values morphemes glosses) as Hv.
      rewrite Forall_lookup in Hv. by eapply Hv.
    + destruct E0 as [->| ->], E2 as [->| ->]; cbn [length]; lia.
  - intros Hlen.
    assert (length langs = length morphemes) as Hll.
    { unfold langs, indonesian_langs, longer_of. rewrite length_fmap.
      by destruct (Nat.ltb_spec (length glosses) (length morphemes));
        [|lia]. }
    split.
    { intros ->. apply get_morphemes_tail_absent. left.
      apply Hdiff. lia. }
    intros ds (t0 & t2 & t3 & C0 & C2 & C3 & ->)%get_morphemes_tail_inv.
    assert (∀ t tr : tier, length t ≠ length glosses →
              checked_tier source_id glosses t = Ok tr →
              tr = replicate (length glosses) []) as Hc.
    { intros t tr Ht Hr.
      destruct (checked_tier_cases source_id glosses t) as [[E _]|[_ E]].
      - by rewrite Hdiff in E.
      - rewrite E in Hr. destruct source_id; [|done]. by injection Hr. }
    rewrite (Hc morphemes t0), (Hc langs t3) by (done || lia).
    apply Forall_fmap, Forall_lookup. intros i [[[mw0 mw1] mw2] mw3] Hi.
    apply zip4_lookup in Hi as (H0 & H1 & H2 & H3).
    apply lookup_replicate in H0 as [-> _].
    apply lookup_replicate in H3 as [-> _].
    apply Forall_fmap. unfold zip_longest. rewrite !fill_none_empty.
    set (n := Nat.max _ _).
    pose proof (zip4_fourth (λ a : atom, a = None) (replicate n None)
                  (fill_none n mw1) (fill_none n mw2) (replicate n None)
                  ltac:(by apply Forall_replicate)) as F4.
    pose proof (zip4_first (λ a : atom, a = None) (replicate n None)
                  (fill_none n mw1) (fill_none n mw2) (replicate n None)
                  ltac:(by apply Forall_replicate)) as F1.
    rewrite Forall_forall in F1, F4 |- *. intros t Ht. cbn.
    destruct (make_dict_fields config_type warnings t) as [-> ->].
    split; [by apply F4|by apply F1].
  - destruct source_id as [s|]; [intros _|done].
    apply get_morphemes_tail_present.
Qed.

End RecordFacts.

(** ** Tiers that agree with the reference tier *)

Module KeptFacts.
Import Py CHATParser Spec PyFacts CHATFacts.

Lemma zip3_components {A} (a b c : list A) n :
  length a = n → length b = n → length c = n →
  (λ t, t.1.1) <$> zip3 a b c = a
  ∧ (λ t, t.1.2) <$> zip3 a b c = b
  ∧ (λ t, t.2) <$> zip3 a b c = c.
Proof.
  revert a b c. induction n as [|n IH]; intros [|x a] [|y b] [|z c];
    try done.
  intros [=Ha] [=Hb] [=Hc]. destruct (IH a b c Ha Hb Hc) as (E1 & E2 & E3).
  cbn [zip3 fmap list_fmap]. cbn [fmap] in E1, E2, E3.
  by rewrite E1, E2, E3.
Qed.

Section parser.
Context {reader : Reader} {cleaner : Cleaner}.

Lemma aligned_words_components seg_tier gloss_tier pos_tier :
  let wsegs := get_seg_words (clean_seg_tier seg_tier) in
  let wglosses := get_gloss_words (clean_gloss_tier gloss_tier) in
  let wposes := get_pos_words (clean_pos_tier pos_tier) in
  let wlen := units_to_consider wsegs wglosses wposes in
  let words := aligned_words seg_tier gloss_tier pos_tier in
  (length wsegs = wlen → (λ t, t.1.1) <$> words = wsegs)
  ∧ (length wglosses = wlen → (λ t, t.1.2) <$> words = wglosses)
  ∧ (length wposes = wlen → (λ t, t.2) <$> words = wposes).
Proof.
  cbn zeta. unfold aligned_words.
  set (wsegs := get_seg_words _). set (wglosses := get_gloss_words _).
  set (wposes := get_pos_words _).
  set (wlen := units_to_consider _ _ _).
  destruct (zip3_components (empty_if_misaligned wlen wsegs)
              (empty_if_misaligned wlen wglosses)
              (empty_if_misaligned wlen wposes) wlen)
    as (E1 & E2 & E3); try apply empty_if_misaligned_length.
  rewrite E1, E2, E3.
  split_and!; intros H.
  - by destruct (empty_if_misaligned_cases wlen wsegs) as [[_ ->]|[? _]].
  - by destruct (empty_if_misaligned_cases wlen wglosses) as [[_ ->]|[? _]].
  - by destruct (empty_if_misaligned_cases wlen wposes) as [[_ ->]|[? _]].
Qed.

(** X8. A tier whose number of words is the reference count reaches the
    morphemes as it is: its words are the words the morphemes of the
    record are taken from, none of them replaced. *)
Theorem agreeing_tier_is_kept (r : record) :
  (length (morpheme_words r).1.1 = reference_word_count r →
   (λ t, t.1.1) <$> record_aligned_words r = (morpheme_words r).1.1)
  ∧ (length (morpheme_words r).1.2 = reference_word_count r →
     (λ t, t.1.2) <$> record_aligned_words r = (morpheme_words r).1.2)
  ∧ (length (morpheme_words r).2 = reference_word_count r →
     (λ t, t.2) <$> record_aligned_words r = (morpheme_words r).2)
  ∧ (process_record r).2 = word_morphemes <$> record_aligned_words r.
Proof.
  unfold record_aligned_words, reference_word_count, morpheme_words.
  pose proof (process_record_morphemes r) as Hm.
  unfold record_aligned_words in Hm.
  destruct (cross_cleaned r) as [[[[a t] s] g] p]. cbn [fst snd].
  destruct (aligned_words_components s g p) as (H1 & H2 & H3).
  by split_and!.
Qed.

End parser.

End KeptFacts.

(** ** Splitting at a character and joining *)

Module StrFacts.
Import Py Str PyFacts.

Lemma eq_char_spec a c : eq_char a c = true ↔ c = a.
Proof. apply Ascii.eqb_eq. Qed.

Lemma no_char_eq_char a s : has_char a s = false ↔ no_char (eq_char a) s.
Proof.
  rewrite no_char_has_char. unfold no_char.
  apply Forall_iff. intros c. unfold eq_char. by rewrite Ascii.eqb_sym.
Qed.

Lemma join_split_char a s :
  join (String a EmptyString) (split_on (eq_char a) s) = s.
Proof.
  induction s as [|c s IH]; [done|]. cbn [split_on].
  pose proof (split_on_nonempty (eq_char a) s) as Hne.
  destruct (eq_char a c) eqn:E.
  - apply eq_char_spec in E as ->.
    destruct (split_on _ s) as [|w ws]; [done|].
    by rewrite join_cons, IH.
  - destruct (split_on _ s) as [|w ws]; [done|].
    by rewrite join_String, IH.
Qed.

Lemma split_join_char a ws :
  ws ≠ [] → Forall (no_char (eq_char a)) ws →
  split_on (eq_char a) (join (String a EmptyString) ws) = ws.
Proof.
  induction ws as [|w ws IH]; [done|]. intros _ Hall.
  inversion Hall as [|? ? Hw Hws]; subst.
  destruct ws as [|w' ws]; [by apply split_on_no_char|].
  rewrite join_cons.
  change (String a EmptyString +:+ ?x) with (String a x).
  rewrite split_on_app; [|done|by apply eq_char_spec].
  f_equal. by apply IH.
Qed.

Lemma split_on_any sep s :
  any_char sep s = true → 2 ≤ length (split_on sep s).
Proof.
  induction s as [|c s IH]; [done|]. cbn [any_char split_on].
  pose proof (split_on_nonempty sep s) as Hne.
  destruct (sep c); cbn [orb].
  - intros _. destruct (split_on sep s); [done|cbn; lia].
  - intros H%IH. by destruct (split_on sep s).
Qed.

Lemma any_char_has_char a s : any_char (eq_char a) s = has_char a s.
Proof.
  induction s as [|c s IH]; [done|]. cbn. rewrite IH.
  unfold eq_char. rewrite Ascii.eqb_sym. by destruct (Ascii.eqb a c).
Qed.

End StrFacts.

(** ** Participants and ID fields of the session metadata *)

Module SpeakerFacts.
Import Py Str CHATReader PyFacts StrFacts.

(** X9. A participant is its fields joined by blanks: with three fields they
    are the label, the name and the role, with two the label and the
    role, and the name is empty. *)
Theorem participant_fields (label name role : string) :
  has_char " " label = false → has_char " " name = false →
  has_char " " role = false →
  (get_speaker_label (label +:+ " " +:+ name +:+ " " +:+ role) = Ok label
   ∧ get_name (label +:+ " " +:+ name +:+ " " +:+ role) = Ok name
   ∧ get_role (label +:+ " " +:+ name +:+ " " +:+ role) = Ok role)
  ∧ (get_speaker_label (label +:+ " " +:+ role) = Ok label
     ∧ get_name (label +:+ " " +:+ role) = Ok EmptyString
     ∧ get_role (label +:+ " " +:+ role) = Ok role).
Proof.
  intros Hl%no_char_eq_char Hn%no_char_eq_char Hr%no_char_eq_char.
  assert (∀ x, " " +:+ x = String " " x) as Hsp by done.
  assert (split_on (eq_char " ") (label +:+ " " +:+ name +:+ " " +:+ role)
          = [label; name; role]) as E3.
  { rewrite !Hsp, !split_on_app by done. by rewrite split_on_no_char. }
  assert (split_on (eq_char " ") (label +:+ " " +:+ role) = [label; role])
    as E2.
  { rewrite !Hsp, !split_on_app by done. by rewrite split_on_no_char. }
  unfold get_speaker_label, get_name, get_role. by rewrite E3, E2.
Qed.

Lemma participant_fields_example :
  get_speaker_label "MEM Mme_Manyili Grandmother" = Ok "MEM"
  ∧ get_name "MEM Mme_Manyili Grandmother" = Ok "Mme_Manyili"
  ∧ get_role "MEM Mme_Manyili Grandmother" = Ok "Grandmother".
Proof.
  apply (participant_fields "MEM" "Mme_Manyili" "Grandmother");
    reflexivity.
Defined.

(** X10. The label and the role of a participant are found for every string;
    the name raises [IndexError] if and only if the participant holds no
    blank, and a participant without a blank is its own label and
    role. *)
Theorem participant_without_blank (participant : string) :
  (∃ label, get_speaker_label participant = Ok label)
  ∧ (∃ role, get_role participant = Ok role)
  ∧ (get_name participant = Raised ↔ has_char " " participant = false)
  ∧ (has_char " " participant = false →
     get_speaker_label participant = Ok participant
     ∧ get_role participant = Ok participant).
Proof.
  unfold get_speaker_label, get_role, get_name.
  pose proof (split_on_nonempty (eq_char " ") participant) as Hne.
  split_and!.
  - destruct (split_on _ participant) as [|w ws]; [done|]. by eexists.
  - destruct (split_on _ participant) as [|w ws] eqn:E; [done|].
    unfold index.
    destruct (lookup_lt_is_Some_2 (w :: ws) (length (w :: ws) - 1))
      as [r ->]; [cbn; lia|]. by eexists.
  - split.
    + intros H. destruct (has_char " " participant) eqn:E; [|done].
      rewrite <- any_char_has_char in E. apply split_on_any in E.
      destruct (split_on _ participant) as [|w [|w' [|w'' ws]]];
        cbn in E; try lia; done.
    + intros H%no_char_eq_char. by rewrite split_on_no_char.
  - intros H%no_char_eq_char. by rewrite split_on_no_char.
Qed.

(** X11. An ID field is its sub-fields joined by bars: the language is the
    first of them, the age the fourth and the gender the fifth, and
    asking for one that is not there raises [IndexError]. *)
Theorem id_sub_fields (fields : list string) :
  fields ≠ [] → Forall (λ f, has_char "|" f = false) fields →
  get_language (join "|" fields) = index fields 0
  ∧ get_age (join "|" fields) = index fields 3
  ∧ get_gender (join "|" fields) = index fields 4.
Proof.
  intros Hne Hall. unfold get_language, get_age, get_gender.
  rewrite (split_join_char "|"); [done..|].
  eapply Forall_impl; [exact Hall|]. intros f. apply no_char_eq_char.
Qed.

Lemma id_sub_fields_example :
  let id_field := "sme|Sesotho|MEM||female|||Grandmother||" in
  get_language id_field = Ok "sme"
  ∧ get_age id_field = Ok EmptyString
  ∧ get_gender id_field = Ok "female".
Proof.
  apply (id_sub_fields ["sme"; "Sesotho"; "MEM"; EmptyString; "female";
                        EmptyString; EmptyString; "Grandmother";
                        EmptyString; EmptyString; EmptyString]).
  - discriminate.
  - repeat constructor.
Defined.

(** X12. The ID field is the text of its sub-fields: splitting it at the bars
    and joining the pieces by bars gives it back; the language is found
    for every string, the age only in a field with three bars or more. *)
Theorem id_field_bars (id_field : string) :
  join "|" (split_on (eq_char "|") id_field) = id_field
  ∧ (∃ language, get_language id_field = Ok language)
  ∧ ((∃ age, get_age id_field = Ok age)
     ↔ 4 ≤ length (split_on (eq_char "|") id_field))
  ∧ ((∃ gender, get_gender id_field = Ok gender)
     ↔ 5 ≤ length (split_on (eq_char "|") id_field)).
Proof.
  unfold get_language, get_age, get_gender, index.
  pose proof (split_on_nonempty (eq_char "|") id_field) as Hne.
  split_and!.
  - apply join_split_char.
  - destruct (split_on _ id_field); [done|]. by eexists.
  - destruct (split_on _ id_field !! 3) as [x|] eqn:E.
    + apply lookup_lt_Some in E. split; [lia|]. by eexists.
    + apply lookup_ge_None in E. split; [by intros [? ?]|lia].
  - destruct (split_on _ id_field !! 4) as [x|] eqn:E.
    + apply lookup_lt_Some in E. split; [lia|]. by eexists.
    + apply lookup_ge_None in E. split; [by intros [? ?]|lia].
Qed.

End SpeakerFacts.

(** ** The parser on the words of [CHATReader.py] *)

Module ChatWordsFacts.
Import Py Str CHATParser Spec Laws PyFacts CHATFacts.

Lemma get_words_nonempty utterance : 1 ≤ length (CHATReader.get_words utterance).
Proof.
  unfold CHATReader.get_words.
  pose proof (split_on_nonempty (eq_char " ") utterance).
  destruct (split_on _ utterance); [done|cbn; lia].
Qed.

Section parser.
Context {reader : Reader} {cleaner : Cleaner}.

(** X13. [CHATReader.get_words] splits at every blank and so finds one word
    in an empty tier.  With a reader that takes the words of the segment
    and of the gloss tier this way, the main tier is never without words:
    the number of words to consider is always that of the main tier, the
    other tiers are never turned to, and every record, also one without
    morphology, yields a morpheme word. *)
Theorem main_tier_always_counts (r : record) :
  (∀ tier, get_seg_words tier = CHATReader.get_seg_words tier) →
  (∀ tier, get_gloss_words tier = CHATReader.get_gloss_words tier) →
  reference_word_count r
  = length (if String.eqb get_main_morpheme "segment"
            then (morpheme_words r).1.1 else (morpheme_words r).1.2)
  ∧ 1 ≤ length (process_record r).2.
Proof.
  intros Hseg Hgloss.
  rewrite process_record_morphemes_length.
  unfold reference_word_count, morpheme_words.
  destruct (cross_cleaned r) as [[[[a t] s] g] p]. cbn [fst snd].
  unfold units_to_consider. rewrite Hseg, Hgloss.
  pose proof (get_words_nonempty (clean_seg_tier s)) as H1.
  pose proof (get_words_nonempty (clean_gloss_tier g)) as H2.
  unfold CHATReader.get_seg_words, CHATReader.get_gloss_words.
  set (n := length (CHATReader.get_words (clean_seg_tier s))) in *.
  set (m := length (CHATReader.get_words (clean_gloss_tier g))) in *.
  destruct (String.eqb get_main_morpheme "segment").
  - destruct (Nat.eqb_spec n 0) as [|_]; [lia|].
    destruct (Nat.eqb_spec n 0) as [|_]; [lia|]. done.
  - destruct (Nat.eqb_spec m 0) as [|_]; [lia|].
    destruct (Nat.eqb_spec m 0) as [|_]; [lia|]. done.
Qed.

End parser.

Lemma main_tier_always_counts_example :
  let r := sample_record "a" EmptyString EmptyString "N" in
  reference_word_count (reader := cree_reader) (cleaner := plain_cleaner) r
  = 1
  ∧ 1 ≤ length (process_record (reader := cree_reader)
                  (cleaner := plain_cleaner) r).2.
Proof.
  apply (main_tier_always_counts (reader := cree_reader)
           (cleaner := plain_cleaner)); reflexivity.
Defined.

End ChatWordsFacts.

(** ** The reference tier, with the readers of the repository *)

Module ReferenceFacts.
Import Py Str CHATParser Spec Laws PyFacts CHATFacts.



End ReferenceFacts.

(** ** Runs of characters and searches *)

Module RunLemmas.
Import Py Str PyFacts UntranscribedFacts.

Lemma run_slice_all p s : all_chars p (slice_to (run p s) s) = true.
Proof.
  induction s as [|c s IH]; [done|]. cbn [run].
  destruct (p c) eqn:E; [|done]. cbn. by rewrite E, IH.
Qed.

Lemma run_slice_length p s : String.length (slice_to (run p s) s) = run p s.
Proof.
  induction s as [|c s IH]; [done|]. cbn [run].
  destruct (p c); [|done]. cbn. by rewrite IH.
Qed.

Lemma run_all p a : all_chars p a = true → run p a = String.length a.
Proof.
  induction a as [|c a IH]; [done|]. cbn.
  intros [-> H]%andb_true_iff. by rewrite IH.
Qed.

Lemma run_app p a c rest :
  all_chars p a = true → p c = false →
  run p (a +:+ String c rest) = String.length a.
Proof.
  induction a as [|x a IH]; intros Ha Hc.
  - rewrite app_empty. cbn. by rewrite Hc.
  - cbn in Ha. apply andb_true_iff in Ha as [Hx Ha].
    rewrite app_String. cbn. by rewrite Hx, IH.
Qed.

Lemma slice_from_app (a b : string) : slice_from (String.length a) (a +:+ b) = b.
Proof.
  induction a as [|c a IH]; [by rewrite app_empty; destruct b|].
  by rewrite app_String.
Qed.

Lemma slice_to_app (a b : string) : slice_to (String.length a) (a +:+ b) = a.
Proof.
  induction a as [|c a IH]; [by rewrite app_empty; destruct b|].
  rewrite app_String. cbn. by rewrite IH.
Qed.

Lemma slice_to_all s : slice_to (String.length s) s = s.
Proof. induction s as [|c s IH]; [done|]. cbn. by rewrite IH. Qed.

Lemma search_found {A} (here : string → option A) s g :
  search here s = Some g → ∃ t, here t = Some g.
Proof.
  induction s as [|c s IH]; cbn [search].
  - destruct (here EmptyString) eqn:E; [|done]. intros [= <-]. eauto.
  - destruct (here (String c s)) eqn:E; [intros [= <-]; eauto|]. done.
Qed.

Lemma search_here {A} (here : string → option A) s g :
  here s = Some g → search here s = Some g.
Proof. intros H. destruct s; cbn [search]; by rewrite H. Qed.

Lemma search_next {A} (here : string → option A) c s :
  here (String c s) = None → search here (String c s) = search here s.
Proof. intros H. cbn [search]. by rewrite H. Qed.

End RunLemmas.

(** ** The time of a record *)

Module TimeFacts.
Import Py Str CHATReader PyFacts UntranscribedFacts RunLemmas.

Lemma time_here_parts s t :
  time_here s = Some t →
  ∃ a b, t = a +:+ "_" +:+ b ∧ a ≠ EmptyString ∧ b ≠ EmptyString
         ∧ all_chars isdigit a = true ∧ all_chars isdigit b = true.
Proof.
  unfold time_here.
  destruct (Nat.eqb_spec (run isdigit s) 0) as [|Hk]; [done|].
  destruct (slice_from (run isdigit s) s) as [|u r] eqn:Er; [done|].
  destruct (Ascii.eqb_spec u "_") as [->|Hu];
    [|by destruct u as [[] [] [] [] [] [] [] []]].
  destruct (Nat.eqb_spec (run isdigit r) 0) as [|Hj]; [done|].
  intros [= <-].
  exists (slice_to (run isdigit s) s), (slice_to (run isdigit r) r).
  split_and!.
  - by rewrite <- Nat.add_assoc, slice_to_add, Er.
  - intros H. apply (f_equal String.length) in H.
    rewrite run_slice_length in H. done.
  - intros H. apply (f_equal String.length) in H.
    rewrite run_slice_length in H. done.
  - apply run_slice_all.
  - apply run_slice_all.
Qed.

Lemma end_here_digits a rest :
  all_chars isdigit a = true →
  search end_here (a +:+ rest) = search end_here rest.
Proof.
  induction a as [|c a IH]; intros Ha; [by rewrite app_empty|].
  cbn in Ha. apply andb_true_iff in Ha as [Hc Ha].
  rewrite app_String, search_next; [by apply IH|].
  unfold end_here. destruct (Ascii.eqb_spec c "_") as [->|Hu]; [done|].
  by destruct c as [[] [] [] [] [] [] [] []].
Qed.

(** X14. What [get_time] finds in a main line is empty or two runs of digits
    with an underscore between them; in both cases [get_start] and
    [get_end] do not raise on it, and they return the two runs. *)
Theorem time_of_main_line (main_line : string) :
  let rec_time := get_time main_line in
  (rec_time = EmptyString
   ∧ get_start rec_time = Ok EmptyString
   ∧ get_end rec_time = Ok EmptyString)
  ∨ (∃ a b,
       rec_time = a +:+ "_" +:+ b
       ∧ a ≠ EmptyString ∧ b ≠ EmptyString
       ∧ all_chars isdigit a = true ∧ all_chars isdigit b = true
       ∧ get_start rec_time = Ok a ∧ get_end rec_time = Ok b).
Proof.
  cbn zeta. unfold get_time.
  destruct (search time_here main_line) as [t|] eqn:E; [|by left].
  right. apply search_found in E as [s E].
  apply time_here_parts in E as (a & b & -> & Ha & Hb & Hda & Hdb).
  exists a, b. split_and!; try done.
  - unfold get_start.
    assert (∀ x, "_" +:+ x = String "_" x) as Hu by done. rewrite Hu.
    destruct a as [|c a]; [done|]. rewrite app_String.
    rewrite (search_here _ _ (String c a)); [done|].
    unfold start_here. rewrite <- app_String.
    rewrite run_app, slice_from_app, slice_to_app by done. done.
  - unfold get_end.
    assert (∀ x, "_" +:+ x = String "_" x) as Hu by done. rewrite Hu.
    destruct a as [|c a]; [done|]. rewrite app_String, <- app_String.
    rewrite end_here_digits by done.
    rewrite (search_here _ _ b); [done|].
    unfold end_here. rewrite run_all by done.
    destruct b as [|d b]; [done|]. cbn [String.length Nat.eqb].
    by rewrite <- (slice_to_all (String d b)) at 2.
Qed.

End TimeFacts.

(** ** Line breaks within the tiers of a record *)

Module LineBreakFacts.
Import Py Str CHATReader PyFacts UntranscribedFacts UnitFacts.

Lemma remove_line_breaks_match s :
  remove_line_breaks (String lf (String tab s))
  = String " " (remove_line_breaks s).
Proof.
  unfold remove_line_breaks, replace. cbn [re_sub]. unfold literal at 1.
  cbn. by rewrite (re_sub_literal_start _ _ _ true).
Qed.

Lemma remove_line_breaks_copy c s :
  startswith (String lf (String tab EmptyString)) (String c s) = false →
  remove_line_breaks (String c s) = String c (remove_line_breaks s).
Proof.
  intros H. unfold remove_line_breaks, replace. cbn [re_sub].
  unfold literal at 1. rewrite H.
  by rewrite (re_sub_literal_start _ _ _ true).
Qed.

(** The three shapes of a record and of what is made of it. *)
Lemma remove_line_breaks_cases s :
  (s = EmptyString ∧ remove_line_breaks s = EmptyString)
  ∨ (∃ s', s = String lf (String tab s')
           ∧ remove_line_breaks s = String " " (remove_line_breaks s'))
  ∨ (∃ c s', s = String c s'
             ∧ startswith (String lf (String tab EmptyString)) s = false
             ∧ remove_line_breaks s = String c (remove_line_breaks s')).
Proof.
  destruct s as [|c s]; [by left|]. right.
  destruct (startswith (String lf (String tab EmptyString)) (String c s))
    eqn:E.
  - left. rewrite GarbageFacts.startswith_String in E.
    destruct (Ascii.eqb_spec lf c) as [<-|]; [|done].
    destruct s as [|d s]; [done|].
    rewrite GarbageFacts.startswith_String in E.
    destruct (Ascii.eqb_spec tab d) as [<-|]; [|done].
    exists s. split; [done|]. apply remove_line_breaks_match.
  - right. exists c, s. split_and!; [done..|].
    by apply remove_line_breaks_copy.
Qed.

Lemma contains_line_break c x :
  contains (String lf (String tab EmptyString)) (String c x)
  = (if Ascii.eqb lf c then startswith (String tab EmptyString) x else false)
    || contains (String lf (String tab EmptyString)) x.
Proof. by rewrite contains_unfold, GarbageFacts.startswith_String. Qed.

Lemma remove_line_breaks_bounded len :
  ∀ s, String.length s ≤ len →
       contains (String lf (String tab EmptyString)) (remove_line_breaks s)
       = false
       ∧ split_ws (remove_line_breaks s) = split_ws s
       ∧ String.length (remove_line_breaks s) ≤ String.length s.
Proof.
  induction len as [|len IH]; intros s Hlen.
  { destruct s; [done|cbn in Hlen; lia]. }
  destruct (remove_line_breaks_cases s)
    as [[-> ->]|[(s' & -> & ->)|(c & s' & -> & Hno & ->)]]; [done| |].
  - cbn in Hlen. destruct (IH s') as (H1 & H2 & H3); [lia|].
    split_and!.
    + by rewrite contains_line_break.
    + by rewrite !split_ws_String, H2.
    + cbn. lia.
  - cbn in Hlen. destruct (IH s') as (H1 & H2 & H3); [lia|].
    rewrite contains_line_break, H1, orb_false_r.
    destruct (remove_line_breaks_cases s')
      as [[-> E]|[(s'' & -> & E)|(d & s'' & -> & Hno' & E)]].
    + rewrite E. split_and!; [|done..]. by destruct (Ascii.eqb lf c).
    + rewrite E in H2 |- *. split_and!.
      * by destruct (Ascii.eqb lf c).
      * rewrite (split_ws_String c), (split_ws_String c (String lf _)).
        by rewrite H2.
      * rewrite E in H3. cbn in H3 |- *. lia.
    + rewrite E in H2 |- *. split_and!.
      * rewrite !GarbageFacts.startswith_String in Hno.
        rewrite GarbageFacts.startswith_String.
        destruct (Ascii.eqb lf c); [|done].
        destruct (Ascii.eqb tab d); [|done].
        by rewrite startswith_empty in Hno.
      * rewrite (split_ws_String c), (split_ws_String c (String d s'')).
        by rewrite H2.
      * rewrite E in H3. cbn in H3 |- *. lia.
Qed.

Lemma line_breaks_free_fixed s :
  contains (String lf (String tab EmptyString)) s = false →
  remove_line_breaks s = s.
Proof.
  induction s as [|c s IH]; [done|].
  rewrite contains_unfold. intros [H1 H2]%orb_false_elim.
  rewrite remove_line_breaks_copy by done. by rewrite IH.
Qed.

(** X15. [remove_line_breaks] leaves no line feed with a tab behind it, so
    that a second application changes nothing; it never makes the record
    longer, and the words of the record (its runs between white space)
    stay as they are. *)
Theorem remove_line_breaks_keeps_words (rec : string) :
  contains (String lf (String tab EmptyString)) (remove_line_breaks rec)
  = false
  ∧ remove_line_breaks (remove_line_breaks rec) = remove_line_breaks rec
  ∧ split_ws (remove_line_breaks rec) = split_ws rec
  ∧ String.length (remove_line_breaks rec) ≤ String.length rec.
Proof.
  destruct (remove_line_breaks_bounded (String.length rec) rec)
    as (H1 & H2 & H3); [done|].
  split_and!; [done| |done..].
  by apply line_breaks_free_fixed.
Qed.

End LineBreakFacts.

(** ** The actual and the target form of an utterance *)

Module FormFacts.
Import Py Str CHATReader Spec Laws PyFacts UntranscribedFacts RunLemmas.
Import StrFacts RepairFacts.

(** *** Substitutions and counts of characters *)

Section re_sub_count.
Variable here : bool → string → option (string * nat).
Variable a : ascii.
Hypothesis here_count :
  ∀ at_start s out n,
    here at_start s = Some (out, n) →
    1 ≤ n ∧ count_char a out ≤ count_char a (slice_to n s).

Lemma re_sub_count_bounded len :
  ∀ s at_start, String.length s ≤ len →
                count_char a (re_sub here 0 at_start s) ≤ count_char a s.
Proof.
  induction len as [|len IH]; intros [|c s] at_start Hlen;
    try done; [cbn in Hlen; lia|].
  cbn [re_sub].
  destruct (here at_start (String c s)) as [[out n]|] eqn:E.
  - apply here_count in E as [Hn Hout].
    rewrite re_sub_skip.
    replace (slice_from (n - 1) s) with (slice_from n (String c s))
      by (destruct n; [lia|]; cbn; by rewrite Nat.sub_0_r).
    rewrite <- (slice_to_from n (String c s)) at 2.
    rewrite !count_char_app.
    assert (count_char a (re_sub here 0 false (slice_from n (String c s)))
            ≤ count_char a (slice_from n (String c s))); [|lia].
    apply IH. destruct n; [lia|]. cbn [slice_from].
    pose proof (slice_from_length n s). cbn in Hlen. lia.
  - cbn [count_char].
    assert (count_char a (re_sub here 0 false s) ≤ count_char a s); [|lia].
    apply IH. cbn in Hlen. lia.
Qed.

Lemma re_sub_count s at_start :
  count_char a (re_sub here 0 at_start s) ≤ count_char a s.
Proof. by apply (re_sub_count_bounded (String.length s)). Qed.
End re_sub_count.

Section re_sub_blanks.
Variable here : bool → string → option (string * nat).
Hypothesis here_blanks :
  ∀ at_start s out n,
    here at_start s = Some (out, n) →
    1 ≤ n ∧ count_blank out = count_blank (slice_to n s).

Lemma re_sub_blanks_bounded len :
  ∀ s at_start, String.length s ≤ len →
                count_blank (re_sub here 0 at_start s) = count_blank s.
Proof.
  induction len as [|len IH]; intros [|c s] at_start Hlen;
    try done; [cbn in Hlen; lia|].
  cbn [re_sub].
  destruct (here at_start (String c s)) as [[out n]|] eqn:E.
  - apply here_blanks in E as [Hn Hout].
    rewrite re_sub_skip.
    replace (slice_from (n - 1) s) with (slice_from n (String c s))
      by (destruct n; [lia|]; cbn; by rewrite Nat.sub_0_r).
    rewrite <- (slice_to_from n (String c s)) at 2.
    rewrite !count_blank_app, Hout. f_equal.
    apply IH. destruct n; [lia|]. cbn [slice_from].
    pose proof (slice_from_length n s). cbn in Hlen. lia.
  - cbn [count_blank]. f_equal. apply IH. cbn in Hlen. lia.
Qed.

Lemma re_sub_blanks s at_start :
  count_blank (re_sub here 0 at_start s) = count_blank s.
Proof. by apply (re_sub_blanks_bounded (String.length s)). Qed.
End re_sub_blanks.

(** A substitution whose pattern needs a character that the string does
    not hold changes nothing. *)
Lemma re_sub_without here a s :
  (∀ at_start t out n, here at_start t = Some (out, n) → 1 ≤ count_char a t) →
  count_char a s = 0 → ∀ at_start, re_sub here 0 at_start s = s.
Proof.
  intros Hhere. induction s as [|c s IH]; intros Hs at_start; [done|].
  cbn [re_sub].
  destruct (here at_start (String c s)) as [[out n]|] eqn:E.
  - apply Hhere in E. lia.
  - rewrite IH; [done|]. cbn in Hs. lia.
Qed.

(** *** Words without white space *)

Lemma nonspace_no_blank w :
  all_chars nonspace w = true → count_blank w = 0 ∧ no_char isspace w.
Proof.
  induction w as [|c w IH]; [split; [done|apply no_char_empty]|].
  cbn [all_chars]. intros [Hc Hw]%andb_true_iff.
  destruct (IH Hw) as [IH1 IH2]. unfold nonspace in Hc.
  apply negb_true_iff in Hc. split.
  - cbn [count_blank]. rewrite IH1.
    unfold TurkishCleaner.is_blank.
    destruct (Ascii.eqb_spec c " ") as [->|]; [done|]. done.
  - by apply no_char_String.
Qed.

Lemma all_chars_app p (x y : string) :
  all_chars p (x +:+ y) = all_chars p x && all_chars p y.
Proof.
  induction x as [|c x IH]; [by rewrite app_empty|].
  rewrite app_String. cbn. by rewrite IH, andb_assoc.
Qed.

Lemma string_app_length (x y : string) :
  String.length (x +:+ y) = String.length x + String.length y.
Proof.
  induction x as [|c x IH]; [by rewrite app_empty|].
  rewrite app_String. cbn. by rewrite IH.
Qed.

(** *** Shortenings *)

Lemma close_split_spec w g2 g3 :
  close_split w = Some (g2, g3) →
  w = g2 +:+ String ")" g3 ∧ g2 ≠ EmptyString.
Proof.
  revert g2 g3. induction w as [|c w IH]; intros g2 g3; [done|].
  cbn [close_split].
  destruct (close_split w) as [[h2 h3]|].
  - intros [= <- <-]. destruct (IH h2 h3 eq_refl) as [-> _].
    by rewrite app_String.
  - destruct w as [|d w]; [done|].
    destruct (Ascii.eqb_spec d ")") as [->|];
      [|by destruct d as [[] [] [] [] [] [] [] []]].
    by intros [= <- <-].
Qed.

Lemma open_split_spec w g1 g2 g3 :
  open_split w = Some (g1, g2, g3) →
  w = g1 +:+ String "(" (g2 +:+ String ")" g3) ∧ g2 ≠ EmptyString.
Proof.
  revert g1 g2 g3. induction w as [|c w IH]; intros g1 g2 g3; [done|].
  cbn [open_split].
  destruct (open_split w) as [[[h1 h2] h3]|].
  - intros [= <- <- <-]. destruct (IH h1 h2 h3 eq_refl) as [-> H].
    by rewrite app_String.
  - destruct (eq_char "(" c) eqn:Ec; [|done].
    apply eq_char_spec in Ec as ->.
    destruct (close_split w) as [[h2 h3]|] eqn:E; [|done].
    intros [= <- <- <-]. by apply close_split_spec in E as [-> H].
Qed.

Lemma shortening_here_spec keep at_start s out n :
  shortening_here keep at_start s = Some (out, n) →
  ∃ g1 g2 g3,
    slice_to n s = g1 +:+ String "(" (g2 +:+ String ")" g3)
    ∧ out = g1 +:+ (if keep then g2 else EmptyString) +:+ g3
    ∧ g2 ≠ EmptyString
    ∧ all_chars nonspace (slice_to n s) = true
    ∧ 1 ≤ n.
Proof.
  unfold shortening_here.
  destruct (open_split _) as [[[g1 g2] g3]|] eqn:E; [|done].
  intros [= <- <-]. apply open_split_spec in E as [E Hg2].
  exists g1, g2, g3.
  rewrite run_slice_length. split_and!; [done..| |].
  - apply run_slice_all.
  - apply (f_equal String.length) in E. rewrite run_slice_length in E.
    rewrite E, string_app_length. cbn. lia.
Qed.

Lemma shortening_blanks keep at_start s out n :
  shortening_here keep at_start s = Some (out, n) →
  1 ≤ n ∧ count_blank out = count_blank (slice_to n s).
Proof.
  intros (g1 & g2 & g3 & E & -> & Hg2 & Hw & Hn)%shortening_here_spec.
  split; [done|].
  pose proof (proj1 (nonspace_no_blank _ Hw)) as H0. rewrite H0.
  rewrite E, count_blank_app in H0.
  change (count_blank (String "(" ?x)) with (count_blank x) in H0.
  rewrite count_blank_app in H0.
  change (count_blank (String ")" ?x)) with (count_blank x) in H0.
  rewrite !count_blank_app. destruct keep; cbn [count_blank]; lia.
Qed.

Lemma shortening_brackets keep at_start s out n :
  shortening_here keep at_start s = Some (out, n) →
  1 ≤ n ∧ count_char "[" out ≤ count_char "[" (slice_to n s).
Proof.
  intros (g1 & g2 & g3 & E & -> & Hg2 & Hw & Hn)%shortening_here_spec.
  split; [done|]. rewrite E.
  rewrite !count_char_app. cbn [count_char].
  rewrite count_char_app. cbn [count_char].
  destruct keep; cbn; lia.
Qed.

Lemma shortening_target_same_words at_start s out n :
  shortening_here true at_start s = Some (out, n) →
  1 ≤ n ∧ same_words out (slice_to n s).
Proof.
  intros (g1 & g2 & g3 & E & -> & Hg2 & Hw & Hn)%shortening_here_spec.
  split; [done|].
  assert (all_chars nonspace (g1 +:+ g2 +:+ g3) = true) as Hout.
  { rewrite E, all_chars_app in Hw. cbn [all_chars] in Hw.
    rewrite all_chars_app in Hw. cbn [all_chars] in Hw.
    rewrite !andb_true_iff in Hw. destruct Hw as (H1 & _ & H2 & _ & H3).
    by rewrite !all_chars_app, H1, H2, H3. }
  apply same_words_block.
  - destruct g1; [|done]. rewrite app_empty. by destruct g2.
  - rewrite E. destruct g1; [done|]. by rewrite app_String.
  - by apply nonspace_no_blank.
  - by apply nonspace_no_blank.
Qed.

(** *** Fragments *)

Lemma fragment_here_spec keep at_start s out n :
  fragment_here keep at_start s = Some (out, n) →
  ∃ w, slice_to n s = String "&" w ∧ w ≠ EmptyString
       ∧ all_chars nonspace w = true
       ∧ out = (if keep then w else "xxx") ∧ 1 ≤ n.
Proof.
  unfold fragment_here. destruct s as [|c r]; [done|].
  destruct (Ascii.eqb_spec c "&") as [->|];
    [|by destruct c as [[] [] [] [] [] [] [] []]].
  destruct (Nat.eqb_spec (run nonspace r) 0) as [|Hk]; [done|].
  intros [= <- <-]. exists (slice_to (run nonspace r) r).
  split_and!; [done| |apply run_slice_all|done|lia].
  intros H. apply (f_equal String.length) in H.
  by rewrite run_slice_length in H.
Qed.

Lemma fragment_same_words keep at_start s out n :
  fragment_here keep at_start s = Some (out, n) →
  1 ≤ n ∧ same_words out (slice_to n s).
Proof.
  intros (w & -> & Hne & Hw & -> & Hn)%fragment_here_spec.
  split; [done|]. apply same_words_block.
  - by destruct keep.
  - done.
  - destruct keep; [by apply nonspace_no_blank|literal_no_space].
  - apply no_char_String. split; [done|]. by apply nonspace_no_blank.
Qed.

Lemma fragment_brackets keep at_start s out n :
  fragment_here keep at_start s = Some (out, n) →
  1 ≤ n ∧ count_char "[" out ≤ count_char "[" (slice_to n s).
Proof.
  intros (w & -> & Hne & Hw & -> & Hn)%fragment_here_spec.
  split; [done|]. destruct keep; cbn; lia.
Qed.

(** *** Replacements *)

Lemma startswith_app p s :
  startswith p s = true → s = p +:+ slice_from (String.length p) s.
Proof.
  intros H. rewrite <- (startswith_slice_to p s H) at 1.
  by rewrite slice_to_from.
Qed.

Lemma bracket_here_bracket mark t r :
  bracket_here mark t = Some r → 1 ≤ count_char "[" t.
Proof.
  unfold bracket_here.
  destruct (startswith (" [" +:+ mark) t) eqn:E; [|done]. intros _.
  apply startswith_app in E. rewrite E.
  change (" [" +:+ mark) with (String " " (String "[" mark)).
  rewrite !app_String. cbn. lia.
Qed.

Lemma lazy_until_found {A} (stop : string → option A) l g x :
  lazy_until stop l = Some (g, x) → ∃ t, stop t = Some x ∧ l = g +:+ t.
Proof.
  revert g. induction l as [|c l IH]; intros g; cbn [lazy_until].
  - destruct (stop EmptyString) eqn:E; [|done]. intros [= <- <-]. eauto.
  - destruct (stop (String c l)) eqn:E; [intros [= <- <-]; eauto|].
    destruct (lazy_until stop l) as [[h y]|]; [|done].
    intros [= <- <-]. destruct (IH h eq_refl) as (t & Ht & ->).
    exists t. by rewrite app_String.
Qed.

Lemma dot_star_prefix r :
  ∃ rest, r = TurkishCleaner.dot_star r +:+ rest.
Proof.
  induction r as [|c r [rest IH]]; [by exists EmptyString|].
  cbn [TurkishCleaner.dot_star].
  destruct (Ascii.eqb c "010"); [by exists (String c r)|].
  exists rest. by rewrite app_String, <- IH.
Qed.

Lemma scoped_here_bracket mark s r :
  scoped_here mark s = Some r → 1 ≤ count_char "[" s.
Proof.
  unfold scoped_here. destruct s as [|c s]; [done|].
  destruct (Ascii.eqb_spec c "<") as [->|];
    [|by destruct c as [[] [] [] [] [] [] [] []]].
  destruct (lazy_until _ _) as [[g [words n]]|] eqn:E; [|done]. intros _.
  apply lazy_until_found in E as (t & Ht & El).
  destruct t as [|d t]; [done|].
  destruct (Ascii.eqb_spec d ">") as [->|];
    [|by destruct d as [[] [] [] [] [] [] [] []]].
  apply bracket_here_bracket in Ht.
  destruct (dot_star_prefix s) as [rest Hs].
  rewrite Hs, El. cbn [count_char].
  rewrite !count_char_app. cbn [count_char]. lia.
Qed.

Lemma word_here_bracket mark s r :
  word_here mark s = Some r → 1 ≤ count_char "[" s.
Proof.
  unfold word_here.
  destruct (run nonspace s =? 0); [done|].
  destruct (bracket_here _ _) as [[words n]|] eqn:E; [|done]. intros _.
  apply bracket_here_bracket in E.
  rewrite <- (slice_to_from (run nonspace s) s), count_char_app. lia.
Qed.

Lemma keep_replaced_without mark utterance :
  count_char "[" utterance = 0 → keep_replaced mark utterance = utterance.
Proof.
  intros H. unfold keep_replaced.
  rewrite (re_sub_without _ "[" utterance); [|clear|done].
  - apply (re_sub_without _ "["); [|done].
    intros b t out n.
    destruct (word_here mark t) as [[[g w] k]|] eqn:E; [|done].
    intros _. by eapply word_here_bracket.
  - intros b t out n.
    destruct (scoped_here mark t) as [[[g w] k]|] eqn:E; [|done].
    intros _. by eapply scoped_here_bracket.
Qed.

Lemma keep_replacing_without mark utterance :
  count_char "[" utterance = 0 → keep_replacing mark utterance = utterance.
Proof.
  intros H. unfold keep_replacing.
  apply (re_sub_without _ "["); [|done].
  intros b t out n.
  destruct (scoped_here mark t) as [[[g w] k]|] eqn:E.
  { intros _. by eapply scoped_here_bracket. }
  destruct (word_here mark t) as [[[g w] k]|] eqn:E'; [|done].
  intros _. by eapply word_here_bracket.
Qed.

Lemma get_words_blanks utterance :
  length (get_words utterance) = S (count_blank utterance).
Proof. apply (blank_word_count_blanks utterance). Qed.

(** *** The properties *)

(** X16. Shortenings and fragments are resolved within their word: the actual
    and the target form both have as many words as the utterance had,
    counted as [get_words] counts them.  In the target form, and for the
    fragments in the actual form as well, the runs between white space
    stay as many too. *)
Theorem shortenings_and_fragments_keep_words (utterance : string) :
  length (get_words (get_shortening_actual utterance))
  = length (get_words utterance)
  ∧ length (get_words (get_shortening_target utterance))
    = length (get_words utterance)
  ∧ word_count (get_shortening_target utterance) = word_count utterance
  ∧ length (get_words (get_fragment_actual utterance))
    = length (get_words utterance)
  ∧ word_count (get_fragment_actual utterance) = word_count utterance
  ∧ length (get_words (get_fragment_target utterance))
    = length (get_words utterance)
  ∧ word_count (get_fragment_target utterance) = word_count utterance.
Proof.
  pose proof (re_sub_same_words _ shortening_target_same_words utterance)
    as [H1 H2]%same_words_counts.
  pose proof (re_sub_same_words _ (fragment_same_words true) utterance)
    as [H3 H4]%same_words_counts.
  pose proof (re_sub_same_words _ (fragment_same_words false) utterance)
    as [H5 H6]%same_words_counts.
  split_and!; try done.
  rewrite !get_words_blanks. f_equal.
  apply (re_sub_blanks _ (shortening_blanks false)).
Qed.

(** X17. An utterance without a bracket holds no replacement: its actual and
    its target form have as many words as the utterance itself, so that
    the parser, which pairs the words of the two forms, drops none. *)
Theorem forms_without_replacement (utterance : string) :
  has_char "[" utterance = false →
  length (get_words (get_actual_utterance utterance))
  = length (get_words utterance)
  ∧ length (get_words (get_target_utterance utterance))
    = length (get_words utterance)
  ∧ length (zip (get_words (get_actual_utterance utterance))
              (get_words (get_target_utterance utterance)))
    = length (get_words utterance).
Proof.
  intros H%count_char_none.
  assert (length (get_words (get_actual_utterance utterance))
          = length (get_words utterance)) as Ha.
  { unfold get_actual_utterance, get_replacement_actual.
    pose proof (re_sub_count _ "[" (shortening_brackets false)
                  utterance true) as H1.
    fold (get_shortening_actual utterance) in H1.
    pose proof (re_sub_count _ "[" (fragment_brackets true)
                  (get_shortening_actual utterance) true) as H2.
    fold (get_fragment_actual (get_shortening_actual utterance)) in H2.
    rewrite keep_replaced_without by lia.
    rewrite !get_words_blanks. f_equal.
    unfold get_fragment_actual.
    rewrite (re_sub_blanks _ (λ b s out n H,
               let '(conj H1 H2) := fragment_same_words true b s out n H in
               conj H1 (proj2 H2))).
    apply (re_sub_blanks _ (shortening_blanks false)). }
  assert (length (get_words (get_target_utterance utterance))
          = length (get_words utterance)) as Ht.
  { unfold get_target_utterance, get_replacement_target.
    pose proof (re_sub_count _ "[" (shortening_brackets true)
                  utterance true) as H1.
    fold (get_shortening_target utterance) in H1.
    pose proof (re_sub_count _ "[" (fragment_brackets false)
                  (get_shortening_target utterance) true) as H2.
    fold (get_fragment_target (get_shortening_target utterance)) in H2.
    rewrite keep_replacing_without by lia.
    rewrite !get_words_blanks. f_equal.
    unfold get_fragment_target.
    rewrite (re_sub_blanks _ (λ b s out n H,
               let '(conj H1 H2) := fragment_same_words false b s out n H in
               conj H1 (proj2 H2))).
    apply (re_sub_blanks _ (shortening_blanks true)). }
  split_and!; [done..|].
  rewrite CHATFacts.zip_length_min. lia.
Qed.

Lemma forms_without_replacement_example :
  let utterance := "This (i)s a short(e)ned senten(ce) &at ." in
  length (get_words (get_actual_utterance utterance)) = 7
  ∧ length (get_words (get_target_utterance utterance)) = 7
  ∧ length (zip (get_words (get_actual_utterance utterance))
              (get_words (get_target_utterance utterance))) = 7.
Proof.
  apply (forms_without_replacement
           "This (i)s a short(e)ned senten(ce) &at ."). reflexivity.
Defined.

End FormFacts.

(** ** The morphemes of an Inuktitut word *)

Module InuktitutFacts.
Import Py Str InuktitutReader PyFacts UntranscribedFacts RunLemmas StrFacts.
Import RepairFacts FormFacts Texts.

Lemma bar_split_caret line g1 r :
  bar_split line = Some (g1, r) → has_char "^" r = true.
Proof.
  revert g1. induction line as [|c line IH]; intros g1; [done|].
  cbn [bar_split]. destruct (bar_split line) as [[g r']|].
  - intros [= _ <-]. by eapply IH.
  - destruct (eq_char "|" c); [|done].
    destruct (has_char "^" line) eqn:E; [|done]. by intros [= _ <-].
Qed.

Lemma find_char_has a s : has_char a s = true → is_Some (find_char (eq_char a) s).
Proof.
  induction s as [|c s IH]; [done|]. cbn [has_char find_char].
  rewrite eq_char_eqb. destruct (Ascii.eqb a c); [done|].
  intros H. destruct (IH H) as [k ->]. done.
Qed.

Lemma bar_split_none line :
  bar_split line = None
  ↔ (fix go l := match l with
                 | EmptyString => false
                 | String c l' => (eq_char "|" c && has_char "^" l') || go l'
                 end) line = false.
Proof.
  induction line as [|c line IH]; [done|]. cbn [bar_split].
  destruct (bar_split line) as [[g r]|].
  - split; [done|]. intros H. apply orb_false_iff in H as [_ H].
    by apply IH in H.
  - assert (None = None :> option (string * string)) as H by done.
    apply IH in H. rewrite H, orb_false_r.
    by destruct (eq_char "|" c && has_char "^" line).
Qed.

Lemma morpheme_here_line s :
  is_Some (morpheme_here s) → bar_then_caret s = true.
Proof.
  unfold morpheme_here. intros Hs.
  destruct (bar_split (TurkishCleaner.dot_star s)) as [[g r]|] eqn:E;
    [clear Hs|by destruct Hs].
  assert (bar_split (TurkishCleaner.dot_star s) ≠ None) as Hn by by rewrite E.
  rewrite bar_split_none in Hn. clear E.
  induction s as [|c s IH]; [done|].
  cbn [TurkishCleaner.dot_star bar_then_caret] in *.
  destruct (Ascii.eqb c "010"); [done|].
  destruct (eq_char "|" c && has_char "^" (TurkishCleaner.dot_star s));
    [done|].
  cbn [orb] in *. by apply IH.
Qed.

Lemma morpheme_here_bar s :
  has_char "^" (TurkishCleaner.dot_star s) = true →
  is_Some (morpheme_here (String "|" s)).
Proof.
  intros H. unfold morpheme_here.
  change (TurkishCleaner.dot_star (String "|" s))
    with (String "|" (TurkishCleaner.dot_star s)).
  destruct (bar_split (String "|" (TurkishCleaner.dot_star s)))
    as [[g r]|] eqn:E.
  - apply bar_split_caret in E. by destruct (find_char_has _ _ E) as [k ->].
  - apply bar_split_none in E. cbn in E. by rewrite H in E.
Qed.

Lemma search_morpheme s :
  is_Some (search morpheme_here s) ↔ bar_then_caret s = true.
Proof.
  induction s as [|c s IH].
  { cbn. split; [by intros [? ?]|done]. }
  cbn [search bar_then_caret].
  destruct (morpheme_here (String c s)) as [m|] eqn:E.
  - split; [intros _|done].
    by apply (morpheme_here_line (String c s)); rewrite E.
  - rewrite IH. split; [intros ->; by rewrite orb_true_r|].
    intros H. apply orb_true_iff in H as [H|H]; [|done].
    apply andb_true_iff in H as [Hc H]. apply eq_char_spec in Hc as ->.
    apply morpheme_here_bar in H. rewrite E in H. by destruct H.
Qed.

Lemma morphemes_of_cases pieces :
  (Exists (λ p, bar_then_caret p = false) pieces
   ∧ morphemes_of pieces = Raised)
  ∨ (Forall (λ p, bar_then_caret p = true) pieces
     ∧ ∃ ms, morphemes_of pieces = Ok ms ∧ length ms = length pieces).
Proof.
  induction pieces as [|p pieces IH].
  { right. split; [done|]. by exists []. }
  cbn [morphemes_of]. pose proof (search_morpheme p) as Hp.
  destruct (search morpheme_here p) as [m|].
  - assert (bar_then_caret p = true) as Hb by by apply Hp.
    destruct IH as [[Hex ->]|[Hall (ms & -> & Hlen)]].
    + left. split; [by apply Exists_cons_tl|done].
    + right. split; [by constructor|]. exists (m :: ms). cbn.
      by rewrite Hlen.
  - left. split; [|done]. apply Exists_cons_hd.
    destruct (bar_then_caret p); [|done].
    destruct Hp as [_ Hp]. by destruct (Hp eq_refl).
Qed.

(** X18. The three lists of an Inuktitut word come from one walk over the
    pieces between its pluses.  When some piece has no bar with a caret
    behind it in its line (the empty word is such a piece), all three
    readers raise; otherwise all three return, each with one entry for
    each piece, so that the morphemes of a word of this corpus can never
    disagree in number. *)
Theorem inuktitut_morphemes_aligned (word : string) :
  (Exists (λ p, bar_then_caret p = false) (split_on (eq_char "+") word)
   ∧ get_segments word = Raised ∧ get_glosses word = Raised
   ∧ get_poses word = Raised)
  ∨ (Forall (λ p, bar_then_caret p = true) (split_on (eq_char "+") word)
     ∧ ∃ segments glosses poses,
       get_segments word = Ok segments ∧ get_glosses word = Ok glosses
       ∧ get_poses word = Ok poses
       ∧ length segments = length (split_on (eq_char "+") word)
       ∧ length glosses = length segments
       ∧ length poses = length segments).
Proof.
  unfold get_segments, get_glosses, get_poses, iter_morphemes.
  destruct (morphemes_of_cases (split_on (eq_char "+") word))
    as [[Hex ->]|[Hall (ms & -> & Hlen)]].
  - by left.
  - right. split; [done|].
    eexists _, _, _. split_and!; try done; by rewrite ?length_fmap.
Qed.

(** *** A word put together from its morphemes *)

Lemma bar_split_no_caret g : has_char "^" g = false → bar_split g = None.
Proof.
  induction g as [|c g IH]; [done|]. cbn [has_char bar_split].
  destruct (Ascii.eqb "^" c); [done|]. intros H.
  rewrite IH by done. by rewrite H, andb_false_r.
Qed.

Lemma bar_split_no_bar s g :
  has_char "|" s = false → has_char "^" g = false →
  bar_split (s +:+ String "^" g) = None.
Proof.
  intros Hs Hg. induction s as [|c s IH].
  - rewrite app_empty. cbn [bar_split]. by rewrite bar_split_no_caret.
  - cbn [has_char] in Hs. rewrite app_String. cbn [bar_split].
    destruct (Ascii.eqb_spec "|" c) as [|Hc]; [done|].
    rewrite IH by done.
    destruct (eq_char "|" c) eqn:E; [|done].
    apply eq_char_spec in E. by subst.
Qed.

Lemma bar_split_last p rest :
  bar_split rest = None → has_char "^" rest = true →
  bar_split (p +:+ String "|" rest) = Some (p, rest).
Proof.
  intros Hr Hc. induction p as [|c p IH].
  - rewrite app_empty. cbn [bar_split]. by rewrite Hr, Hc.
  - rewrite app_String. cbn [bar_split]. by rewrite IH.
Qed.

Lemma dot_star_line x : has_char lf x = false → TurkishCleaner.dot_star x = x.
Proof.
  induction x as [|c x IH]; [done|]. cbn [has_char TurkishCleaner.dot_star].
  change "010"%char with lf. rewrite (Ascii.eqb_sym c lf).
  destruct (Ascii.eqb lf c); [done|]. intros H. by rewrite IH.
Qed.

Lemma find_char_first a s rest :
  has_char a s = false →
  find_char (eq_char a) (s +:+ String a rest) = Some (String.length s).
Proof.
  intros Hs. induction s as [|c s IH].
  - rewrite app_empty. cbn. unfold eq_char. by rewrite Ascii.eqb_refl.
  - cbn [has_char] in Hs. rewrite app_String. cbn [find_char].
    rewrite eq_char_eqb.
    destruct (Ascii.eqb a c); [done|]. by rewrite IH.
Qed.

Lemma morpheme_here_parts pos seg gloss :
  has_char lf (pos +:+ seg +:+ gloss) = false →
  has_char "|" seg = false → has_char "^" seg = false →
  has_char "^" gloss = false →
  morpheme_here (pos +:+ "|" +:+ seg +:+ "^" +:+ gloss)
  = Some (pos, seg, gloss).
Proof.
  intros Hlf Hbar Hc1 Hc2.
  rewrite !has_char_app, !orb_false_iff in Hlf.
  destruct Hlf as (Hl1 & Hl2 & Hl3).
  assert (pos +:+ "|" +:+ seg +:+ "^" +:+ gloss
          = pos +:+ String "|" (seg +:+ String "^" gloss)) as -> by done.
  unfold morpheme_here.
  rewrite dot_star_line.
  2:{ rewrite has_char_app. cbn [has_char]. rewrite has_char_app.
      cbn [has_char]. by rewrite Hl1, Hl2, Hl3. }
  rewrite bar_split_last.
  - rewrite find_char_first by done. rewrite slice_to_app.
    assert (slice_from (S (String.length seg)) (seg +:+ String "^" gloss)
            = gloss) as ->; [|done].
    clear. induction seg as [|c seg IH]; [by rewrite app_empty; destruct gloss|].
    by rewrite app_String.
  - by apply bar_split_no_bar.
  - rewrite has_char_app. cbn [has_char]. by rewrite orb_true_r.
Qed.

Lemma plain_morpheme_spec m :
  plain_morpheme m = true →
  no_char (eq_char "+") (morpheme_text m)
  ∧ search morpheme_here (morpheme_text m) = Some m.
Proof.
  destruct m as [[pos seg] gloss]. unfold plain_morpheme, morpheme_text.
  cbn [fst snd]. rewrite !andb_true_iff, !negb_true_iff.
  intros ((((Hplus & Hlf) & Hbar) & Hc1) & Hc2). split.
  { by apply no_char_eq_char. }
  apply search_here, morpheme_here_parts; try done.
  rewrite !has_char_app in Hlf. rewrite !has_char_app.
  cbn [has_char] in Hlf.
  destruct (has_char lf pos), (has_char lf seg), (has_char lf gloss);
    try done; by rewrite ?orb_true_r in Hlf.
Qed.

Lemma morphemes_of_texts ms :
  Forall (λ m, plain_morpheme m = true) ms →
  morphemes_of (morpheme_text <$> ms) = Ok ms.
Proof.
  induction 1 as [|m ms Hm _ IH]; [done|].
  cbn [fmap list_fmap morphemes_of].
  apply plain_morpheme_spec in Hm as [_ ->].
  change (morphemes_of (morpheme_text <$> ms) = Ok ms) in IH.
  by rewrite IH.
Qed.

(** X19. A word of the Inuktitut morphology tier that is written from its
    morphemes, each as the tag, a bar, the segment, a caret and the
    gloss, with a plus between the morphemes, is read back as written:
    the three readers return the tags, the segments and the glosses in
    their order.  The tag may itself hold bars, the gloss may not hold a
    caret. *)
Theorem inuktitut_word_read_back (ms : list (string * string * string)) :
  ms ≠ [] →
  Forall (λ m, plain_morpheme m = true) ms →
  get_poses (morpheme_word ms) = Ok ((λ m, m.1.1) <$> ms)
  ∧ get_segments (morpheme_word ms) = Ok ((λ m, m.1.2) <$> ms)
  ∧ get_glosses (morpheme_word ms) = Ok ((λ m, m.2) <$> ms).
Proof.
  intros Hne Hall.
  assert (iter_morphemes (morpheme_word ms) = Ok ms) as E.
  { unfold iter_morphemes, morpheme_word.
    change "+" with (String "+" EmptyString) at 1.
    rewrite split_join_char.
    - by apply morphemes_of_texts.
    - by destruct ms.
    - apply Forall_fmap. eapply Forall_impl; [exact Hall|].
      intros m Hm. by apply plain_morpheme_spec in Hm as [? _]. }
  unfold get_poses, get_segments, get_glosses. by rewrite E.
Qed.

Lemma inuktitut_word_read_back_example :
  get_poses "LR|qa^outside+VV|VA|tit^CAUS" = Ok ["LR"; "VV|VA"]
  ∧ get_segments "LR|qa^outside+VV|VA|tit^CAUS" = Ok ["qa"; "tit"]
  ∧ get_glosses "LR|qa^outside+VV|VA|tit^CAUS" = Ok ["outside"; "CAUS"].
Proof.
  apply (inuktitut_word_read_back
           [("LR", "qa", "outside"); ("VV|VA", "tit", "CAUS")]).
  - done.
  - repeat constructor.
Defined.

End InuktitutFacts.

(** ** The sentence type of an utterance *)

Module SentenceFacts.
Import Py Str CHATReader PyFacts UntranscribedFacts RunLemmas StrFacts.
Import FormFacts.

(** The start of a postcode cannot begin in a text and end behind the
    blank that follows the text. *)
Lemma postcode_inside c x rest :
  startswith " [+" (String c x +:+ String " " rest)
  = startswith " [+" (String c x).
Proof.
  rewrite app_String, !GarbageFacts.startswith_String.
  destruct (Ascii.eqb " " c); [|done].
  destruct x as [|c2 x]; [by rewrite app_empty|].
  rewrite app_String, !GarbageFacts.startswith_String.
  destruct (Ascii.eqb "[" c2); [|done].
  destruct x as [|c3 x]; [by rewrite app_empty|].
  by rewrite app_String, !GarbageFacts.startswith_String.
Qed.

Lemma terminator_ahead_inside x c0 r0 :
  contains " [+" x = false → terminator_char c0 = true →
  terminator_ahead
    (slice_from (run terminator_char (x +:+ String " " (String c0 r0)))
       (x +:+ String " " (String c0 r0))) = false.
Proof.
  intros Hx Hc. induction x as [|c x IH].
  - rewrite app_empty. cbn [run]. change (terminator_char " ") with false.
    cbn [slice_from]. unfold terminator_ahead.
    rewrite !GarbageFacts.startswith_String.
    change (Ascii.eqb " " " ") with true. cbv iota.
    destruct (Ascii.eqb_spec "[" c0) as [<-|]; [by vm_compute in Hc|done].
  - rewrite contains_unfold in Hx. apply orb_false_iff in Hx as [Hs Hx].
    rewrite app_String. cbn [run].
    destruct (terminator_char c) eqn:E.
    + cbn [slice_from]. by apply IH.
    + cbn [slice_from]. unfold terminator_ahead.
      rewrite <- app_String, postcode_inside, Hs.
      by destruct x; [rewrite app_empty|rewrite app_String].
Qed.

Lemma terminator_here_inside x c0 r0 :
  contains " [+" x = false → terminator_char c0 = true →
  terminator_here (x +:+ String " " (String c0 r0)) = None.
Proof.
  intros Hx Hc. unfold terminator_here. cbv zeta.
  rewrite terminator_ahead_inside by done.
  destruct (upto_last _ _); [|done]. by rewrite andb_false_r.
Qed.

Lemma search_terminator_inside w c0 r0 :
  contains " [+" w = false → terminator_char c0 = true →
  search terminator_here (w +:+ String " " (String c0 r0))
  = search terminator_here (String c0 r0).
Proof.
  intros Hw Hc. induction w as [|c w IH].
  - rewrite app_empty.
    rewrite search_next; [done|].
    by apply (terminator_here_inside EmptyString).
  - pose proof (terminator_here_inside _ c0 r0 Hw Hc) as Hn.
    rewrite contains_unfold in Hw. apply orb_false_iff in Hw as [_ Hw].
    rewrite app_String in *. rewrite search_next by done. by apply IH.
Qed.

(** The keys of [mapping]. *)
Lemma mapping_keys t ty :
  mapping t = Ok ty →
  t ∈ ["."; "?"; "!"; "+."; "+..."; "+..?"; "+!?"; "+/."; "+/?"; "+//.";
       "+//?"; String "+" (String dquote "/."); String "+" (String dquote ".")].
Proof.
  unfold mapping.
  repeat match goal with
         | |- context [String.eqb t ?k] =>
             destruct (String.eqb_spec t k) as [->|_];
             [intros _; by repeat constructor|]
         end.
  done.
Qed.

(** X20. An utterance that ends with a blank and one of the thirteen
    terminators of the table, with or without a postcode behind it, has
    the sentence type the table gives for the terminator, whatever the
    words before the blank are, as long as no postcode starts among
    them. *)
Theorem sentence_type_of_terminator (w t ty post : string) :
  mapping t = Ok ty →
  contains " [+" w = false →
  post = EmptyString ∨ startswith " [+" post = true →
  get_sentence_type (w +:+ " " +:+ t +:+ post) = Ok ty.
Proof.
  intros Ht Hw Hpost. unfold get_sentence_type.
  assert (terminator_here (t +:+ post) = Some t
          ∧ ∃ c0 r0, t +:+ post = String c0 r0 ∧ terminator_char c0 = true)
    as [Hhere (c0 & r0 & E & Hc)].
  { destruct Hpost as [->|Hp].
    - apply mapping_keys in Ht.
      repeat (apply elem_of_cons in Ht as [->|Ht];
              [split; [by vm_compute
                      |rewrite app_String; eexists _, _; by split]|]).
      by apply elem_of_nil in Ht.
    - apply startswith_app in Hp. rewrite Hp.
      generalize (slice_from (String.length " [+") post). intros z.
      apply mapping_keys in Ht.
      repeat (apply elem_of_cons in Ht as [->|Ht];
              [split; [by vm_compute
                      |rewrite app_String; eexists _, _; by split]|]).
      by apply elem_of_nil in Ht. }
  assert (w +:+ " " +:+ t +:+ post = w +:+ String " " (t +:+ post)) as ->
    by done.
  rewrite E, search_terminator_inside by done.
  rewrite <- E, (search_here _ _ _ Hhere). done.
Qed.

Lemma sentence_type_of_terminator_example :
  get_sentence_type "he said [: says] no. really +..? [+ bch]"
  = Ok "trail off of question".
Proof.
  apply (sentence_type_of_terminator "he said [: says] no. really" "+..?"
           "trail off of question" " [+ bch]").
  - reflexivity.
  - reflexivity.
  - right. reflexivity.
Defined.

Lemma upto_last_without p s :
  all_chars (λ c, negb (p c)) s = true → ∀ n, upto_last p (slice_to n s) = None.
Proof.
  induction s as [|c s IH]; intros H n; [by destruct n|].
  cbn [all_chars] in H. apply andb_true_iff in H as [Hc H].
  destruct n as [|n]; [done|]. cbn [slice_to upto_last].
  rewrite IH by done. by destruct (p c).
Qed.

(** X21. An utterance in which there is no full stop, exclamation mark or
    question mark has no sentence type: [get_sentence_type] raises. *)
Theorem sentence_type_needs_terminator (utterance : string) :
  all_chars (λ c, negb (is_terminator c)) utterance = true →
  get_sentence_type utterance = Raised.
Proof.
  intros H. unfold get_sentence_type.
  assert (search terminator_here utterance = None) as ->; [|done].
  induction utterance as [|c u IH].
  - done.
  - cbn [search]. unfold terminator_here at 1. cbv zeta.
    rewrite upto_last_without by done.
    cbn [all_chars] in H. apply andb_true_iff in H as [_ H]. by apply IH.
Qed.

Lemma sentence_type_needs_terminator_example :
  get_sentence_type "ke eng +/" = Raised.
Proof. apply sentence_type_needs_terminator. reflexivity. Defined.

End SentenceFacts.

(** ** Fields of the metadata and tiers of a record, line by line *)

Module FieldFacts.
Import Py Str CHATReader PyFacts UntranscribedFacts RunLemmas StrFacts.
Import FormFacts InuktitutFacts Texts.

Lemma app_empty_r' (s : string) : s +:+ EmptyString = s.
Proof. induction s as [|c s IH]; [done|]. by rewrite app_String, IH. Qed.

Lemma startswith_extend p s t :
  startswith p s = true → startswith p (s +:+ t) = true.
Proof.
  revert s. induction p as [|a p IH]; intros s; [by rewrite startswith_empty|].
  destruct s as [|c s]; [done|]. rewrite app_String.
  rewrite !GarbageFacts.startswith_String.
  destruct (Ascii.eqb a c); [apply IH|done].
Qed.

Lemma finditer_skip {A} (here : string → option (A * nat)) x y :
  finditer here (String.length x) (x +:+ y) = finditer here 0 y.
Proof.
  induction x as [|c x IH]; [by rewrite app_empty; destruct y|].
  by rewrite app_String.
Qed.

Lemma plain_name_line name : plain_name name = true → has_char lf name = false.
Proof.
  unfold plain_name. induction name as [|c name IH]; [done|].
  cbn [all_chars has_char]. intros [Hc H]%andb_true_iff.
  destruct (Ascii.eqb_spec lf c) as [<-|]; [done|]. by apply IH.
Qed.

Section lines.
Variables (sign : ascii) (m : string).
Hypothesis sign_lf : Ascii.eqb sign lf = false.
Hypothesis m_lf : has_char lf m = false.

Let marker := String sign m.
Let here := field_here marker.

Lemma startswith_line p x tail :
  has_char lf p = false → follows tail →
  startswith p (x +:+ tail) = startswith p x.
Proof.
  intros Hp [->|[r ->]]; [by rewrite app_empty_r'|].
  revert x. induction p as [|a p IH]; intros x.
  { by rewrite !startswith_empty. }
  cbn [has_char] in Hp.
  destruct (Ascii.eqb lf a) eqn:E; [done|].
  destruct x as [|c x].
  - rewrite app_empty. cbn. rewrite Ascii.eqb_sym. by rewrite E.
  - rewrite app_String, !GarbageFacts.startswith_String.
    destruct (Ascii.eqb a c); [by apply IH|done].
Qed.

Lemma marker_lf : has_char lf marker = false.
Proof.
  unfold marker. cbn [has_char]. rewrite Ascii.eqb_sym, sign_lf. exact m_lf.
Qed.

Lemma here_tail tail : follows tail → here tail = None.
Proof.
  unfold here, field_here, marker. intros [->|[r ->]]; [done|].
  rewrite GarbageFacts.startswith_String. by rewrite sign_lf.
Qed.

Lemma dot_star_tail c tail :
  has_char lf c = false → follows tail →
  TurkishCleaner.dot_star (c +:+ tail) = c.
Proof.
  intros Hc [->|[r ->]].
  - rewrite app_empty_r'. by apply dot_star_line.
  - induction c as [|a c IH]; [by rewrite app_empty|].
    cbn [has_char] in Hc. rewrite app_String.
    cbn [TurkishCleaner.dot_star]. change "010"%char with lf.
    rewrite (Ascii.eqb_sym a lf).
    destruct (Ascii.eqb lf a); [done|]. by rewrite IH.
Qed.

(** A line that starts with the marker, seen by the pattern. *)
Lemma here_line l tail :
  has_char lf l = false → follows tail → startswith marker l = true →
  here (l +:+ tail)
  = Some (slice_from (String.length marker) l, String.length l).
Proof.
  intros Hl Ht Hs. unfold here, field_here.
  rewrite (startswith_extend _ _ _ Hs). cbv zeta.
  pose proof (startswith_app _ _ Hs) as E.
  set (c := slice_from (String.length marker) l) in *.
  assert (has_char lf c = false) as Hc.
  { rewrite E, has_char_app in Hl. by apply orb_false_iff in Hl as [_ ?]. }
  assert (slice_from (String.length marker) (l +:+ tail) = c +:+ tail) as ->.
  { rewrite E, app_assoc'. by rewrite slice_from_app. }
  rewrite dot_star_tail by done.
  rewrite <- string_app_length. by rewrite <- E.
Qed.

Lemma here_not_line l tail :
  follows tail → startswith marker l = false → here (l +:+ tail) = None.
Proof.
  intros Ht Hs. unfold here, field_here.
  by rewrite (startswith_line _ _ _ marker_lf Ht), Hs.
Qed.

Lemma finditer_tail tail :
  follows tail → finditer here 0 tail = finditer here 0 (slice_from 1 tail).
Proof.
  intros Ht. pose proof (here_tail _ Ht) as Hn.
  destruct Ht as [->|[r ->]]; [done|]. cbn [finditer slice_from].
  by rewrite Hn.
Qed.

Lemma search_tail tail :
  follows tail → search here tail = search here (slice_from 1 tail).
Proof.
  intros Ht. pose proof (here_tail _ Ht) as Hn.
  destruct Ht as [->|[r ->]]; [done|]. by rewrite search_next.
Qed.

Lemma finditer_line l tail :
  marked_line marker l = true → follows tail →
  finditer here 0 (l +:+ tail)
  = match field_of marker l with Some c => [c] | None => [] end
    ++ finditer here 0 (slice_from 1 tail).
Proof.
  unfold marked_line, field_of.
  intros [Hl Hm]%andb_true_iff Ht. apply negb_true_iff in Hl.
  destruct (startswith marker l) eqn:Hs.
  - pose proof (here_line l tail Hl Ht Hs) as Hh.
    destruct l as [|a l]; [done|].
    rewrite app_String. cbn [finditer]. rewrite <- app_String, Hh.
    cbn [app]. f_equal. cbn [String.length]. rewrite Nat.sub_1_r.
    cbn [Nat.pred].
    rewrite finditer_skip. by apply finditer_tail.
  - cbn [orb] in Hm. apply negb_true_iff in Hm. cbn [app].
    clear Hl. induction l as [|c l IH].
    + rewrite app_empty. by apply finditer_tail.
    + rewrite contains_unfold, Hs in Hm. cbn [orb] in Hm.
      pose proof (here_not_line _ _ Ht Hs) as Hh.
      rewrite app_String in *. cbn [finditer]. rewrite Hh.
      rewrite contains_unfold in Hm. apply orb_false_iff in Hm as [Hs' Hm'].
      apply IH; [done|].
      by rewrite contains_unfold, Hs', Hm'.
Qed.

Lemma search_line l tail :
  marked_line marker l = true → follows tail →
  search here (l +:+ tail)
  = match field_of marker l with
    | Some c => Some (c, String.length l)
    | None => search here (slice_from 1 tail)
    end.
Proof.
  unfold marked_line, field_of.
  intros [Hl Hm]%andb_true_iff Ht. apply negb_true_iff in Hl.
  destruct (startswith marker l) eqn:Hs.
  - by apply search_here, here_line.
  - cbn [orb] in Hm. apply negb_true_iff in Hm.
    clear Hl. induction l as [|c l IH].
    + rewrite app_empty. by apply search_tail.
    + rewrite contains_unfold, Hs in Hm. cbn [orb] in Hm.
      pose proof (here_not_line _ _ Ht Hs) as Hh.
      rewrite app_String in *. rewrite search_next by done.
      rewrite contains_unfold in Hm. apply orb_false_iff in Hm as [Hs' Hm'].
      apply IH; [done|].
      by rewrite contains_unfold, Hs', Hm'.
Qed.

Lemma join_follows l ls :
  ∃ tail, follows tail
    ∧ join (String lf EmptyString) (l :: ls) = l +:+ tail
    ∧ slice_from 1 tail = join (String lf EmptyString) ls.
Proof.
  destruct ls as [|l' ls].
  - exists EmptyString. split; [by left|]. by rewrite app_empty_r'.
  - exists (String lf (join (String lf EmptyString) (l' :: ls))).
    split; [right; eauto|]. by rewrite join_cons.
Qed.

Lemma finditer_lines ls :
  Forall (λ l, marked_line marker l = true) ls →
  finditer here 0 (join (String lf EmptyString) ls)
  = omap (field_of marker) ls.
Proof.
  induction 1 as [|l ls Hl _ IH]; [done|].
  destruct (join_follows l ls) as (tail & Ht & -> & E).
  rewrite finditer_line, E, IH by done. cbn [omap list_omap].
  by destruct (field_of marker l).
Qed.

Lemma search_lines ls :
  Forall (λ l, marked_line marker l = true) ls →
  fst <$> search here (join (String lf EmptyString) ls)
  = head (omap (field_of marker) ls).
Proof.
  induction 1 as [|l ls Hl _ IH]; [done|].
  destruct (join_follows l ls) as (tail & Ht & -> & E).
  rewrite search_line, E by done. cbn [omap list_omap].
  by destruct (field_of marker l).
Qed.

End lines.

Lemma field_marker_line name :
  plain_name name = true →
  has_char lf (name +:+ String ":" (String tab EmptyString)) = false.
Proof.
  intros H%plain_name_line. by rewrite has_char_app, H.
Qed.

(** X22. A field of the metadata is looked up line by line: when every line
    of the metadata holds the marker of the field (the at sign, the name,
    a colon and a tab) at its start or not at all, [get_metadata_field]
    returns the contents of the lines that start with the marker, in
    their order and with a line feed between them; when no line starts
    with it, this is the empty string. *)
Theorem metadata_field_of_lines (lines : list string) (name : string) :
  plain_name name = true →
  Forall (λ l, marked_line (field_marker "@" name) l = true) lines →
  get_metadata_field (join (String lf EmptyString) lines) name
  = join (String lf EmptyString) (omap (field_of (field_marker "@" name)) lines).
Proof.
  intros Hn Hl. unfold get_metadata_field. cbv zeta.
  unfold field_marker in *.
  rewrite finditer_lines; [|done|by apply field_marker_line|done].
  by destruct (omap _ lines).
Qed.

Lemma metadata_field_of_lines_example :
  get_metadata_field
    (join (String lf EmptyString)
       ["@Languages:" +:+ String tab "sme";
        "@ID:" +:+ String tab "sme|Sesotho|CHI|2;2.||||Target_Child|||";
        "@Comment:" +:+ String tab "all @ID lines";
        "@ID:" +:+ String tab "sme|Sesotho|MOT|||||Mother|||";
        EmptyString]) "ID"
  = join (String lf EmptyString)
      ["sme|Sesotho|CHI|2;2.||||Target_Child|||";
       "sme|Sesotho|MOT|||||Mother|||"].
Proof.
  apply (metadata_field_of_lines
           ["@Languages:" +:+ String tab "sme";
            "@ID:" +:+ String tab "sme|Sesotho|CHI|2;2.||||Target_Child|||";
            "@Comment:" +:+ String tab "all @ID lines";
            "@ID:" +:+ String tab "sme|Sesotho|MOT|||||Mother|||";
            EmptyString] "ID").
  - reflexivity.
  - repeat constructor.
Defined.

(** X23. A dependent tier is looked up in the same way: when every line of
    the record holds the marker of the tier (the percent sign, the name,
    a colon and a tab) at its start or not at all, [get_dependent_tier]
    returns the content of the first line that starts with the marker,
    and the empty string when there is none. *)
Theorem dependent_tier_of_lines (lines : list string) (name : string) :
  plain_name name = true →
  Forall (λ l, marked_line (field_marker "%" name) l = true) lines →
  get_dependent_tier (join (String lf EmptyString) lines) name
  = default EmptyString (head (omap (field_of (field_marker "%" name)) lines)).
Proof.
  intros Hn Hl. unfold get_dependent_tier.
  unfold field_marker in *.
  rewrite <- search_lines; [|done|by apply field_marker_line|done].
  by destruct (search _ _) as [[c k]|].
Qed.

Lemma dependent_tier_of_lines_example :
  get_dependent_tier
    (join (String lf EmptyString)
       ["*CHI:" +:+ String tab "ke eng ?";
        "%gls:" +:+ String tab "ke eng ?";
        "%eng:" +:+ String tab "what is it ?"]) "eng"
  = "what is it ?".
Proof.
  apply (dependent_tier_of_lines
           ["*CHI:" +:+ String tab "ke eng ?";
            "%gls:" +:+ String tab "ke eng ?";
            "%eng:" +:+ String tab "what is it ?"] "eng").
  - reflexivity.
  - repeat constructor.
Defined.

End FieldFacts.

(** ** The list of the participants *)

Module ParticipantFacts.
Import Py Str CHATReader PyFacts UntranscribedFacts RunLemmas StrFacts.
Import RepairFacts FormFacts Texts.

(** The pattern of [iter_participants], character by character. *)
Lemma comma_here_cases prev s :
  comma_here prev s
  = match s with
    | String a s1 =>
        if eq_char "," a then
          match s1 with
          | String b _ => if eq_char " " b then Some 2 else Some 1
          | EmptyString => Some 1
          end
        else if eq_char " " a then
          match s1 with
          | String b s2 =>
              if eq_char "," b then
                match s2 with
                | String c _ => if eq_char " " c then Some 3 else Some 2
                | EmptyString => Some 2
                end
              else None
          | EmptyString => None
          end
        else None
    | EmptyString => None
    end.
Proof.
  destruct s as [|a s1]; [done|].
  destruct a as [[] [] [] [] [] [] [] []]; try done.
  - destruct s1 as [|b s2]; [done|].
    destruct b as [[] [] [] [] [] [] [] []]; done.
  - destruct s1 as [|b s2]; [done|].
    destruct b as [[] [] [] [] [] [] [] []]; try done.
    destruct s2 as [|c s3]; [done|].
    destruct c as [[] [] [] [] [] [] [] []]; done.
Qed.

Lemma re_split_comma_prev prev prev' skip s :
  re_split comma_here prev skip s = re_split comma_here prev' skip s.
Proof.
  revert prev prev' skip. induction s as [|c s IH]; intros prev prev' skip.
  { done. }
  cbn [re_split]. destruct skip as [|k]; [|apply IH].
  by rewrite (comma_here_cases prev), (comma_here_cases prev').
Qed.

Lemma re_split_skip here prev x y :
  ∃ prev', re_split here prev (String.length x) (x +:+ y)
           = re_split here prev' 0 y.
Proof.
  revert prev. induction x as [|c x IH]; intros prev.
  - exists prev. rewrite app_empty. by destruct y.
  - rewrite app_String. cbn [String.length re_split]. apply IH.
Qed.

Lemma separator_split sep c r prev :
  is_separator sep → eq_char " " c = false →
  re_split comma_here prev 0 (sep +:+ String c r)
  = EmptyString :: re_split comma_here None 0 (String c r).
Proof.
  intros Hsep Hc.
  assert (∃ a sep', sep = String a sep'
          ∧ comma_here prev (sep +:+ String c r) = Some (String.length sep))
    as (a & sep' & E & Hh).
  { rewrite comma_here_cases.
    destruct Hsep as [-> | [-> | [-> | ->]]]; eexists _, _; (split; [done|]).
    - change ("," +:+ String c r) with (String "," (String c r)).
      change (eq_char "," ",") with true. cbv iota. by rewrite Hc.
    - done.
    - change (" ," +:+ String c r) with (String " " (String "," (String c r))).
      change (eq_char "," " ") with false.
      change (eq_char " " " ") with true.
      change (eq_char "," ",") with true. cbv iota. by rewrite Hc.
    - done. }
  subst sep. rewrite app_String in *. cbn [re_split]. rewrite Hh.
  cbn [String.length]. rewrite Nat.sub_1_r. cbn [Nat.pred]. f_equal.
  destruct (re_split_skip comma_here (Some a) sep' (String c r)) as [p' ->].
  exact (re_split_comma_prev p' None 0 (String c r)).
Qed.

Lemma comma_here_inside a p tail :
  eq_char "," a = false →
  has_char "," p = false →
  ends_with_blank (String a p) = false →
  comma_here None (String a (p +:+ tail)) = None.
Proof.
  intros Ha Hp He. rewrite comma_here_cases, Ha.
  destruct (eq_char " " a) eqn:E; [|done].
  destruct p as [|b p]; [by cbn in He; rewrite E in He|].
  rewrite app_String. cbn [has_char] in Hp.
  rewrite eq_char_eqb. by destruct (Ascii.eqb "," b).
Qed.

Lemma piece_split p tail ws :
  has_char "," p = false → ends_with_blank p = false →
  re_split comma_here None 0 tail = EmptyString :: ws →
  re_split comma_here None 0 (p +:+ tail) = p :: ws.
Proof.
  intros Hp He Ht. induction p as [|a p IH]; [by rewrite app_empty|].
  cbn [has_char] in Hp. rewrite <- eq_char_eqb in Hp.
  destruct (eq_char "," a) eqn:Ha; [done|].
  rewrite app_String. cbn [re_split].
  rewrite comma_here_inside by done.
  rewrite (re_split_comma_prev _ None), IH; [done|done|].
  destruct p; [done|]. exact He.
Qed.

Lemma last_piece p :
  has_char "," p = false → ends_with_blank p = false →
  re_split comma_here None 0 p = [p].
Proof.
  intros Hp He. induction p as [|a p IH]; [done|].
  cbn [has_char] in Hp. rewrite <- eq_char_eqb in Hp.
  destruct (eq_char "," a) eqn:Ha; [done|].
  cbn [re_split].
  pose proof (comma_here_inside a p EmptyString Ha Hp He) as Hn.
  rewrite FieldFacts.app_empty_r' in Hn. rewrite Hn.
  rewrite (re_split_comma_prev _ None), IH; [done|done|].
  destruct p; [done|]. exact He.
Qed.

Lemma plain_participant_spec p :
  plain_participant p = true →
  has_char "," p = false ∧ ends_with_blank p = false
  ∧ ∃ c r, p = String c r ∧ eq_char " " c = false.
Proof.
  unfold plain_participant. rewrite !andb_true_iff, !negb_true_iff.
  intros [[Hc Hp] He]. split_and!; try done.
  destruct p as [|c r]; [done|]. apply negb_true_iff in Hc. eauto.
Qed.

Lemma participants_split sep ps :
  is_separator sep → ps ≠ [] →
  Forall (λ p, plain_participant p = true) ps →
  re_split comma_here None 0 (join sep ps) = ps.
Proof.
  intros Hsep Hne Hall. induction Hall as [|p ps Hp Hps IH]; [done|].
  apply plain_participant_spec in Hp as (Hc & He & _).
  destruct ps as [|q ps]; [by apply last_piece|].
  rewrite join_cons. apply piece_split; try done.
  inversion Hps as [|? ? Hq _]; subst.
  apply plain_participant_spec in Hq as (_ & _ & c & r & -> & Hb).
  rewrite join_String, separator_split, <- join_String by done.
  by rewrite IH.
Qed.

(** X24. The participants of a session are read back as they were listed:
    when the field [Participants] of the metadata is a list of
    participants with a comma between them, written with or without a
    blank on either side, [iter_participants] yields exactly these
    participants, provided that none of them is empty, holds a comma or
    starts or ends with a blank. *)
Theorem participants_read_back (metadata sep : string) (ps : list string) :
  is_separator sep → ps ≠ [] →
  Forall (λ p, plain_participant p = true) ps →
  get_metadata_field metadata "Participants" = join sep ps →
  iter_participants metadata = ps.
Proof.
  intros Hsep Hne Hall Hf. unfold iter_participants. cbv zeta.
  rewrite Hf. by apply participants_split.
Qed.

Lemma participants_read_back_example :
  iter_participants
    ("@Participants:" +:+ String tab
       "MEM Mme_Manyili Grandmother , CHI Hlobohang Target_Child")
  = ["MEM Mme_Manyili Grandmother"; "CHI Hlobohang Target_Child"].
Proof.
  apply (participants_read_back _ " , ").
  - right. right. by right.
  - done.
  - repeat constructor.
  - reflexivity.
Defined.

End ParticipantFacts.

(** ** The main line of a record *)

Module MainLineFacts.
Import Py Str CHATReader PyFacts UntranscribedFacts RunLemmas StrFacts.
Import RepairFacts FormFacts InuktitutFacts SentenceFacts FieldFacts Texts.

Lemma upto_last_end p u c post :
  p c = true → all_chars (λ a, negb (p a)) post = true →
  upto_last p (u +:+ String c post) = Some (u +:+ String c EmptyString).
Proof.
  intros Hc Hpost. induction u as [|a u IH].
  - rewrite !app_empty. cbn [upto_last].
    pose proof (upto_last_without p post Hpost (String.length post)) as Hn.
    rewrite slice_to_all in Hn. by rewrite Hn, Hc.
  - rewrite !app_String. cbn [upto_last]. by rewrite IH.
Qed.

Lemma isalnum_colon a : isalnum a = true → eq_char ":" a = false.
Proof.
  intros H. destruct (eq_char ":" a) eqn:E; [|done].
  apply eq_char_spec in E. by subst.
Qed.

(** X25. The main line of a record and its parts.  When the record, with its
    line breaks removed, starts with an asterisk, a label of three
    letters or digits, a colon, a tab and a text up to the end of the
    line, then [get_main_line] returns this line and
    [get_record_speaker_label] returns the label of it; when the text
    holds a full stop, an exclamation mark or a question mark,
    [get_utterance_raw] returns the text up to the last of them. *)
Theorem main_line_parts (rec label body tail : string) :
  String.length label = 3 → all_chars isalnum label = true →
  has_char lf body = false → follows tail →
  remove_line_breaks rec
  = "*" +:+ label +:+ String ":" (String tab body) +:+ tail →
  let main_line := "*" +:+ label +:+ String ":" (String tab body) in
  get_main_line rec = Ok main_line
  ∧ get_record_speaker_label main_line = Ok label
  ∧ ∀ u c post,
      body = u +:+ String c post → is_terminator c = true →
      all_chars (λ a, negb (is_terminator a)) post = true →
      get_utterance_raw main_line = Ok (u +:+ String c EmptyString).
Proof.
  intros Hlen Hal Hbody Htail Hrec. cbv zeta.
  destruct label as [|a [|b [|c [|? ?]]]]; try done.
  cbn [all_chars] in Hal. rewrite !andb_true_iff in Hal.
  destruct Hal as (Ha & Hb & Hc & _).
  assert ("*" +:+ String a (String b (String c EmptyString))
            +:+ String ":" (String tab body)
          = String "*" (String a (String b (String c
              (String ":" (String tab body)))))) as E by done.
  assert (remove_line_breaks rec
          = String "*" (String a (String b (String c
              (String ":" (String tab (body +:+ tail))))))) as Hrec'
    by by rewrite Hrec.
  rewrite E. clear E Hrec. split_and!.
  - unfold get_main_line. rewrite Hrec'.
    rewrite (search_here _ _ (String "*" (String a (String b (String c
               (String ":" (String tab body))))))); [done|].
    unfold main_line_here. rewrite Ha, Hb, Hc.
    change (eq_char tab tab) with true. cbn [andb].
    by rewrite dot_star_tail.
  - unfold get_record_speaker_label. by rewrite Ha, Hb, Hc.
  - intros u t post -> Ht Hpost. unfold get_utterance_raw.
    rewrite search_next by done.
    rewrite search_next by (cbn [utterance_here]; by destruct a as [[] [] [] [] [] [] [] []]).
    rewrite search_next by (cbn [utterance_here]; by destruct b as [[] [] [] [] [] [] [] []]).
    rewrite search_next by (cbn [utterance_here]; by destruct c as [[] [] [] [] [] [] [] []]).
    rewrite (search_here _ _ (u +:+ String t EmptyString)); [done|].
    unfold utterance_here. change (eq_char tab tab) with true. cbv iota.
    rewrite dot_star_line by done. by apply upto_last_end.
Qed.

Lemma main_line_parts_example :
  get_main_line
    ("*CHI:" +:+ String tab "ke eng" +:+ String lf (String tab "ena ? 0_1500")
     +:+ String lf ("%gls:" +:+ String tab "ke eng ena ?"))
  = Ok ("*CHI:" +:+ String tab "ke eng ena ? 0_1500")
  ∧ get_record_speaker_label ("*CHI:" +:+ String tab "ke eng ena ? 0_1500")
    = Ok "CHI"
  ∧ get_utterance_raw ("*CHI:" +:+ String tab "ke eng ena ? 0_1500")
    = Ok "ke eng ena ?".
Proof.
  pose proof (main_line_parts
    ("*CHI:" +:+ String tab "ke eng" +:+ String lf (String tab "ena ? 0_1500")
     +:+ String lf ("%gls:" +:+ String tab "ke eng ena ?"))
    "CHI" "ke eng ena ? 0_1500"
    (String lf ("%gls:" +:+ String tab "ke eng ena ?"))) as H.
  cbv zeta in H.
  destruct H as (H1 & H2 & H3).
  - reflexivity.
  - reflexivity.
  - reflexivity.
  - right. by eexists.
  - reflexivity.
  - split_and!; [exact H1|exact H2|].
    apply (H3 "ke eng ena " "?"%char " 0_1500"); reflexivity.
Defined.

End MainLineFacts.

(** ** The content of a tier of a Toolbox record *)

Module NormalizeFacts.
Import Py Str ToolboxFile PyFacts UntranscribedFacts RunLemmas StrFacts.
Import FormFacts.

Lemma slice_from_run s : slice_from (run isspace s) s = lstrip s.
Proof.
  induction s as [|c s IH]; [done|]. cbn [run lstrip].
  by destruct (isspace c).
Qed.

Lemma spaces_space c s :
  isspace c = true →
  re_sub spaces_here 0 false (String c s)
  = String " " (re_sub spaces_here 0 false (lstrip s)).
Proof.
  intros Hc. cbn [re_sub]. unfold spaces_here at 1. cbn [run]. rewrite Hc.
  cbn [Nat.eqb]. rewrite Nat.sub_1_r. cbn [Nat.pred].
  by rewrite re_sub_skip, slice_from_run.
Qed.

Lemma spaces_word c s :
  isspace c = false →
  re_sub spaces_here 0 false (String c s)
  = String c (re_sub spaces_here 0 false s).
Proof.
  intros Hc. cbn [re_sub]. unfold spaces_here at 1. cbn [run].
  by rewrite Hc.
Qed.

Lemma spaces_start s :
  re_sub spaces_here 0 true s = re_sub spaces_here 0 false s.
Proof. by destruct s. Qed.

(** A text without white space at its start. *)
Lemma lstrip_head s :
  lstrip s = EmptyString ∨ ∃ c r, lstrip s = String c r ∧ isspace c = false.
Proof.
  induction s as [|c s IH]; [by left|]. cbn [lstrip].
  destruct (isspace c) eqn:E; [done|]. right. eauto.
Qed.

Lemma lstrip_length s : String.length (lstrip s) ≤ String.length s.
Proof.
  induction s as [|c s IH]; [done|]. cbn [lstrip].
  destruct (isspace c); cbn; lia.
Qed.

Lemma split_ws_lstrip s : split_ws (lstrip s) = split_ws s.
Proof.
  induction s as [|c s IH]; [done|]. cbn [lstrip].
  destruct (isspace c) eqn:E; [|done]. by rewrite (split_ws_String c), E.
Qed.

Lemma rstrip_word c x :
  isspace c = false → rstrip (String c x) = String c (rstrip x).
Proof. intros Hc. cbn [rstrip]. rewrite Hc. by destruct (rstrip x). Qed.

Lemma rstrip_space c x :
  isspace c = true →
  rstrip (String c x)
  = match rstrip x with
    | EmptyString => EmptyString
    | r => String c r
    end.
Proof. intros Hc. cbn [rstrip]. by rewrite Hc. Qed.

(** The words of a text are not empty and hold no white space. *)
Lemma split_ws_words s :
  Forall (λ w, w ≠ EmptyString ∧ no_char isspace w) (split_ws s).
Proof.
  induction s as [|c s IH]; [constructor|].
  rewrite split_ws_String. destruct (isspace c) eqn:Ec; [done|].
  assert (no_char isspace (String c EmptyString)) as Hc.
  { apply no_char_String. split; [done|apply no_char_empty]. }
  destruct s as [|d s]; [by repeat constructor|].
  destruct (isspace d) eqn:Ed; [by constructor|].
  destruct (split_ws (String d s)) as [|w ws]; [by repeat constructor|].
  inversion IH as [|? ? [_ Hw] Hws]; subst. constructor; [|done].
  split; [done|]. apply no_char_String. by split.
Qed.

Lemma split_ws_word w :
  w ≠ EmptyString → no_char isspace w → split_ws w = [w].
Proof.
  induction w as [|c w IH]; [done|]. intros _ [Hc Hw]%no_char_String.
  rewrite split_ws_String, Hc. destruct w as [|d w]; [done|].
  pose proof Hw as [Hd _]%no_char_String. rewrite Hd.
  by rewrite IH.
Qed.

Lemma split_ws_join ws :
  Forall (λ w, w ≠ EmptyString ∧ no_char isspace w) ws →
  split_ws (join " " ws) = ws.
Proof.
  induction 1 as [|w ws [Hne Hw] Hws IH]; [done|].
  destruct ws as [|v ws]; [by apply split_ws_word|].
  rewrite join_cons. revert IH. generalize (join " " (v :: ws)). intros t IH.
  clear Hws. induction w as [|c w IHw]; [done|].
  apply no_char_String in Hw as [Hc Hw].
  rewrite app_String, split_ws_String, Hc.
  destruct w as [|d w].
  - rewrite app_empty.
    change (" " +:+ t) with (String " " t). cbn [isspace].
    by rewrite (split_ws_String " "), IH.
  - pose proof Hw as [Hd _]%no_char_String.
    rewrite app_String, Hd. rewrite <- app_String.
    by rewrite IHw.
Qed.

Lemma spaces_lstripped s :
  lstrip (re_sub spaces_here 0 false (lstrip s))
  = re_sub spaces_here 0 false (lstrip s).
Proof.
  destruct (lstrip_head s) as [->|(c & r & -> & Hc)]; [done|].
  rewrite spaces_word by done. cbn [lstrip]. by rewrite Hc.
Qed.

Lemma lstrip_spaces s :
  lstrip (re_sub spaces_here 0 false s)
  = re_sub spaces_here 0 false (lstrip s).
Proof.
  destruct s as [|c s]; [done|]. destruct (isspace c) eqn:E.
  - rewrite spaces_space by done. cbn [lstrip]. rewrite E.
    change (isspace " ") with true. cbv iota. apply spaces_lstripped.
  - rewrite spaces_word by done. cbn [lstrip]. rewrite E.
    by rewrite spaces_word.
Qed.

Lemma rstrip_spaces_bounded n :
  ∀ t, String.length (lstrip t) ≤ n →
       rstrip (re_sub spaces_here 0 false (lstrip t))
       = join " " (split_ws t).
Proof.
  induction n as [|n IH]; intros t Hlen.
  { rewrite <- split_ws_lstrip. destruct (lstrip t); [done|cbn in Hlen; lia]. }
  rewrite <- split_ws_lstrip.
  destruct (lstrip_head t) as [->|(c & r & E & Hc)]; [done|].
  rewrite E in *. clear t E. cbn [String.length] in Hlen.
  rewrite spaces_word, rstrip_word by done.
  rewrite split_ws_String, Hc.
  destruct r as [|d r]; [done|].
  destruct (isspace d) eqn:Ed.
  - rewrite spaces_space by done.
    rewrite (split_ws_String d), Ed.
    rewrite rstrip_space by done.
    pose proof (lstrip_length r) as Hr. cbn [String.length] in Hlen.
    rewrite IH by lia.
    pose proof (split_ws_words r) as Hw.
    destruct (split_ws r) as [|w ws]; [done|].
    inversion Hw as [|? ? [Hne _] _]; subst.
    destruct w as [|a w]; [done|]. rewrite join_String.
    rewrite join_cons, <- join_String. done.
  - assert (lstrip (String d r) = String d r) as El
      by (cbn [lstrip]; by rewrite Ed).
    pose proof (IH (String d r)) as IH'. rewrite El in IH'.
    rewrite IH' by lia.
    pose proof (split_ws_String d r) as Hs. rewrite Ed in Hs.
    destruct (split_ws (String d r)) as [|w ws] eqn:Ew.
    + by destruct r as [|e r]; [|destruct (isspace e), (split_ws (String e r))].
    + by rewrite join_String.
Qed.

(** X26. The content of a tier, as [make_rec] takes it from the record (every
    run of white space made one blank, then stripped), is the words of
    the content with one blank between them.  So it is empty, and the
    tier is skipped, exactly when the content holds no word; and the
    words of the content are kept. *)
Theorem normalize_joins_words (content : string) :
  normalize content = join " " (split_ws content)
  ∧ (normalize content = EmptyString ↔ split_ws content = [])
  ∧ split_ws (normalize content) = split_ws content
  ∧ normalize (normalize content) = normalize content.
Proof.
  assert (∀ s, normalize s = join " " (split_ws s)) as Hn.
  { intros s. unfold normalize, strip.
    rewrite spaces_start, lstrip_spaces.
    by apply (rstrip_spaces_bounded (String.length (lstrip s))). }
  pose proof (split_ws_words content) as Hw.
  split_and!.
  - apply Hn.
  - rewrite Hn. split; [|by intros ->].
    destruct (split_ws content) as [|w ws]; [done|].
    inversion Hw as [|? ? [Hne _] _]; subst.
    destruct w as [|a w]; [done|]. by rewrite join_String.
  - rewrite Hn. by apply split_ws_join.
  - rewrite !Hn. by rewrite split_ws_join.
Qed.

End NormalizeFacts.

(** ** The words of a Toolbox utterance *)

Module WordFacts.
Import Py Str Toolbox ToolboxFile PyFacts UntranscribedFacts RunLemmas StrFacts.
Import FormFacts.

(** Two patterns that agree at every position of a string give the same
    substitution. *)
Lemma re_sub_agree here1 here2 s :
  (∀ k b, here1 b (slice_from k s) = here2 b (slice_from k s)) →
  ∀ k b, re_sub here1 k b s = re_sub here2 k b s.
Proof.
  induction s as [|c s IH]; intros H k b; [done|].
  assert (∀ k b, re_sub here1 k b s = re_sub here2 k b s) as IH'.
  { apply IH. intros j b'. apply (H (S j) b'). }
  cbn [re_sub]. destruct k as [|k]; [|apply IH'].
  pose proof (H 0 b) as H0. cbn [slice_from] in H0. rewrite <- H0.
  destruct (here1 b (String c s)) as [[out n]|]; by rewrite IH'.
Qed.

Lemma contains_slice_from p s k :
  contains p s = false → startswith p (slice_from k s) = false.
Proof.
  revert s. induction k as [|k IH]; intros s H.
  - rewrite contains_unfold in H. apply orb_false_iff in H as [H _].
    by destruct s.
  - destruct s as [|c s].
    + rewrite contains_unfold in H. by apply orb_false_iff in H as [H _].
    + rewrite contains_unfold in H. apply orb_false_iff in H as [_ H].
      cbn [slice_from]. by apply IH.
Qed.

(** A pattern that matches nowhere in a string leaves the string as it
    is. *)
Lemma re_sub_nowhere here s :
  (∀ k b, here b (slice_from k s) = None) → ∀ b, re_sub here 0 b s = s.
Proof.
  induction s as [|c s IH]; intros H b; [done|].
  cbn [re_sub]. pose proof (H 0 b) as H0. cbn [slice_from] in H0.
  rewrite H0, IH; [done|]. intros j b'. apply (H (S j) b').
Qed.

(** X27. In the Indonesian corpus the actual form of a word is always the
    form stored as the word, and the target form is the same form too
    for every token of the utterance that holds neither an opening
    parenthesis nor [www]: the two substitutions of [get_words] differ
    on [www] only.  A token that holds no [xx] either is stored as it
    is. *)
Theorem indonesian_target_is_actual
    (utterance token : string) (i : nat) :
  split_ws utterance !! i = Some token →
  has_char "(" token = false →
  contains "www" token = false →
  ∃ w, get_words "Indonesian" utterance !! i
       = Some {| word := Some w; word_actual := Some w;
                 word_target := Some w; word_language := None |}
       ∧ (contains "xx" token = false → w = token).
Proof.
  intros Hi Hp Hw. unfold get_words.
  rewrite list_lookup_fmap, Hi. cbn [fmap option_fmap option_map].
  unfold get_word. change (String.eqb "Indonesian" "Indonesian") with true.
  cbv iota. rewrite Hp. cbv zeta.
  exists (re_sub x_here 0 true token). split.
  - do 3 f_equal.
    apply re_sub_agree. intros k b. unfold xw_here, x_here.
    by rewrite (contains_slice_from "www" token k Hw).
  - intros Hx. apply re_sub_nowhere. intros k b. unfold x_here.
    by rewrite (contains_slice_from "xx" token k Hx).
Qed.

Lemma indonesian_target_is_actual_example :
  ∃ w, get_words "Indonesian" "ini xx apa" !! 2
       = Some {| word := Some w; word_actual := Some w;
                 word_target := Some w; word_language := None |}
       ∧ (contains "xx" "apa" = false → w = "apa").
Proof.
  apply (indonesian_target_is_actual "ini xx apa" "apa" 2); reflexivity.
Defined.

End WordFacts.

(** ** Words and morphemes of a Toolbox tier *)

Module BoundaryFacts.
Import Py Str ToolboxFile PyFacts UntranscribedFacts RunLemmas StrFacts.
Import FormFacts FieldFacts NormalizeFacts Texts.

Lemma cons_first_cons_first x y l :
  cons_first x (cons_first y l) = cons_first (x +:+ y) l.
Proof. destruct l; cbn [cons_first]; by rewrite ?app_assoc'. Qed.

Lemma last_char_String c s :
  s ≠ EmptyString → last_char (String c s) = last_char s.
Proof. by destruct s. Qed.

Lemma last_char_app (a b : string) :
  b ≠ EmptyString → last_char (a +:+ b) = last_char b.
Proof.
  intros Hb. induction a as [|c a IH]; [by rewrite app_empty|].
  rewrite app_String, last_char_String; [done|].
  destruct a; [by rewrite app_empty|by rewrite app_String].
Qed.

Lemma last_char_nonspace t a :
  all_chars nonspace t = true → last_char t = Some a → isspace a = false.
Proof.
  induction t as [|c t IH]; [done|]. cbn [all_chars].
  intros [Hc Ht]%andb_true_iff. destruct t as [|d t].
  - intros [= <-]. by apply negb_true_iff in Hc.
  - rewrite last_char_String by done. by apply IH.
Qed.

Lemma is_token_spec t :
  is_token t = true →
  all_chars nonspace t = true
  ∧ ∃ d t', t = String d t' ∧ isspace d = false.
Proof.
  unfold is_token. intros [Hne Ht]%andb_true_iff. split; [done|].
  destruct t as [|d t']; [done|]. cbn [all_chars] in Ht.
  apply andb_true_iff in Ht as [Hd _]. apply negb_true_iff in Hd. eauto.
Qed.

Lemma is_token_word t :
  is_token t = true → t ≠ EmptyString ∧ no_char isspace t.
Proof.
  intros [Ht (d & t' & -> & Hd)]%is_token_spec. split; [done|].
  clear Hd. revert Ht. generalize (String d t'). intros s.
  induction s as [|c s IH]; [intros _; apply no_char_empty|].
  cbn [all_chars]. intros [Hc Hs]%andb_true_iff.
  apply no_char_String. split; [by apply negb_true_iff in Hc|by apply IH].
Qed.

(** *** The pattern of the word boundary *)

Lemma re_split_char c s prev :
  isspace c = false →
  re_split word_boundary_here prev 0 (String c s)
  = cons_first (String c EmptyString)
      (re_split word_boundary_here (Some c) 0 s).
Proof.
  intros Hc. cbn [re_split].
  assert (word_boundary_here prev (String c s) = None) as ->.
  { unfold word_boundary_here. cbn [run]. rewrite Hc. cbn [Nat.eqb].
    by destruct prev as [p|]; [destruct (hyphen_or_space p)|]. }
  by destruct (re_split _ _ _ s).
Qed.

Lemma re_split_token t rest prev :
  all_chars nonspace t = true → t ≠ EmptyString →
  re_split word_boundary_here prev 0 (t +:+ rest)
  = cons_first t (re_split word_boundary_here (last_char t) 0 rest).
Proof.
  revert prev. induction t as [|c t IH]; intros prev Ht Hne; [done|].
  cbn [all_chars] in Ht. apply andb_true_iff in Ht as [Hc Ht].
  apply negb_true_iff in Hc. rewrite app_String, re_split_char by done.
  destruct t as [|d t]; [by rewrite app_empty|].
  rewrite IH by done. rewrite cons_first_cons_first.
  rewrite (last_char_String c) by done. reflexivity.
Qed.

Lemma re_split_tied a d s :
  isspace d = false → hyphen_or_space a || hyphen_or_space d = true →
  re_split word_boundary_here (Some a) 0 (String " " (String d s))
  = cons_first " " (re_split word_boundary_here (Some " "%char) 0 (String d s)).
Proof.
  intros Hd Hor.
  assert (word_boundary_here (Some a) (String " " (String d s)) = None) as E.
  { unfold word_boundary_here. cbn [run]. change (isspace " ") with true.
    cbv iota. rewrite Hd. cbn [Nat.eqb slice_from].
    destruct (hyphen_or_space a); [done|]. cbn [orb] in Hor. by rewrite Hor. }
  remember (String d s) as r. cbn [re_split]. rewrite E.
  by destruct (re_split _ _ _ r).
Qed.

Lemma re_split_free a d s :
  isspace d = false → hyphen_or_space a = false →
  hyphen_or_space d = false →
  re_split word_boundary_here (Some a) 0 (String " " (String d s))
  = EmptyString :: re_split word_boundary_here (Some " "%char) 0 (String d s).
Proof.
  intros Hd Ha Hh.
  assert (word_boundary_here (Some a) (String " " (String d s)) = Some 1)
    as E.
  { unfold word_boundary_here. cbn [run]. change (isspace " ") with true.
    cbv iota. rewrite Hd. cbn [Nat.eqb slice_from]. by rewrite Ha, Hh. }
  remember (String d s) as r. cbn [re_split]. by rewrite E.
Qed.

Lemma hyphen_char a : eq_char "-" a = true → hyphen_or_space a = true.
Proof. intros H. unfold hyphen_or_space. by rewrite H. Qed.

Lemma no_hyphen_char a :
  eq_char "-" a = false → isspace a = false → hyphen_or_space a = false.
Proof. intros H1 H2. unfold hyphen_or_space. by rewrite H1, H2. Qed.

(** *** One word *)

Lemma join_tokens_head t w :
  is_token t = true →
  ∃ d r, join " " (t :: w) = String d r ∧ isspace d = false
         ∧ starts_hyphen t = eq_char "-" d.
Proof.
  intros [_ (d & t' & -> & Hd)]%is_token_spec.
  exists d, (join " " (t' :: w)). rewrite join_String. split_and!; try done.
  unfold starts_hyphen. rewrite GarbageFacts.startswith_String.
  rewrite startswith_empty. unfold eq_char. rewrite Ascii.eqb_sym.
  by destruct (Ascii.eqb d "-").
Qed.

Lemma last_char_join w t :
  forallb is_token w = true → last w = Some t →
  last_char (join " " w) = last_char t.
Proof.
  induction w as [|t1 w IH]; [done|]. cbn [forallb].
  intros [H1 Hw]%andb_true_iff. destruct w as [|t2 w].
  - by intros [= <-].
  - rewrite last_cons_cons. intros Hl. rewrite join_cons.
    pose proof Hw as Hw'. cbn [forallb] in Hw'.
    apply andb_true_iff in Hw' as [H2 _].
    destruct (join_tokens_head t2 w H2) as (d & r & E & _).
    rewrite !last_char_app; [by apply IH| |].
    + by rewrite E.
    + rewrite E. done.
Qed.

Lemma re_split_word w tail prev :
  w ≠ [] → forallb is_token w = true → tied w = true →
  re_split word_boundary_here prev 0 (join " " w +:+ tail)
  = cons_first (join " " w)
      (re_split word_boundary_here (last_char (join " " w)) 0 tail).
Proof.
  revert prev. induction w as [|t1 w IH]; intros prev Hne Hall Ht; [done|].
  cbn [forallb] in Hall. apply andb_true_iff in Hall as [H1 Hw].
  pose proof H1 as [Hc1 (d1 & r1 & E1 & _)]%is_token_spec.
  destruct w as [|t2 w].
  { cbn [join]. apply re_split_token; [done|by rewrite E1]. }
  cbn [tied] in Ht. apply andb_true_iff in Ht as [Hor Ht].
  pose proof Hw as Hw'. cbn [forallb] in Hw'.
  apply andb_true_iff in Hw' as [H2 _].
  destruct (join_tokens_head t2 w H2) as (d & r & E & Hd & Hs).
  rewrite join_cons, !app_assoc'.
  rewrite re_split_token; [|done|by rewrite E1].
  assert (∃ a, last_char t1 = Some a) as [a Ea].
  { rewrite E1. clear. revert d1. induction r1 as [|c r IH]; intros d1; [by eexists|].
    rewrite last_char_String by done. apply IH. }
  rewrite Ea.
  assert (" " +:+ join " " (t2 :: w) +:+ tail
          = String " " (String d (r +:+ tail))) as ->.
  { rewrite E. by rewrite app_String. }
  rewrite re_split_tied; [|done|].
  - rewrite <- app_String, <- E. rewrite IH by done.
    rewrite !cons_first_cons_first, app_assoc'.
    rewrite (last_char_app t1), (last_char_app " "); [done| |];
      by rewrite E.
  - apply orb_true_iff in Hor as [Hor|Hor].
    + unfold ends_hyphen in Hor. rewrite Ea in Hor.
      by rewrite (hyphen_char a Hor).
    + rewrite Hs in Hor. rewrite (hyphen_char d Hor). apply orb_true_r.
Qed.

Lemma morpheme_tokens_spec w :
  morpheme_tokens w = true →
  w ≠ [] ∧ forallb is_token w = true ∧ tied w = true
  ∧ (∃ d r, join " " w = String d r ∧ hyphen_or_space d = false
            ∧ isspace d = false)
  ∧ (∃ a, last_char (join " " w) = Some a ∧ hyphen_or_space a = false).
Proof.
  unfold morpheme_tokens. rewrite !andb_true_iff.
  intros [[[Hs Hall] Ht] Hl].
  destruct w as [|t w]; [done|]. split_and!; try done.
  - pose proof Hall as Hall'. cbn [forallb] in Hall'.
    apply andb_true_iff in Hall' as [H1 _].
    destruct (join_tokens_head t w H1) as (d & r & E & Hd & Hh).
    exists d, r. split_and!; try done.
    apply negb_true_iff in Hs. rewrite Hh in Hs. by apply no_hyphen_char.
  - destruct (last (t :: w)) as [tl|] eqn:El; [|done].
    apply negb_true_iff in Hl.
    rewrite (last_char_join _ tl Hall El).
    assert (is_token tl = true) as Htl.
    { rewrite forallb_forall in Hall. apply Hall.
      apply last_Some in El as [l' ->]. apply in_app_iff. right. by left. }
    apply is_token_spec in Htl as [Hc (d & r & -> & Hd)].
    assert (∃ a, last_char (String d r) = Some a) as [a Ea].
    { clear. revert d. induction r as [|c r IH]; intros d; [by eexists|].
      rewrite last_char_String by done. apply IH. }
    exists a. split; [done|]. unfold ends_hyphen in Hl. rewrite Ea in Hl.
    apply no_hyphen_char; [done|]. by eapply last_char_nonspace.
Qed.

(** *** A tier *)

Lemma re_split_words words prev :
  words ≠ [] → Forall (λ w, morpheme_tokens w = true) words →
  re_split word_boundary_here prev 0 (join " " (join " " <$> words))
  = join " " <$> words.
Proof.
  intros Hne Hall. revert prev.
  induction Hall as [|w ws Hw Hws IH]; intros prev; [done|].
  apply morpheme_tokens_spec in Hw
    as (Hw1 & Hw2 & Hw3 & _ & (a & Ea & Ha)).
  destruct ws as [|w2 ws].
  - cbn [fmap list_fmap join].
    rewrite <- (app_empty_r' (join " " w)) at 1.
    rewrite re_split_word by done. cbn [re_split cons_first].
    by rewrite app_empty_r'.
  - inversion Hws as [|? ? Hw' _]; subst.
    apply morpheme_tokens_spec in Hw' as (_ & _ & _ & (d & r & E & Hh & Hd) & _).
    change (join " " <$> w :: w2 :: ws)
      with (join " " w :: (join " " <$> w2 :: ws)).
    change (join " " <$> w2 :: ws)
      with (join " " w2 :: (join " " <$> ws)) at 1.
    rewrite join_cons.
    rewrite re_split_word by done. rewrite Ea.
    change (join " " w2 :: (join " " <$> ws)) with (join " " <$> w2 :: ws).
    assert (∃ r', join " " (join " " <$> w2 :: ws) = String d r') as [r' E'].
    { change (join " " <$> w2 :: ws)
        with (join " " w2 :: (join " " <$> ws)).
      rewrite E, join_String. eauto. }
    assert (" " +:+ join " " (join " " <$> w2 :: ws)
            = String " " (String d r')) as -> by by rewrite E'.
    rewrite re_split_free by done. rewrite <- E'.
    rewrite IH by done. cbn [cons_first]. by rewrite app_empty_r'.
Qed.

(** X28. The morphemes of a tier of the Indonesian corpus are read back as
    they were written.  When every word of the tier is a list of
    morphemes without white space that are tied to each other by a
    hyphen (at the end of one or at the start of the next), and no word
    starts or ends with a hyphen, then the tier that has one blank between
    all its morphemes is split into exactly these words and morphemes:
    a blank is a word boundary only where no hyphen stands next to it. *)
Theorem word_boundaries_read_back (words : list (list string)) :
  words ≠ [] → Forall (λ w, morpheme_tokens w = true) words →
  indonesian_words (join " " (join " " <$> words)) = words.
Proof.
  intros Hne Hall. unfold indonesian_words, split_word_boundary.
  rewrite re_split_words by done.
  rewrite <- list_fmap_compose.
  rewrite <- (list_fmap_id words) at 2. apply Forall_fmap_ext_1.
  eapply Forall_impl; [exact Hall|]. intros w Hw. cbn.
  apply morpheme_tokens_spec in Hw as (_ & Hw & _).
  apply split_ws_join. clear -Hw.
  induction w as [|t w IH]; [constructor|]. cbn [forallb] in Hw.
  apply andb_true_iff in Hw as [Ht Hw].
  constructor; [by apply is_token_word|by apply IH].
Qed.

Lemma word_boundaries_read_back_example :
  indonesian_words "meN- tangis -kan itu di- ambil"
  = [["meN-"; "tangis"; "-kan"]; ["itu"]; ["di-"; "ambil"]].
Proof.
  apply (word_boundaries_read_back
           [["meN-"; "tangis"; "-kan"]; ["itu"]; ["di-"; "ambil"]]).
  - done.
  - repeat constructor.
Defined.

End BoundaryFacts.

(** ** The floating clitic marker of the Chintang corpus *)

Module CliticFacts.
Import Py Str ToolboxFile PyFacts UntranscribedFacts RunLemmas StrFacts.
Import FormFacts FieldFacts NormalizeFacts BoundaryFacts Texts.

Local Abbreviation clitic_here := (literal " - " " ").

Lemma clitic_start b1 b2 k s :
  re_sub clitic_here k b1 s = re_sub clitic_here k b2 s.
Proof. destruct s as [|c s]; [done|]. by destruct k. Qed.

Lemma clitic_token t rest b :
  all_chars nonspace t = true →
  re_sub clitic_here 0 b (t +:+ rest)
  = t +:+ re_sub clitic_here 0 false rest.
Proof.
  revert b. induction t as [|c t IH]; intros b Ht.
  { rewrite !app_empty. apply clitic_start. }
  cbn [all_chars] in Ht. apply andb_true_iff in Ht as [Hc Ht].
  rewrite !app_String. cbn [re_sub]. unfold literal at 1.
  rewrite GarbageFacts.startswith_String.
  destruct (Ascii.eqb_spec " " c) as [<-|_]; [done|].
  by rewrite IH.
Qed.

Lemma clitic_blank_marker rest b :
  re_sub clitic_here 0 b (" - " +:+ rest)
  = " " +:+ re_sub clitic_here 0 false rest.
Proof.
  change (" - " +:+ rest) with (String " " (String "-" (String " " rest))).
  cbn [re_sub]. unfold literal at 1.
  change (startswith " - " (String " " (String "-" (String " " rest))))
    with true. cbv iota. done.
Qed.

Lemma clitic_blank_token d r b :
  startswith "- " (String d r) = false →
  re_sub clitic_here 0 b (String " " (String d r))
  = String " " (re_sub clitic_here 0 false (String d r)).
Proof.
  intros H. remember (String d r) as s. cbn [re_sub]. unfold literal at 1.
  rewrite GarbageFacts.startswith_String.
  change (Ascii.eqb " " " ") with true. cbv iota. by rewrite H.
Qed.

Lemma is_clitic_spec t : is_clitic t = true ↔ t = "-".
Proof. apply String.eqb_eq. Qed.

(** A token that is not the marker does not look like one, whatever
    follows it in the word. *)
Lemma token_not_marker t w :
  is_token t = true → is_clitic t = false → forallb is_token w = true →
  ∃ d r, join " " (t :: w) = String d r
         ∧ startswith "- " (String d r) = false.
Proof.
  intros Ht Hc Hw.
  destruct (join_tokens_head t w Ht) as (d & r & E & Hd & _).
  exists d, r. split; [done|]. rewrite <- E.
  pose proof Ht as [Hall (d' & t' & -> & _)]%is_token_spec.
  rewrite join_String, GarbageFacts.startswith_String.
  destruct (Ascii.eqb_spec "-" d') as [<-|]; [|done].
  destruct t' as [|e t'].
  { by rewrite (proj2 (is_clitic_spec "-")) in Hc. }
  rewrite join_String, GarbageFacts.startswith_String.
  cbn [all_chars] in Hall. rewrite !andb_true_iff in Hall.
  destruct Hall as (_ & He & _).
  destruct (Ascii.eqb_spec " " e) as [<-|]; [done|done].
Qed.

Lemma drop_clitics_tokens w :
  forallb is_token w = true → forallb is_token (drop_clitics w) = true.
Proof.
  induction w as [|t w IH]; [done|]. cbn [forallb drop_clitics].
  intros [Ht Hw]%andb_true_iff. destruct (is_clitic t); [by apply IH|].
  cbn [forallb]. by rewrite Ht, IH.
Qed.

Lemma replace_tokens_bounded n :
  ∀ t w b,
    length w ≤ n →
    is_token t = true → is_clitic t = false →
    forallb is_token w = true →
    no_double_clitic (t :: w) = true →
    (∀ tl, last (t :: w) = Some tl → is_clitic tl = false) →
    re_sub clitic_here 0 b (join " " (t :: w))
    = join " " (drop_clitics (t :: w)).
Proof.
  induction n as [|n IH]; intros t w b Hlen Ht Hc Hw Hd Hl.
  { destruct w; [|cbn in Hlen; lia]. cbn [drop_clitics join]. rewrite Hc.
    pose proof Ht as [Hall _]%is_token_spec.
    rewrite <- (app_empty_r' t) at 1. rewrite clitic_token by done.
    apply app_empty_r'. }
  pose proof Ht as [Hall _]%is_token_spec.
  destruct w as [|t2 w].
  { cbn [drop_clitics join]. rewrite Hc.
    rewrite <- (app_empty_r' t) at 1. rewrite clitic_token by done.
    apply app_empty_r'. }
  cbn [forallb] in Hw. apply andb_true_iff in Hw as [Ht2 Hw].
  cbn [no_double_clitic] in Hd. apply andb_true_iff in Hd as [_ Hd].
  change (drop_clitics (t :: t2 :: w))
    with (if is_clitic t then drop_clitics (t2 :: w)
          else t :: drop_clitics (t2 :: w)).
  rewrite Hc, join_cons, clitic_token by done.
  destruct (is_clitic t2) eqn:Hc2.
  - apply is_clitic_spec in Hc2 as ->.
    destruct w as [|t3 w].
    { by specialize (Hl "-" eq_refl). }
    cbn [forallb] in Hw. apply andb_true_iff in Hw as [Ht3 Hw].
    assert (is_clitic t3 = false) as Hc3.
    { cbn [no_double_clitic] in Hd. apply andb_true_iff in Hd as [Hd _].
      change (is_clitic "-") with true in Hd. by destruct (is_clitic t3). }
    rewrite join_cons.
    assert (" " +:+ "-" +:+ " " +:+ join " " (t3 :: w)
            = " - " +:+ join " " (t3 :: w)) as -> by done.
    rewrite clitic_blank_marker.
    change (drop_clitics ("-" :: t3 :: w)) with (drop_clitics (t3 :: w)).
    assert (re_sub clitic_here 0 false (join " " (t3 :: w))
            = join " " (drop_clitics (t3 :: w))) as ->.
    { apply IH; [cbn in Hlen; lia|done|done|done| |].
      - cbn [no_double_clitic] in Hd. by apply andb_true_iff in Hd as [_ Hd].
      - intros tl Htl. apply Hl. by rewrite !last_cons_cons. }
    change (drop_clitics (t3 :: w))
      with (if is_clitic t3 then drop_clitics w else t3 :: drop_clitics w).
    rewrite Hc3. by rewrite join_cons.
  - destruct (token_not_marker t2 w Ht2 Hc2 Hw) as (d & r & E & Hs).
    assert (" " +:+ join " " (t2 :: w) = String " " (String d r)) as ->
      by by rewrite E.
    rewrite clitic_blank_token by done. rewrite <- E.
    assert (re_sub clitic_here 0 false (join " " (t2 :: w))
            = join " " (drop_clitics (t2 :: w))) as ->.
    { apply IH; [cbn in Hlen; lia|done|done|done| |].
      - cbn [no_double_clitic]. by rewrite Hc2.
      - intros tl Htl. apply Hl. by rewrite last_cons_cons. }
    change (drop_clitics (t2 :: w))
      with (if is_clitic t2 then drop_clitics w else t2 :: drop_clitics w).
    rewrite Hc2. by rewrite join_cons.
Qed.

Lemma hyphen_is_clitic t :
  is_clitic t = true → starts_hyphen t = true ∧ ends_hyphen t = true.
Proof. by intros ->%is_clitic_spec. Qed.

Lemma replace_word w :
  morpheme_tokens w = true → no_double_clitic w = true →
  split_ws (replace " - " " " (join " " w)) = drop_clitics w.
Proof.
  intros Hm Hd. pose proof Hm as (Hne & Hall & _)%morpheme_tokens_spec.
  unfold morpheme_tokens in Hm. rewrite !andb_true_iff in Hm.
  destruct Hm as [[[Hs _] _] Hl].
  destruct w as [|t w]; [done|]. apply negb_true_iff in Hs.
  pose proof Hall as Hall'. cbn [forallb] in Hall'.
  apply andb_true_iff in Hall' as [Ht Hw].
  unfold replace.
  rewrite (replace_tokens_bounded (length w)); try done.
  - apply split_ws_join. apply drop_clitics_tokens in Hall.
    revert Hall. generalize (drop_clitics (t :: w)). clear.
    induction l as [|t l IH]; [constructor|]. cbn [forallb].
    intros [Ht Hl]%andb_true_iff.
    constructor; [by apply is_token_word|by apply IH].
  - destruct (is_clitic t) eqn:E; [|done].
    apply hyphen_is_clitic in E as [E _]. by rewrite E in Hs.
  - intros tl Htl. rewrite Htl in Hl. apply negb_true_iff in Hl.
    destruct (is_clitic tl) eqn:E; [|done].
    apply hyphen_is_clitic in E as [_ E]. by rewrite E in Hl.
Qed.

(** X29. The morphemes of a tier of the Chintang corpus are read back without
    the floating clitic markers.  When every word of the tier is a list
    of morphemes without white space that are tied to each other by
    hyphens, no word starts or ends with a hyphen and no two markers
    stand next to each other, then the tier that has one blank between
    all its morphemes is split into exactly these words, and each word
    into its morphemes without the hyphens that stand alone. *)
Theorem chintang_words_read_back (words : list (list string)) :
  words ≠ [] →
  Forall (λ w, morpheme_tokens w = true) words →
  Forall (λ w, no_double_clitic w = true) words →
  chintang_words (join " " (join " " <$> words)) = drop_clitics <$> words.
Proof.
  intros Hne Hall Hd. unfold chintang_words, split_word_boundary.
  rewrite re_split_words by done.
  rewrite <- list_fmap_compose. apply Forall_fmap_ext_1.
  rewrite Forall_forall in Hall, Hd. apply Forall_forall. intros w Hw.
  cbn. apply replace_word; [by apply Hall|by apply Hd].
Qed.

Lemma chintang_words_read_back_example :
  chintang_words "hap -i -nig u- khad - e abo"
  = [["hap"; "-i"; "-nig"]; ["u-"; "khad"; "e"]; ["abo"]].
Proof.
  apply (chintang_words_read_back
           [["hap"; "-i"; "-nig"]; ["u-"; "khad"; "-"; "e"]; ["abo"]]).
  - done.
  - repeat constructor.
  - repeat constructor.
Defined.

End CliticFacts.

(** ** Replaced words of an utterance *)

Module ReplacementFacts.
Import Py Str CHATReader PyFacts UntranscribedFacts RunLemmas StrFacts.
Import RepairFacts FormFacts InuktitutFacts FieldFacts WordFacts Texts.

Lemma word_char_spec c :
  word_char c = true →
  nonspace c = true ∧ eq_char "<" c = false ∧ eq_char "[" c = false.
Proof.
  unfold word_char. rewrite !andb_true_iff, !negb_true_iff. tauto.
Qed.

Lemma word_chars_nonspace x :
  all_chars word_char x = true → all_chars nonspace x = true.
Proof.
  induction x as [|c x IH]; [done|]. cbn [all_chars].
  intros [Hc Hx]%andb_true_iff. apply word_char_spec in Hc as (-> & _).
  by apply IH.
Qed.

Lemma dot_star_app t r :
  has_char lf t = false →
  TurkishCleaner.dot_star (t +:+ r) = t +:+ TurkishCleaner.dot_star r.
Proof.
  intros Ht. induction t as [|c t IH]; [by rewrite !app_empty|].
  cbn [has_char] in Ht. rewrite !app_String.
  cbn [TurkishCleaner.dot_star]. change "010"%char with lf.
  rewrite (Ascii.eqb_sym c lf).
  destruct (Ascii.eqb lf c); [done|]. by rewrite IH.
Qed.

Lemma scoped_here_head mark c r :
  eq_char "<" c = false → scoped_here mark (String c r) = None.
Proof.
  intros Hc. destruct (Ascii.eqb_spec c "<") as [->|]; [done|].
  unfold scoped_here. by destruct c as [[] [] [] [] [] [] [] []].
Qed.

(** *** The pattern of one replaced word *)

Lemma word_here_plain x tail :
  all_chars word_char x = true → clear_tail tail →
  word_here ": " (x +:+ tail) = None.
Proof.
  intros Hx%word_chars_nonspace Ht. unfold word_here. cbv zeta.
  destruct Ht as [->|(d & y & -> & Hd)].
  - rewrite app_empty_r', run_all by done.
    destruct (String.length x =? 0); [done|].
    pose proof (slice_from_app x EmptyString) as E.
    rewrite app_empty_r' in E. by rewrite E.
  - rewrite run_app by done.
    destruct (String.length x =? 0); [done|].
    rewrite slice_from_app. unfold bracket_here.
    change (" [" +:+ ": ") with " [: ".
    rewrite !GarbageFacts.startswith_String.
    change (Ascii.eqb " " " ") with true. cbv iota.
    unfold eq_char in Hd. rewrite Ascii.eqb_sym in Hd. by rewrite Hd.
Qed.

Lemma word_here_item w t tail :
  w ≠ EmptyString → all_chars word_char w = true →
  has_char "]" t = false → has_char lf t = false →
  word_here ": " (w +:+ String " " ("[: " +:+ t +:+ String "]" tail))
  = Some (w, t, String.length w + (String.length t + 5)).
Proof.
  intros Hne Hw%word_chars_nonspace Hb Hl. unfold word_here. cbv zeta.
  rewrite run_app by done.
  destruct (String.length w =? 0) eqn:E.
  { apply Nat.eqb_eq in E. by destruct w. }
  rewrite slice_from_app, slice_to_app. unfold bracket_here.
  change (" [" +:+ ": ") with " [: ".
  assert (String " " ("[: " +:+ t +:+ String "]" tail)
          = " [: " +:+ (t +:+ String "]" tail)) as -> by done.
  assert (startswith " [: " (" [: " +:+ (t +:+ String "]" tail)) = true)
    as -> by done.
  cbv zeta.
  change (2 + String.length ": ") with (String.length " [: ").
  rewrite slice_from_app, dot_star_app by done.
  change (TurkishCleaner.dot_star (String "]" tail))
    with (String "]" (TurkishCleaner.dot_star tail)).
  rewrite find_char_first by done. rewrite slice_to_app.
  do 3 f_equal. cbn [String.length]. lia.
Qed.

(** *** A substitution over the words of an utterance *)

Lemma plain_item_spec it :
  plain_item it = true →
  it.1 ≠ EmptyString ∧ all_chars word_char it.1 = true
  ∧ (∀ t, it.2 = Some t →
          has_char "]" t = false ∧ has_char lf t = false
          ∧ has_char "<" t = false)
  ∧ ∃ d y, item_text it = String d y ∧ eq_char "[" d = false.
Proof.
  destruct it as [w r]. unfold plain_item, item_text. cbn [fst snd].
  rewrite !andb_true_iff. intros [[Hne Hw] Hr].
  destruct w as [|d w]; [done|]. split_and!; try done.
  - intros t ->. rewrite !andb_true_iff, !negb_true_iff in Hr. tauto.
  - cbn [all_chars] in Hw. apply andb_true_iff in Hw as [Hd _].
    apply word_char_spec in Hd as (_ & _ & Hd).
    destruct r as [t|]; [|eauto]. rewrite app_String. eauto.
Qed.

Section items.
Variable here : bool → string → option (string * nat).
Variable out : string → string → string.
Hypothesis here_plain :
  ∀ b x tail,
    x ≠ EmptyString → all_chars word_char x = true → clear_tail tail →
    here b (x +:+ tail) = None.
Hypothesis here_blank : ∀ b y, here b (String " " y) = None.
Hypothesis here_item :
  ∀ b w t tail,
    w ≠ EmptyString → all_chars word_char w = true →
    has_char "]" t = false → has_char lf t = false →
    here b (w +:+ String " " ("[: " +:+ t +:+ String "]" tail))
    = Some (out w t, String.length w + (String.length t + 5)).

Let item_out (it : string * option string) : string :=
  match it.2 with
  | Some t => out it.1 t
  | None => it.1
  end.

Lemma sub_tail b tail :
  clear_tail tail → re_sub here 0 b tail = re_sub here 0 false tail.
Proof.
  intros [->|(d & y & -> & _)]; [done|]. cbn [re_sub].
  by rewrite !here_blank.
Qed.

Lemma sub_plain b x tail :
  all_chars word_char x = true → clear_tail tail →
  re_sub here 0 b (x +:+ tail) = x +:+ re_sub here 0 false tail.
Proof.
  intros Hx Ht. revert b. induction x as [|c x IH]; intros b.
  { rewrite !app_empty. by apply sub_tail. }
  pose proof (here_plain b (String c x) tail) as Hn.
  rewrite !app_String in *. cbn [re_sub]. rewrite Hn by done.
  cbn [all_chars] in Hx. apply andb_true_iff in Hx as [_ Hx].
  by rewrite IH.
Qed.

Lemma sub_item b w t tail :
  w ≠ EmptyString → all_chars word_char w = true →
  has_char "]" t = false → has_char lf t = false →
  re_sub here 0 b (w +:+ String " " ("[: " +:+ t +:+ String "]" tail))
  = out w t +:+ re_sub here 0 false tail.
Proof.
  intros Hne Hw Hb Hl.
  pose proof (here_item b w t tail Hne Hw Hb Hl) as Hh.
  destruct w as [|c w]; [done|]. rewrite app_String in *.
  cbn [re_sub]. rewrite Hh. f_equal.
  rewrite re_sub_skip. f_equal.
  assert (w +:+ String " " ("[: " +:+ t +:+ String "]" tail)
          = (w +:+ " [: " +:+ t +:+ "]") +:+ tail) as ->.
  { rewrite !app_assoc'. done. }
  assert (String.length (String c w) + (String.length t + 5) - 1
          = String.length (w +:+ " [: " +:+ t +:+ "]")) as ->.
  { rewrite !string_app_length. cbn [String.length]. lia. }
  apply slice_from_app.
Qed.

Lemma sub_item_text b it tail :
  plain_item it = true → clear_tail tail →
  re_sub here 0 b (item_text it +:+ tail)
  = item_out it +:+ re_sub here 0 false tail.
Proof.
  intros (Hne & Hw & Hr & _)%plain_item_spec Ht.
  destruct it as [w [t|]]; cbn [fst snd] in *.
  - destruct (Hr t eq_refl) as (Hb & Hl & _).
    unfold item_text, item_out. cbn [fst snd].
    rewrite <- (sub_item b w t tail) by done. f_equal.
    rewrite !app_assoc'. done.
  - by apply sub_plain.
Qed.

Lemma sub_items items :
  Forall (λ it, plain_item it = true) items →
  ∀ b, re_sub here 0 b (join " " (item_text <$> items))
       = join " " (item_out <$> items).
Proof.
  induction 1 as [|it items Hit Hitems IH]; intros b; [done|].
  destruct items as [|it2 items].
  - cbn [fmap list_fmap join].
    rewrite <- (app_empty_r' (item_text it)).
    rewrite sub_item_text; [|done|by left].
    by rewrite app_empty_r'.
  - change (item_text <$> it :: it2 :: items)
      with (item_text it :: (item_text <$> it2 :: items)).
    change (item_out <$> it :: it2 :: items)
      with (item_out it :: (item_out <$> it2 :: items)).
    change (item_out <$> it2 :: items)
      with (item_out it2 :: (item_out <$> items)) at 1.
    change (item_text <$> it2 :: items)
      with (item_text it2 :: (item_text <$> items)) at 1.
    rewrite !join_cons.
    change (item_text it2 :: (item_text <$> items))
      with (item_text <$> it2 :: items).
    change (item_out it2 :: (item_out <$> items))
      with (item_out <$> it2 :: items).
    inversion Hitems as [|? ? Hit2 _]; subst.
    apply plain_item_spec in Hit2 as (_ & _ & _ & d & y & E & Hd).
    assert (∃ y', join " " (item_text <$> it2 :: items) = String d y')
      as [y' E'].
    { change (item_text <$> it2 :: items)
        with (item_text it2 :: (item_text <$> items)).
      rewrite E, join_String. eauto. }
    rewrite sub_item_text; [|done|].
    + f_equal. rewrite E'.
      change (" " +:+ String d y') with (String " " (String d y')).
      rewrite <- E', <- (IH false).
      generalize (join " " (item_text <$> it2 :: items)).
      intros s. cbn [re_sub]. by rewrite here_blank.
    + right. exists d, y'. by rewrite E'.
Qed.

End items.

(** *** The three substitutions *)

Lemma has_char_slice_from a s k :
  has_char a s = false → has_char a (slice_from k s) = false.
Proof.
  revert s. induction k as [|k IH]; intros s H; [by destruct s|].
  destruct s as [|c s]; [done|]. cbn [has_char] in H.
  cbn [slice_from]. apply IH. by destruct (Ascii.eqb a c).
Qed.

Lemma items_no_angle items :
  Forall (λ it, plain_item it = true) items →
  has_char "<" (join " " (item_text <$> items)) = false.
Proof.
  assert (∀ x, all_chars word_char x = true → has_char "<" x = false) as Hx.
  { induction x as [|c x IH]; [done|]. cbn [all_chars has_char].
    intros [Hc H]%andb_true_iff. apply word_char_spec in Hc as (_ & Hc & _).
    rewrite <- eq_char_eqb, Hc. by apply IH. }
  assert (∀ it, plain_item it = true → has_char "<" (item_text it) = false)
    as Hit.
  { intros it (_ & Hw & Hr & _)%plain_item_spec.
    destruct it as [w [t|]]; unfold item_text; cbn [fst snd] in *.
    - destruct (Hr t eq_refl) as (_ & _ & Ht).
      rewrite !has_char_app, (Hx w Hw), Ht. done.
    - by apply Hx. }
  induction 1 as [|it items H1 Hall IH]; [done|].
  destruct items as [|it2 items]; [by apply Hit|].
  change (item_text <$> it :: it2 :: items)
    with (item_text it :: (item_text <$> it2 :: items)).
  change (item_text <$> it2 :: items)
    with (item_text it2 :: (item_text <$> items)) at 1.
  rewrite join_cons.
  change (item_text it2 :: (item_text <$> items))
    with (item_text <$> it2 :: items).
  by rewrite !has_char_app, (Hit it H1), IH.
Qed.

(** X30. The words of an utterance and the words that replace them are read
    back.  When the utterance is written as words with one blank between
    them, some of them with their replacement in brackets behind them
    (a blank, an opening bracket, a colon, a blank, the replacing words
    and the closing bracket), then the actual form is the words and the
    target form is the words with every replaced word exchanged for its
    replacement.  The words hold no white space and no opening angle or
    square bracket, the replacements no closing square bracket, no
    opening angle bracket and no line feed. *)
Theorem replacements_read_back (items : list (string * option string)) :
  Forall (λ it, plain_item it = true) items →
  get_replacement_actual (join " " (item_text <$> items))
  = join " " (fst <$> items)
  ∧ get_replacement_target (join " " (item_text <$> items))
    = join " " (item_target <$> items).
Proof.
  intros Hall. split.
  - unfold get_replacement_actual, keep_replaced. cbv zeta.
    rewrite (re_sub_nowhere _ (join " " (item_text <$> items))).
    + rewrite (sub_items _ (λ w _, w)); try done.
      * f_equal. apply list_fmap_ext. by intros _ [w [t|]] _.
      * intros b x tail _ Hx Ht. by rewrite word_here_plain.
      * intros b w t tail Hne Hw Hb Hl. by rewrite word_here_item.
    + intros k b.
      pose proof (has_char_slice_from "<" _ k (items_no_angle items Hall))
        as Hk.
      destruct (slice_from k _) as [|c r]; [done|].
      cbn [has_char] in Hk. rewrite <- eq_char_eqb in Hk.
      destruct (eq_char "<" c) eqn:E; [done|].
      by rewrite scoped_here_head.
  - unfold get_replacement_target, keep_replacing.
    rewrite (sub_items _ (λ _ t, t)); try done.
    + intros b x tail Hne Hx Ht.
      destruct x as [|c x]; [done|]. pose proof Hx as Hx'.
      cbn [all_chars] in Hx'. apply andb_true_iff in Hx' as [Hc _].
      apply word_char_spec in Hc as (_ & Hc & _).
      rewrite app_String, scoped_here_head by done.
      rewrite <- app_String. by rewrite word_here_plain.
    + intros b w t tail Hne Hw Hb Hl.
      destruct w as [|c w]; [done|]. pose proof Hw as Hw'.
      cbn [all_chars] in Hw'. apply andb_true_iff in Hw' as [Hc _].
      apply word_char_spec in Hc as (_ & Hc & _).
      rewrite app_String, scoped_here_head by done.
      rewrite <- app_String. by rewrite word_here_item.
Qed.

Lemma replacements_read_back_example :
  get_replacement_actual "this us [: is] srane [: strange stuff] here"
  = "this us srane here"
  ∧ get_replacement_target "this us [: is] srane [: strange stuff] here"
    = "this is strange stuff here".
Proof.
  apply (replacements_read_back
           [("this", None); ("us", Some "is");
            ("srane", Some "strange stuff"); ("here", None)]).
  repeat constructor.
Defined.

End ReplacementFacts.
